(** * Gestor Financeiro Pessoal: the expense store and the monthly aggregation

    A shallow embedding of [App.tsx] and [types.ts].  The component's
    [useState] cells become one record, its handlers become functions on
    that record, and what the platform answers (the clock, [localStorage],
    the three Gemini helpers, [Date], [localeCompare], the locale
    formatters) comes in as arguments.

    Layout: the platform (numbers, strings, [Array.prototype.sort], [Set],
    [Date], [localeCompare]), then [types.ts], then [App.tsx] (the
    summary, the bar chart, the state, the handlers, the first commit, the
    events and the toast's timer), then the notions the properties are
    stated with and the data they are evaluated on.  The theorems follow:
    the sort, binary64 addition, the monthly summary, the store and its
    handlers, loading, submitting, the available months; then the rest of
    the component: the list items, the months' lists, the chart, the
    events of a session and the timer; last, the shares of the chart (what
    binary64 rounds a value to, and the bounds of totals and percentages
    that follow from it) and the sums that do not round. *)

From Stdlib Require Import ZArith List String Ascii Bool Lia.
From Stdlib Require Import Sorting.Sorted Sorting.Permutation.
From Stdlib Require Import Floats DecimalString.
Import ListNotations.
Open Scope string_scope.
Open Scope list_scope.
Open Scope Z_scope.

(* A decimal literal of type float denotes the nearest binary64, as a
   numeric literal does in JavaScript. *)
Set Warnings "-inexact-float".

(* A lemma of a section depends on the variables its statement names. *)
Set Default Proof Using "Type".

(** ** Numbers

    [App.tsx] uses four things of a JavaScript [number]: [+], [===], [>]
    and truthiness (the [||] of [summary[c] || 0]).  The aggregation is
    written once against this interface. *)

Class Number (N : Type) : Type := {
  zero : N;
  add : N -> N -> N;
  strictEq : N -> N -> bool;
  greater : N -> N -> bool;
  truthy : N -> bool
}.

(** [x || d] on numbers. *)
Definition orElse {N} `{Number N} (x d : N) : N :=
  if truthy x then x else d.

(** The number of the running program: an IEEE 754 binary64.  [===] is
    false on NaN and true between the two zeros; NaN and both zeros are
    falsy. *)
#[export] Instance Number_float : Number float := {|
  zero := 0%float;
  add := PrimFloat.add;
  strictEq := PrimFloat.eqb;
  greater := fun a b => PrimFloat.ltb b a;
  truthy := fun a => negb (PrimFloat.eqb a 0%float) && PrimFloat.eqb a a
|}.

(** Amounts counted in whole minor units (centavos): decimal arithmetic
    without rounding.  The program does not compute in it; it serves to
    evaluate the handlers, which pass amounts on without computing with
    them, and to count whole units. *)
#[export] Instance Number_Z : Number Z := {|
  zero := 0;
  add := Z.add;
  strictEq := Z.eqb;
  greater := Z.gtb;
  truthy := fun a => negb (Z.eqb a 0)
|}.

(** Arithmetic in which no addition rounds. *)
Class ExactNumber (N : Type) `{Number N} : Prop := {
  add_assoc : forall a b c : N, add a (add b c) = add (add a b) c;
  add_comm : forall a b : N, add a b = add b a;
  add_zero_l : forall a : N, add zero a = a;
  strictEq_spec : forall a b : N, strictEq a b = true <-> a = b;
  falsy_zero : forall a : N, truthy a = false -> a = zero
}.

(** [x] is a number (not NaN) that is not below zero. *)
Definition nonNegative {N} `{Number N} (x : N) : Prop :=
  strictEq x x = true /\ greater zero x = false.

(** Arithmetic whose [>] orders the non-negative numbers and in which
    adding a positive number never gives less.  Exact arithmetic is of
    this kind, and so is binary64 with its rounding. *)
Class OrderedNumber (N : Type) `{Number N} : Prop := {
  zero_nonNegative : nonNegative zero;
  positive_nonNegative : forall a : N, greater a zero = true -> nonNegative a;
  greater_irrefl : forall a : N, greater a a = false;
  greater_trans : forall a b c : N,
    nonNegative a -> nonNegative b -> nonNegative c ->
    greater a b = true -> greater b c = true -> greater a c = true;
  greater_total : forall a b : N,
    nonNegative a -> nonNegative b ->
    greater a b = true \/ strictEq a b = true \/ greater b a = true;
  strictEq_greater : forall a b c : N,
    nonNegative a -> nonNegative b -> nonNegative c ->
    strictEq a b = true ->
    greater a c = greater b c /\ greater c a = greater c b;
  strictEq_positive : forall a b : N,
    strictEq a b = true -> greater a zero = true -> a = b;
  falsy_nonNegative : forall a : N,
    nonNegative a -> truthy a = false -> strictEq a zero = true;
  positive_truthy : forall a : N, greater a zero = true -> truthy a = true;
  add_positive : forall x a : N,
    nonNegative x -> greater a zero = true ->
    greater (add x a) zero = true /\ greater x (add x a) = false
}.

(** ** Strings

    A [string] stands for a JavaScript string whose code units are below
    256; every string the handlers inspect (dates, months, the typed text)
    is compared unit by unit. *)

(** [s.slice(0, n)]. *)
Definition slice0 (n : nat) (s : string) : string := substring 0 n s.

(** [s.startsWith(p)]. *)
Definition startsWith (s p : string) : bool := prefix p s.

(** WhiteSpace and LineTerminator code units below 256: TAB, LF, VT, FF,
    CR, SP and NBSP. *)
Definition isWhiteSpace (c : ascii) : bool :=
  let n := nat_of_ascii c in
  (Nat.leb 9 n && Nat.leb n 13) || Nat.eqb n 32 || Nat.eqb n 160.

Fixpoint allWhiteSpace (s : string) : bool :=
  match s with
  | EmptyString => true
  | String c s' => isWhiteSpace c && allWhiteSpace s'
  end.

(** [!s.trim()]: the trimmed text is the empty string. *)
Definition trimIsEmpty (s : string) : bool := allWhiteSpace s.

Definition isDigit (c : ascii) : bool :=
  let n := nat_of_ascii c in Nat.leb 48 n && Nat.leb n 57.

(** ** [Array.prototype.sort]

    A comparator answers with the sign of the number the callback returns
    ([Eq] for [0] and for [NaN]).  The sort is stable; for a consistent
    comparator every stable sort gives the same array, so insertion from
    the right stands for the engine's algorithm. *)

Section SortBy.
Context {A : Type}.
Variable cmp : A -> A -> comparison.

Fixpoint insertSorted (x : A) (l : list A) : list A :=
  match l with
  | [] => [x]
  | y :: l' =>
      match cmp x y with
      | Gt => y :: insertSorted x l'
      | _ => x :: l
      end
  end.

Fixpoint sortBy (l : list A) : list A :=
  match l with
  | [] => []
  | x :: l' => insertSorted x (sortBy l')
  end.

End SortBy.

(** ** [Set<string>]

    Keeps its members in insertion order; [add] of a member changes
    nothing. *)

Definition setHas (s : list string) (x : string) : bool :=
  existsb (String.eqb x) s.

Definition setAdd (s : list string) (x : string) : list string :=
  if setHas s x then s else s ++ [x].

(** ** [Date]

    [Date_getTime s] stands for [new Date(s).getTime()], [None] for [NaN].
    The handlers take it as an argument: engines agree on the date-only
    form with a month from 01 to 12 and a day that the month has, and
    differ beyond (a day up to 31 that the month lacks rolls over in some
    and is refused in others). *)

(** [/^\d{4}-\d{2}-\d{2}$/.test(s)]. *)
Definition matchesDatePattern (s : string) : bool :=
  match list_ascii_of_string s with
  | [y1; y2; y3; y4; h1; m1; m2; h2; d1; d2] =>
      forallb isDigit [y1; y2; y3; y4; m1; m2; d1; d2]
      && Ascii.eqb h1 "-" && Ascii.eqb h2 "-"
  | _ => false
  end.

(** The shape of [s.slice(0, 7)] for a date the pattern accepts. *)
Definition isMonthKey (s : string) : bool :=
  match list_ascii_of_string s with
  | [y1; y2; y3; y4; h1; m1; m2] =>
      forallb isDigit [y1; y2; y3; y4; m1; m2] && Ascii.eqb h1 "-"
  | _ => false
  end.

Fixpoint digitsValue (acc : Z) (s : string) : Z :=
  match s with
  | EmptyString => acc
  | String c s' => digitsValue (10 * acc + (Z.of_nat (nat_of_ascii c) - 48)) s'
  end.

(** Days from 1970-01-01 to the given civil date; linear in [d], so a day
    past the month's end counts on into the next month (MakeDay). *)
Definition daysFromCivil (y m d : Z) : Z :=
  let y' := if m <=? 2 then y - 1 else y in
  let era := y' / 400 in
  let yoe := y' - era * 400 in
  let mp := (m + 9) mod 12 in
  let doy := (153 * mp + 2) / 5 + d - 1 in
  let doe := yoe * 365 + yoe / 4 - yoe / 100 + doy in
  era * 146097 + doe - 719468.

(** The time value of a date-only string as ECMAScript's date-time string
    format reads it (month 01 to 12, day 01 to 31, UTC midnight).  Strings
    of another form are outside this function; it is used to evaluate the
    handlers on concrete dates. *)
Definition isoDateTime (s : string) : option Z :=
  if matchesDatePattern s then
    let y := digitsValue 0 (substring 0 4 s) in
    let m := digitsValue 0 (substring 5 2 s) in
    let d := digitsValue 0 (substring 8 2 s) in
    if (1 <=? m) && (m <=? 12) && (1 <=? d) && (d <=? 31)
    then Some (daysFromCivil y m d * 86400000)
    else None
  else None.

(** The sign of [new Date(a).getTime() - new Date(b).getTime()]; a [NaN]
    difference counts as [0] in the sort. *)
Definition compareTimes (ta tb : option Z) : comparison :=
  match ta, tb with
  | Some x, Some y => Z.compare x y
  | _, _ => Eq
  end.

(** ** [localeCompare] *)




(** * [types.ts] *)

Inductive ExpenseCategory : Type :=
| ALIMENTACAO
| TRANSPORTE
| LAZER
| CONTAS_FIXAS
| SAUDE
| INVESTIMENTOS
| EDUCACAO
| COMPRAS
| OUTROS.

(** [Object.values(ExpenseCategory)], in declaration order. *)
Definition CATEGORY_NAMES_ARRAY : list ExpenseCategory :=
  [ALIMENTACAO; TRANSPORTE; LAZER; CONTAS_FIXAS; SAUDE; INVESTIMENTOS;
   EDUCACAO; COMPRAS; OUTROS].

Definition category_eq_dec (a b : ExpenseCategory) : {a = b} + {a <> b}.
Proof. decide equality. Defined.

Definition category_eqb (a b : ExpenseCategory) : bool :=
  if category_eq_dec a b then true else false.

Record Expense (N : Type) : Type := mkExpense {
  id : string;
  amount : N;
  description : string;
  date : string;
  category : ExpenseCategory;
  originalInput : string
}.
Arguments mkExpense {N}.
Arguments id {N}.
Arguments amount {N}.
Arguments description {N}.
Arguments date {N}.
Arguments category {N}.
Arguments originalInput {N}.

Record ParsedExpenseData (N : Type) : Type := mkParsed {
  valor : option N;
  descricao : option string;
  data : option string
}.
Arguments mkParsed {N}.
Arguments valor {N}.
Arguments descricao {N}.
Arguments data {N}.

Record CategorizedData : Type := mkCategorized {
  categoria : option ExpenseCategory
}.

Inductive QueryType : Type :=
| RESUMO_GERAL
| TOTAL_CATEGORIA
| DESCONHECIDO
| REGISTRO_DESPESA.

(** [ParsedQuery]; its optional [categoria] is [queryCategoria] here. *)
Record ParsedQuery : Type := mkQuery {
  tipoQuery : QueryType;
  queryCategoria : option ExpenseCategory
}.

(** The [{ category, amount }] object of [highestSpending]. *)
Record Highest (N : Type) : Type := mkHighest {
  highCategory : ExpenseCategory;
  highAmount : N
}.
Arguments mkHighest {N}.
Arguments highCategory {N}.
Arguments highAmount {N}.

Record MonthlySummaryData (N : Type) : Type := mkSummary {
  categoryTotals : ExpenseCategory -> N;
  grandTotal : N;
  highestSpending : option (Highest N);
  monthLabel : string
}.
Arguments mkSummary {N}.
Arguments categoryTotals {N}.
Arguments grandTotal {N}.
Arguments highestSpending {N}.
Arguments monthLabel {N}.

(** * [App.tsx] *)

(** ** The monthly summary ([monthlySummaryData]) *)

Section Aggregation.
Context {N : Type} `{Number N}.

(** [formatMonthYear], which goes through [Date] and [toLocaleString]. *)
Variable formatMonthYear : string -> string.

(** The three locals of the memo: [summary], [grandTotal] and
    [highestSpending]. *)
Record Scan : Type := mkScan {
  scanSummary : ExpenseCategory -> N;
  scanGrandTotal : N;
  scanHighest : option (Highest N)
}.

(** [summary[c] = v]. *)
Definition setTotal (summary : ExpenseCategory -> N) (c : ExpenseCategory)
  (v : N) : ExpenseCategory -> N :=
  fun c' => if category_eqb c' c then v else summary c'.

(** Every category at [0], [grandTotal = 0], [highestSpending = null]. *)
Definition scanInit : Scan :=
  mkScan (fun _ => zero) zero None.

(** The body of the [forEach]. *)
Definition scanStep (acc : Scan) (exp : Expense N) : Scan :=
  let s := add (orElse (scanSummary acc (category exp)) zero) (amount exp) in
  mkScan
    (setTotal (scanSummary acc) (category exp) s)
    (add (scanGrandTotal acc) (amount exp))
    (match scanHighest acc with
     | None => Some (mkHighest (category exp) s)
     | Some h =>
         if greater s (highAmount h)
         then Some (mkHighest (category exp) s)
         else Some h
     end).

(** [expenses.filter(exp => exp.date.startsWith(selectedMonth))]. *)
Definition expensesOfMonth (expenses : list (Expense N))
  (selectedMonth : string) : list (Expense N) :=
  filter (fun exp => startsWith (date exp) selectedMonth) expenses.

Definition scanExpenses (l : list (Expense N)) : Scan :=
  fold_left scanStep l scanInit.

Definition monthlySummaryData (expenses : list (Expense N))
  (selectedMonth : string) : option (MonthlySummaryData N) :=
  let acc := scanExpenses (expensesOfMonth expenses selectedMonth) in
  if strictEq (scanGrandTotal acc) zero
     && forallb (fun c => strictEq (scanSummary acc c) zero)
          CATEGORY_NAMES_ARRAY
  then None
  else Some (mkSummary (scanSummary acc) (scanGrandTotal acc)
               (scanHighest acc) (formatMonthYear selectedMonth)).


(** The amounts of the month's expenses of one category, added up in list
    order. *)
Definition categoryTotalOfMonth (expenses : list (Expense N))
  (selectedMonth : string) (c : ExpenseCategory) : N :=
  fold_left add
    (map amount
       (filter (fun exp => category_eqb (category exp) c)
          (expensesOfMonth expenses selectedMonth)))
    zero.

End Aggregation.

(** ** The bar chart ([MonthlyBarChart]) *)

(** One bar: the category, its amount and [(amount / grandTotal) * 100]. *)
Record Bar (N : Type) : Type := mkBar {
  barCategory : ExpenseCategory;
  barAmount : N;
  barPercentage : N
}.
Arguments mkBar {N}.
Arguments barCategory {N}.
Arguments barAmount {N}.
Arguments barPercentage {N}.

Section Chart.
Context {N : Type} `{Number N}.

(** [-], [/], [*] and [100] of a JavaScript [number]. *)
Variable sub : N -> N -> N.
Variable div : N -> N -> N.
Variable mul : N -> N -> N.
Variable hundred : N.

(** [Object.entries(totals)]: the keys come in the order the memo set
    them. *)
Definition entries (totals : ExpenseCategory -> N)
  : list (ExpenseCategory * N) :=
  map (fun c => (c, totals c)) CATEGORY_NAMES_ARRAY.

(** The sign of [b - a] for the entries [[, a]] and [[, b]]. *)
Definition byAmountDescending (x y : ExpenseCategory * N) : comparison :=
  let v := sub (snd y) (snd x) in
  if greater zero v then Lt
  else if greater v zero then Gt
  else Eq.

Definition sortedCategories (summary : MonthlySummaryData N)
  : list (ExpenseCategory * N) :=
  sortBy byAmountDescending
    (filter (fun entry => greater (snd entry) zero)
       (entries (categoryTotals summary))).

(** The bars the component renders; [None] when it renders nothing. *)
Definition MonthlyBarChart (summary : option (MonthlySummaryData N))
  : option (list (Bar N)) :=
  match summary with
  | None => None
  | Some summary =>
      if strictEq (grandTotal summary) zero then None
      else
        Some (map (fun entry =>
                     mkBar (fst entry) (snd entry)
                       (mul (div (snd entry) (grandTotal summary)) hundred))
                (sortedCategories summary))
  end.

End Chart.

(** ** The component's state *)

Inductive ToastType : Type := success | error | info.

(** The texts of the toasts, one constructor per template, holding what
    the template interpolates. *)
Inductive Message : Type :=
| MsgGeminiKeyMissing
    (* 'Chave de API do Gemini nao configurada. Funcionalidades de IA desabilitadas.' *)
| MsgInvalidDate (data : string)
    (* `Data invalida (${parsedData.data}) recebida do processamento. ...` *)
| MsgExpenseRegistered (amount : string) (category : ExpenseCategory)
    (date : string)
    (* `Despesa registrada: ${formatCurrency(amount)} em ${category} (${formatDateShort(date)})` *)
| MsgProcessingError
    (* 'Erro ao processar despesa.' *)
| MsgApiKeyMissing
    (* 'Chave de API nao configurada.' *)
| MsgEmptyInput
    (* 'Por favor, insira uma descricao ou comando.' *)
| MsgDetailsNotUnderstood
    (* 'Nao foi possivel entender os detalhes da despesa. ...' *)
| MsgSummaryShown (monthLabel : string)
    (* `Resumo de ${formatMonthYear(selectedMonth)} exibido abaixo.` *)
| MsgCategoryTotal (category : ExpenseCategory) (monthLabel : string)
    (total : string)
    (* `Total de ${category} em ${formatMonthYear(selectedMonth)}: ${formatCurrency(total)}` *)
| MsgCommandNotUnderstood.
    (* 'Nao entendi o comando. Tente "resumo do mes" ou registrar uma despesa.' *)

Record Toast : Type := mkToast {
  message : Message;
  type : ToastType
}.

(** What [localStorage.getItem('expenses')] holds when it is not [null],
    told apart by what [JSON.parse] does with it. *)
Inductive StoredText (N : Type) : Type :=
| EmptyText
    (* the empty string *)
| Unparsable (text : string)
    (* a text on which JSON.parse throws a SyntaxError *)
| NotAnArray (text : string)
    (* a JSON text of a value without a sort method (5, {}, null) *)
| Serialized (l : list (Expense N)).
    (* the JSON text of the array l: what JSON.stringify(l) writes, and
       what JSON.parse reads as l when every amount is a finite number
       other than -0 (the others are written as null or 0) *)
Arguments EmptyText {N}.
Arguments Unparsable {N}.
Arguments NotAnArray {N}.
Arguments Serialized {N}.

(** The [useState] cells, the identity of the [expenses] array (a new one
    with every [setExpenses]; the effects' dependency arrays compare it),
    and the ['expenses'] entry of [localStorage] ([None]: no entry). *)
Record AppState (N : Type) : Type := mkState {
  expenses : list (Expense N);
  expensesRef : nat;
  userInput : string;
  isLoading : bool;
  toast : option Toast;
  apiKeyExists : bool;
  selectedMonth : string;
  storedExpenses : option (StoredText N)
}.
Arguments mkState {N}.
Arguments expenses {N}.
Arguments expensesRef {N}.
Arguments userInput {N}.
Arguments isLoading {N}.
Arguments toast {N}.
Arguments apiKeyExists {N}.
Arguments selectedMonth {N}.
Arguments storedExpenses {N}.

Section Setters.
Context {N : Type}.

Definition setExpenses (f : list (Expense N) -> list (Expense N))
  (st : AppState N) : AppState N :=
  mkState (f (expenses st)) (S (expensesRef st)) (userInput st)
    (isLoading st) (toast st) (apiKeyExists st) (selectedMonth st)
    (storedExpenses st).

Definition setUserInput (v : string) (st : AppState N) : AppState N :=
  mkState (expenses st) (expensesRef st) v (isLoading st) (toast st)
    (apiKeyExists st) (selectedMonth st) (storedExpenses st).

Definition setIsLoading (v : bool) (st : AppState N) : AppState N :=
  mkState (expenses st) (expensesRef st) (userInput st) v (toast st)
    (apiKeyExists st) (selectedMonth st) (storedExpenses st).

Definition setToast (m : Message) (t : ToastType) (st : AppState N)
  : AppState N :=
  mkState (expenses st) (expensesRef st) (userInput st) (isLoading st)
    (Some (mkToast m t)) (apiKeyExists st) (selectedMonth st)
    (storedExpenses st).

Definition setApiKeyExists (v : bool) (st : AppState N) : AppState N :=
  mkState (expenses st) (expensesRef st) (userInput st) (isLoading st)
    (toast st) v (selectedMonth st) (storedExpenses st).

Definition setSelectedMonth (v : string) (st : AppState N) : AppState N :=
  mkState (expenses st) (expensesRef st) (userInput st) (isLoading st)
    (toast st) (apiKeyExists st) v (storedExpenses st).

(** [localStorage.setItem('expenses', JSON.stringify(l))]. *)
Definition setItemExpenses (l : list (Expense N)) (st : AppState N)
  : AppState N :=
  mkState (expenses st) (expensesRef st) (userInput st) (isLoading st)
    (toast st) (apiKeyExists st) (selectedMonth st) (Some (Serialized l)).

End Setters.

(** ** Awaited calls

    A handler is a tree: a leaf is the state it leaves, a node is one
    awaited call with the continuation for each answer.  [Unhandled] is a
    rejection that no [try] of the handler catches. *)

Inductive Reply (A : Type) : Type :=
| Resolved (a : A)
| Rejected.
Arguments Resolved {A}.
Arguments Rejected {A}.

Inductive Handler (N : Type) : Type :=
| Return (st : AppState N)
| Unhandled (st : AppState N)
| InterpretUserQueryWithGemini (text : string)
    (k : Reply (option ParsedQuery) -> Handler N)
| ParseExpenseInputWithGemini (text : string)
    (k : Reply (option (ParsedExpenseData N)) -> Handler N)
| CategorizeExpenseWithGemini (descricao : string)
    (k : Reply (option CategorizedData) -> Handler N)
| NewExpenseId (k : string -> Handler N).
    (* new Date().toISOString() + Math.random() *)
Arguments Return {N}.
Arguments Unhandled {N}.
Arguments InterpretUserQueryWithGemini {N}.
Arguments ParseExpenseInputWithGemini {N}.
Arguments CategorizeExpenseWithGemini {N}.
Arguments NewExpenseId {N}.

(** The answers of one run. *)
Record Answers (N : Type) : Type := mkAnswers {
  interpretAnswer : string -> Reply (option ParsedQuery);
  parseAnswer : string -> Reply (option (ParsedExpenseData N));
  categorizeAnswer : string -> Reply (option CategorizedData);
  idAnswer : string
}.
Arguments mkAnswers {N}.
Arguments interpretAnswer {N}.
Arguments parseAnswer {N}.
Arguments categorizeAnswer {N}.
Arguments idAnswer {N}.

Inductive Call : Type :=
| CallInterpret (text : string)
| CallParse (text : string)
| CallCategorize (descricao : string).

Inductive Outcome (N : Type) : Type :=
| Returned (st : AppState N)
| Threw (st : AppState N).
Arguments Returned {N}.
Arguments Threw {N}.

Definition finalState {N} (o : Outcome N) : AppState N :=
  match o with
  | Returned st => st
  | Threw st => st
  end.

(** Runs a handler against the answers. *)
Fixpoint run {N} (env : Answers N) (h : Handler N) : Outcome N :=
  match h with
  | Return st => Returned st
  | Unhandled st => Threw st
  | InterpretUserQueryWithGemini text k => run env (k (interpretAnswer env text))
  | ParseExpenseInputWithGemini text k => run env (k (parseAnswer env text))
  | CategorizeExpenseWithGemini d k => run env (k (categorizeAnswer env d))
  | NewExpenseId k => run env (k (idAnswer env))
  end.

(** The calls to the Gemini helpers a run makes, in order. *)
Fixpoint calls {N} (env : Answers N) (h : Handler N) : list Call :=
  match h with
  | Return _ => []
  | Unhandled _ => []
  | InterpretUserQueryWithGemini text k =>
      CallInterpret text :: calls env (k (interpretAnswer env text))
  | ParseExpenseInputWithGemini text k =>
      CallParse text :: calls env (k (parseAnswer env text))
  | CategorizeExpenseWithGemini d k =>
      CallCategorize d :: calls env (k (categorizeAnswer env d))
  | NewExpenseId k => calls env (k (idAnswer env))
  end.

(** ** The helpers and the handlers *)

(** [s.split(sep)] for a one-character separator. *)
Fixpoint splitOn (sep : ascii) (s : string) : list string :=
  match s with
  | EmptyString => [EmptyString]
  | String c s' =>
      if Ascii.eqb c sep then EmptyString :: splitOn sep s'
      else match splitOn sep s' with
           | p :: ps => String c p :: ps
           | [] => [String c EmptyString]
           end
  end.

(** [formatDateShort]: a missing part prints as [undefined]. *)
Definition formatDateShort (dateString : string) : string :=
  let parts := splitOn "-" dateString in
  let year := nth 0 parts "undefined" in
  let month := nth 1 parts "undefined" in
  let day := nth 2 parts "undefined" in
  (day ++ "/" ++ month ++ "/" ++ substring 2 (String.length year) year)%string.

Section App.
Context {N : Type} `{Number N}.

(** [new Date(s).getTime()], [None] for [NaN]. *)
Variable Date_getTime : string -> option Z.
(** The sign of [a.localeCompare(b)]. *)
Variable localeCompare : string -> string -> comparison.
(** [formatCurrency], which goes through [toLocaleString]. *)
Variable formatCurrency : N -> string.
(** [formatMonthYear], which goes through [Date] and [toLocaleString]. *)
Variable formatMonthYear : string -> string.
(** [getCurrentMonthYearGMT3()]: one reading of the clock per render. *)
Variable currentMonth : string.

(** The comparator of both sorts of [expenses]. *)
Definition byDate (a b : Expense N) : comparison :=
  compareTimes (Date_getTime (date a)) (Date_getTime (date b)).

(** The guard of [handleAddExpense] on [finalDate], negated. *)
Definition validDate (finalDate : string) : bool :=
  matchesDatePattern finalDate
  && match Date_getTime finalDate with Some _ => true | None => false end.

(** The first effect, lines 113 to 118: what it passes to [setExpenses];
    [LoadThrows] when [JSON.parse] or the call of [sort] throws. *)
Inductive Loaded : Type :=
| NothingStored
| LoadedExpenses (l : list (Expense N))
| LoadThrows.

Definition loadExpenses (item : option (StoredText N)) : Loaded :=
  match item with
  | None => NothingStored
  | Some EmptyText => NothingStored
  | Some (Unparsable _) => LoadThrows
  | Some (NotAnArray _) => LoadThrows
  | Some (Serialized l) => LoadedExpenses (sortBy byDate l)
  end.

(** The state of the first render. *)
Definition initialState (item : option (StoredText N)) : AppState N :=
  mkState [] 0 "" false None true currentMonth item.

(** The first effect as a whole; [apiKey] says whether
    [process.env.API_KEY] is set. *)
Definition mountEffect (apiKey : bool) (st : AppState N) : Outcome N :=
  let st :=
    if apiKey then st
    else setToast MsgGeminiKeyMissing error (setApiKeyExists false st) in
  match loadExpenses (storedExpenses st) with
  | NothingStored => Returned st
  | LoadedExpenses l => Returned (setExpenses (fun _ => l) st)
  | LoadThrows => Threw st
  end.

(** The second effect: [localStorage.setItem('expenses', ...)]. *)
Definition persistEffect (st : AppState N) : AppState N :=
  setItemExpenses (expenses st) st.

Definition availableMonths (expenses : list (Expense N)) : list string :=
  let months :=
    fold_left (fun s exp => setAdd s (slice0 7 (date exp))) expenses [] in
  let months :=
    if negb (setHas months currentMonth) then setAdd months currentMonth
    else months in
  sortBy localeCompare months.

(** The effect on [availableMonths, selectedMonth]. *)
Definition selectedMonthEffect (st : AppState N) : AppState N :=
  let months := availableMonths (expenses st) in
  if Nat.ltb 0 (List.length months) && negb (setHas months (selectedMonth st))
  then
    setSelectedMonth
      (match last months "" with
       | EmptyString => currentMonth
       | m => m
       end) st
  else if Nat.eqb (List.length months) 0
          && negb (String.eqb (selectedMonth st) currentMonth)
  then setSelectedMonth currentMonth st
  else st.

(** The effects of the render that follows a handler: each runs when one
    of its dependencies changed between the state the handler started
    from and the state it left. *)
Definition runEffects (before st : AppState N) : AppState N :=
  let sameExpenses := Nat.eqb (expensesRef before) (expensesRef st) in
  let st1 := if sameExpenses then st else persistEffect st in
  if sameExpenses && String.eqb (selectedMonth before) (selectedMonth st)
  then st1
  else selectedMonthEffect st1.

Definition handleAddExpense (st : AppState N) (valor : N)
  (descricao data originalInputText : string) : Handler N :=
  let st := setIsLoading true st in
  CategorizeExpenseWithGemini descricao (fun reply =>
    match reply with
    | Rejected =>
        Return (setIsLoading false (setToast MsgProcessingError error st))
    | Resolved categorized =>
        let category :=
          match categorized with
          | Some (mkCategorized (Some c)) => c
          | _ => OUTROS
          end in
        let finalDate := data in
        if negb (validDate finalDate) then
          Return (setIsLoading false (setIsLoading false
                    (setToast (MsgInvalidDate data) error st)))
        else
          NewExpenseId (fun newId =>
            let newExpense :=
              mkExpense newId valor descricao finalDate category
                originalInputText in
            let st1 :=
              setExpenses (fun prev => sortBy byDate (prev ++ [newExpense]))
                st in
            let st2 :=
              setToast
                (MsgExpenseRegistered (formatCurrency (amount newExpense))
                   (category) (formatDateShort (date newExpense)))
                success st1 in
            let st3 := setUserInput "" st2 in
            let expenseMonth := slice0 7 (date newExpense) in
            let st4 :=
              if negb (String.eqb (selectedMonth st) expenseMonth)
              then setSelectedMonth expenseMonth st3
              else st3 in
            Return (setIsLoading false st4))
    end).

Definition handleProcessInput (st : AppState N) : Handler N :=
  if trimIsEmpty (userInput st) || negb (apiKeyExists st) then
    if negb (apiKeyExists st)
    then Return (setToast MsgApiKeyMissing error st)
    else Return (setToast MsgEmptyInput error st)
  else
    let st1 := setIsLoading true st in
    InterpretUserQueryWithGemini (userInput st) (fun reply =>
      match reply with
      | Rejected => Unhandled st1
      | Resolved queryInterpretation =>
          match queryInterpretation with
          | Some (mkQuery REGISTRO_DESPESA _) =>
              ParseExpenseInputWithGemini (userInput st) (fun reply2 =>
                match reply2 with
                | Rejected => Unhandled st1
                | Resolved (Some (mkParsed (Some v) (Some d) (Some dt))) =>
                    handleAddExpense st1 v d dt (userInput st)
                | Resolved _ =>
                    Return (setIsLoading false
                              (setToast MsgDetailsNotUnderstood error st1))
                end)
          | Some (mkQuery RESUMO_GERAL _) =>
              Return (setIsLoading false (setUserInput ""
                        (setToast
                           (MsgSummaryShown
                              (formatMonthYear (selectedMonth st)))
                           info st1)))
          | Some (mkQuery TOTAL_CATEGORIA (Some category)) =>
              let total :=
                match monthlySummaryData formatMonthYear (expenses st)
                        (selectedMonth st) with
                | Some summary => orElse (categoryTotals summary category) zero
                | None => zero
                end in
              Return (setIsLoading false (setUserInput ""
                        (setToast
                           (MsgCategoryTotal category
                              (formatMonthYear (selectedMonth st))
                              (formatCurrency total))
                           info st1)))
          | _ =>
              Return (setIsLoading false
                        (setToast MsgCommandNotUnderstood error st1))
          end
      end).

(** One submission: the handler run against the answers, then the effects
    of the render that follows. *)
Definition submit (env : Answers N) (st : AppState N) : Outcome N :=
  match run env (handleProcessInput st) with
  | Returned st' => Returned (runEffects st st')
  | Threw st' => Threw (runEffects st st')
  end.

(** One call of [handleAddExpense] with its render. *)
Definition addExpense (env : Answers N) (st : AppState N) (valor : N)
  (descricao data originalInputText : string) : AppState N :=
  runEffects st
    (finalState (run env (handleAddExpense st valor descricao data
                            originalInputText))).

(** The record [handleAddExpense] builds. *)
Definition builtExpense (env : Answers N) (valor : N)
  (descricao data originalInputText : string) : Expense N :=
  mkExpense (idAnswer env) valor descricao data
    (match categorizeAnswer env descricao with
     | Resolved (Some (mkCategorized (Some c))) => c
     | _ => OUTROS
     end)
    originalInputText.

End App.
Arguments NothingStored {N}.
Arguments LoadedExpenses {N}.
Arguments LoadThrows {N}.

(** ** The list items *)

(** The text of [originalInput] in a list item, line 369:
    [s.length > 30 ? s.substring(0, 27) + '...' : s]. *)
Definition shownOriginalInput (s : string) : string :=
  if Nat.ltb 30 (String.length s)
  then (substring 0 27 s ++ "...")%string
  else s.

(** ** The first commit and the events *)

Section Component.
Context {N : Type} `{Number N}.
Variable Date_getTime : string -> option Z.
Variable localeCompare : string -> string -> comparison.
Variable formatCurrency : N -> string.
Variable formatMonthYear : string -> string.
Variable currentMonth : string.

(** The commit of the first render and the render its updates cause.  The
    first commit runs the effects in order: the load reads the entry; the
    persist effect, whose [expenses] is the empty array of the first
    render, writes it over the entry; the toast is [null] and the selected
    month is the current one, so the other two do nothing. *)
Definition mount (apiKey : bool) (item : option (StoredText N)) : Outcome N :=
  let st0 := initialState currentMonth item in
  match mountEffect Date_getTime apiKey st0 with
  | Returned st1 =>
      Returned (runEffects localeCompare currentMonth st0
                  (setItemExpenses (expenses st0) st1))
  | Threw st1 => Threw st1
  end.

(** [disabled] of the button and of the input. *)
Definition buttonDisabled (st : AppState N) : bool :=
  isLoading st || trimIsEmpty (userInput st) || negb (apiKeyExists st).

Definition inputDisabled (st : AppState N) : bool :=
  isLoading st || negb (apiKeyExists st).

(** [onKeyPress] of the input:
    [e.key === 'Enter' && !isLoading && handleProcessInput()]. *)
Definition onKeyPress (key : string) (env : Answers N) (st : AppState N)
  : Outcome N :=
  if String.eqb key "Enter" && negb (isLoading st)
  then submit Date_getTime localeCompare formatCurrency formatMonthYear
         currentMonth env st
  else Returned st.

(** [onClick] of a month button, with the render that follows. *)
Definition onClickMonth (monthStr : string) (st : AppState N) : AppState N :=
  runEffects localeCompare currentMonth st (setSelectedMonth monthStr st).

(** [onChange] of the input. *)
Definition onChange (value : string) (st : AppState N) : AppState N :=
  setUserInput value st.

(** [setToast(null)], the callback of the toast's timer. *)
Definition clearToast (st : AppState N) : AppState N :=
  mkState (expenses st) (expensesRef st) (userInput st) (isLoading st) None
    (apiKeyExists st) (selectedMonth st) (storedExpenses st).

(** What the user does; a submission comes with the answers its awaited
    calls will get. *)
Inductive Event : Type :=
| ClickProcess (env : Answers N)
| KeyPress (key : string) (env : Answers N)
| ClickMonth (monthStr : string)
| Change (value : string)
| ToastTimeout.

(** One event, handled to its end before the next.  A disabled element
    gets no event, and there is a month button for each available month
    only. *)
Definition dispatch (st : AppState N) (ev : Event) : AppState N :=
  match ev with
  | ClickProcess env =>
      if buttonDisabled st then st
      else finalState (submit Date_getTime localeCompare formatCurrency
                         formatMonthYear currentMonth env st)
  | KeyPress key env =>
      if inputDisabled st then st else finalState (onKeyPress key env st)
  | ClickMonth monthStr =>
      if setHas (availableMonths localeCompare currentMonth (expenses st))
           monthStr
      then onClickMonth monthStr st
      else st
  | Change value =>
      if inputDisabled st then st else onChange value st
  | ToastTimeout =>
      match toast st with
      | Some _ => clearToast st
      | None => st
      end
  end.

Definition dispatchAll (st : AppState N) (evs : list Event) : AppState N :=
  fold_left dispatch evs st.

End Component.
Arguments Event : clear implicits.

(** ** The toast's timer (the third effect)

    The [toast] cell with the timeouts of the page: each has the handle
    [setTimeout] returned and the time at which it is due.  [cleanup] is
    the handle the cleanup of the effect's last run clears, if that run
    set a timer. *)
Record Notifier : Type := mkNotifier {
  shown : option Toast;
  timeouts : list (nat * Z);
  cleanup : option nat;
  nextHandle : nat
}.

(** [toast.type === 'info' ? 7000 : 5000]. *)
Definition toastDelay (t : Toast) : Z :=
  match type t with
  | info => 7000
  | _ => 5000
  end.

Definition clearTimeout (h : nat) (l : list (nat * Z)) : list (nat * Z) :=
  filter (fun p => negb (Nat.eqb (fst p) h)) l.

(** [setToast(v)] at the time [now] and the effect of the render that
    follows: the cleanup of the last run, then the body. *)
Definition setToastAt (now : Z) (v : option Toast) (n : Notifier) : Notifier :=
  let pending :=
    match cleanup n with
    | Some h => clearTimeout h (timeouts n)
    | None => timeouts n
    end in
  match v with
  | Some t =>
      mkNotifier v (pending ++ [(nextHandle n, now + toastDelay t)])
        (Some (nextHandle n)) (S (nextHandle n))
  | None => mkNotifier None pending None (nextHandle n)
  end.

(** The timeout [h], due at [due], fires: it is pending no more, and its
    callback is [setToast(null)], which causes no render when the toast
    is [null] already. *)
Definition fire (h : nat) (due : Z) (n : Notifier) : Notifier :=
  let n' :=
    mkNotifier (shown n) (clearTimeout h (timeouts n)) (cleanup n)
      (nextHandle n) in
  match shown n with
  | Some _ => setToastAt due None n'
  | None => n'
  end.

(** The pending timeout that fires first among those due by [T]. *)
Fixpoint earliestDue (T : Z) (l : list (nat * Z)) : option (nat * Z) :=
  match l with
  | [] => None
  | p :: l' =>
      match earliestDue T l' with
      | Some q =>
          if (snd p <=? T) && (snd p <=? snd q) then Some p else Some q
      | None => if snd p <=? T then Some p else None
      end
  end.

Fixpoint advance (fuel : nat) (T : Z) (n : Notifier) : Notifier :=
  match fuel with
  | O => n
  | S fuel' =>
      match earliestDue T (timeouts n) with
      | Some (h, due) => advance fuel' T (fire h due n)
      | None => n
      end
  end.

(** Time passes to [T]: the timeouts due by then fire, the earliest
    first.  A callback sets no timeout, so each pending one is looked at
    once. *)
Definition advanceTo (T : Z) (n : Notifier) : Notifier :=
  advance (List.length (timeouts n)) T n.

Inductive TimedEvent : Type :=
| ShowAt (now : Z) (t : Toast)
| AdvanceTo (T : Z).

Definition timedStep (n : Notifier) (ev : TimedEvent) : Notifier :=
  match ev with
  | ShowAt now t => setToastAt now (Some t) n
  | AdvanceTo T => advanceTo T n
  end.

Definition initialNotifier : Notifier := mkNotifier None [] None 0.

(** * What the properties speak of *)

(** [a] does not come after [b] for the comparator. *)
Definition notAfter {A} (cmp : A -> A -> comparison) (a b : A) : Prop :=
  cmp a b <> Gt.


(** The non-negative and the positive values of a binary64, as the
    specification of the format has them: no NaN, no negative number. *)
Definition SFnonneg (X : spec_float) : Prop :=
  match X with
  | S754_zero _ => True
  | S754_infinity false => True
  | S754_finite false _ _ => True
  | _ => False
  end.

Definition SFpositive (X : spec_float) : Prop :=
  match X with
  | S754_infinity false => True
  | S754_finite false _ _ => True
  | _ => False
  end.

(** ** Rounding as arithmetic on integers *)

(** [M] cut by [n] bits and rounded to the nearest integer, to the even
    one on a tie. *)
Definition roundShift (M n : Z) : Z :=
  let q := M / 2 ^ n in
  match 2 * (M mod 2 ^ n) ?= 2 ^ n with
  | Lt => q
  | Eq => if Z.even q then q else q + 1
  | Gt => q + 1
  end.

(** Values are counted in units of [2 ^ -2148], which divides every
    product of two numbers; the least positive number is [2 ^ 1074] such
    units.  [shiftOf V] is the exponent, in these units, at which the
    value [V] is rounded. *)
Definition shiftOf (V : Z) : Z := Z.max (Z.log2 V - 52) 1074.

(** The value to which binary64 rounds the value [V]. *)
Definition roundValue (V : Z) : Z :=
  roundShift V (shiftOf V) * 2 ^ shiftOf V.

(** The value of a finite number that is not negative, in these units;
    [0] for the others. *)
Definition valueOf (X : spec_float) : Z :=
  match X with
  | S754_finite _ m e => Zpos m * 2 ^ (e + 2148)
  | _ => 0
  end.

(** A number that is zero or at most one. *)
Definition atMostOne (R : spec_float) : Prop :=
  R = S754_zero false
  \/ exists m e, R = S754_finite false m e /\ e <= 0 /\ Zpos m <= 2 ^ (- e).

Section SummaryNotions.
Context {N : Type} {num : Number N}.


(** [exp.amount > 0]. *)
Definition positiveAmount (exp : Expense N) : Prop :=
  greater (amount exp) zero = true.

(** The running totals of a scan are non-negative numbers. *)
Definition nonNegativeTotals (acc : Scan) : Prop :=
  (forall c, nonNegative (scanSummary acc c))
  /\ nonNegative (scanGrandTotal acc).

(** The totals of a scan are zero or positive. *)
Definition zeroOrPositive (acc : Scan) : Prop :=
  forall c, scanSummary acc c = zero \/ greater (scanSummary acc c) zero = true.

(** [h] is held by the expense that first made a running total reach
    [highAmount h]: before it, every running total was below. *)
Definition firstToReach (l : list (Expense N)) (h : Highest N) : Prop :=
  exists l1 e l2,
    l = l1 ++ e :: l2
    /\ category e = highCategory h
    /\ scanSummary (scanExpenses (l1 ++ [e])) (highCategory h) = highAmount h
    /\ forall p q c,
         l1 = p ++ q ->
         greater (highAmount h) (scanSummary (scanExpenses p) c) = true.

(** What the scan of [l] knows about [highestSpending]. *)
Definition highestInvariant (l : list (Expense N)) (acc : Scan) : Prop :=
  exists h,
    scanHighest acc = Some h
    /\ highAmount h = scanSummary acc (highCategory h)
    /\ greater (highAmount h) zero = true
    /\ (forall c, greater (scanSummary acc c) (highAmount h) = false)
    /\ firstToReach l h.

End SummaryNotions.

(** ** Whole numbers of a unit *)

(** The number of units [2 ^ u] in a number that is zero or a positive
    whole number of them; [None] for the other numbers. *)
Definition SFunits (u : Z) (X : spec_float) : option Z :=
  match X with
  | S754_zero false => Some 0
  | S754_finite false m e =>
      if u <=? e then Some (Zpos m * 2 ^ (e - u))
      else if Zpos m mod 2 ^ (u - e) =? 0 then Some (Zpos m / 2 ^ (u - e))
      else None
  | _ => None
  end.

Definition unitsOf (u : Z) (x : float) : option Z := SFunits u (Prim2SF x).

(** The amounts of [l] in units of [2 ^ u], added up without rounding;
    [None] when one of them is not a whole number of units. *)
Fixpoint totalUnits (u : Z) (l : list (Expense float)) : option Z :=
  match l with
  | [] => Some 0
  | e :: l' =>
      match unitsOf u (amount e), totalUnits u l' with
      | Some a, Some t => Some (a + t)
      | _, _ => None
      end
  end.



(** No expense's date starts with the selected month. *)
Definition noExpenseInMonth {N} (expenses : list (Expense N))
  (selectedMonth : string) : Prop :=
  forall exp, In exp expenses -> startsWith (date exp) selectedMonth = false.

Section StoreNotions.
Context {N : Type}.
Variable Date_getTime : string -> option Z.

(** The date of the record has a time value. *)
Definition hasTime (exp : Expense N) : Prop :=
  exists t, Date_getTime (date exp) = Some t.

(** The time value of [a]'s date is at most that of [b]'s. *)
Definition notLater (a b : Expense N) : Prop :=
  match Date_getTime (date a), Date_getTime (date b) with
  | Some x, Some y => x <= y
  | _, _ => False
  end.

(** Dates with time values, in ascending order. *)
Definition dateAscending (l : list (Expense N)) : Prop :=
  Forall hasTime l /\ StronglySorted notLater l.

(** The record's date has the time value [t]. *)
Definition dateIs (t : Z) (exp : Expense N) : bool :=
  match Date_getTime (date exp) with
  | Some x => Z.eqb x t
  | None => false
  end.

End StoreNotions.

(** The [Set] after the [forEach]. *)
Definition monthsOf {N} (expenses : list (Expense N)) (s : list string)
  : list string :=
  fold_left (fun s exp => setAdd s (slice0 7 (date exp))) expenses s.

(** The [Set] the memo sorts. *)
Definition monthSet {N} (currentMonth : string) (expenses : list (Expense N))
  : list string :=
  let months := monthsOf expenses [] in
  if negb (setHas months currentMonth) then setAdd months currentMonth
  else months.

(** One call of [handleAddExpense]: the answers it gets and its
    arguments. *)
Record AddCall (N : Type) : Type := mkAddCall {
  callAnswers : Answers N;
  callValor : N;
  callDescricao : string;
  callData : string;
  callOriginalInput : string
}.
Arguments mkAddCall {N}.
Arguments callAnswers {N}.
Arguments callValor {N}.
Arguments callDescricao {N}.
Arguments callData {N}.
Arguments callOriginalInput {N}.

Section AddNotions.
Context {N : Type}.
Variable Date_getTime : string -> option Z.
Variable localeCompare : string -> string -> comparison.
Variable formatCurrency : N -> string.
Variable currentMonth : string.

Definition addCall (st : AppState N) (c : AddCall N) : AppState N :=
  addExpense Date_getTime localeCompare formatCurrency currentMonth
    (callAnswers c) st (callValor c) (callDescricao c)
    (callData c) (callOriginalInput c).

(** The calls of a sequence, one after the other. *)
Definition addAll (st : AppState N) (cs : list (AddCall N)) : AppState N :=
  fold_left addCall cs st.

Definition callRecord (c : AddCall N) : Expense N :=
  builtExpense (callAnswers c) (callValor c) (callDescricao c) (callData c)
    (callOriginalInput c).

(** The call passes the date guard and its categorization is answered. *)
Definition callSucceeds (c : AddCall N) : Prop :=
  validDate Date_getTime (callData c) = true
  /\ categorizeAnswer (callAnswers c) (callDescricao c) <> Rejected.

(** What a call that succeeds leaves when the handler returns. *)
Definition addedState (env : Answers N) (st : AppState N) (valor : N)
  (descricao data originalInputText : string) : AppState N :=
  let newExpense := builtExpense env valor descricao data originalInputText in
  mkState
    (sortBy (byDate Date_getTime) (expenses st ++ [newExpense]))
    (S (expensesRef st)) "" false
    (Some (mkToast
             (MsgExpenseRegistered (formatCurrency valor) (category newExpense)
                (formatDateShort data))
             success))
    (apiKeyExists st) (slice0 7 data) (storedExpenses st).

End AddNotions.

Section SubmitNotions.
Context {N : Type} {num : Number N}.
Variable formatMonthYear : string -> string.

(** The total the handler passes to [formatCurrency] for a category. *)
Definition reportedTotal (st : AppState N) (c : ExpenseCategory) : N :=
  match monthlySummaryData formatMonthYear (expenses st) (selectedMonth st) with
  | Some summary => orElse (categoryTotals summary c) zero
  | None => zero
  end.

End SubmitNotions.

(** [b - a] has the sign of the comparison of [b] with [a], on numbers
    that are not negative. *)
Definition signOfDifference {N} `{Number N} (sub : N -> N -> N) : Prop :=
  forall a b : N,
    nonNegative a -> nonNegative b ->
    greater zero (sub b a) = greater a b
    /\ greater (sub b a) zero = greater b a.

(** Adding the same positive number to two numbers that are not
    negative keeps their order. *)
Definition addMonotone {N} `{Number N} : Prop :=
  forall x y a : N,
    nonNegative x -> nonNegative y -> greater x y = false ->
    greater a zero = true ->
    greater (add x a) (add y a) = false.
Arguments addMonotone N {_}.

(** No bar is longer than one before it. *)
Definition barsDescending {N} `{Number N} (bars : list (Bar N)) : Prop :=
  StronglySorted (fun x y => greater (barAmount y) (barAmount x) = false)
    bars.

(** The time value of [b]'s date is greater than that of [a]'s. *)
Definition laterThan {N} (Date_getTime : string -> option Z)
  (a b : Expense N) : Prop :=
  match Date_getTime (date a), Date_getTime (date b) with
  | Some x, Some y => x < y
  | _, _ => False
  end.

Section ComponentNotions.
Context {N : Type}.
Variable Date_getTime : string -> option Z.
Variable localeCompare : string -> string -> comparison.
Variable formatCurrency : N -> string.
Variable currentMonth : string.

(** The store as the effects leave it: the entry of [localStorage] is the
    text of the list, the selected month is one of the available ones, and
    the list ascends by date. *)
Definition settled (st : AppState N) : Prop :=
  storedExpenses st = Some (Serialized (expenses st))
  /\ In (selectedMonth st)
       (availableMonths localeCompare currentMonth (expenses st))
  /\ dateAscending Date_getTime (expenses st).

(** What [JSON.parse] and [sort] accept, with dates that have time
    values. *)
Definition loadable (item : option (StoredText N)) : Prop :=
  match item with
  | None => True
  | Some EmptyText => True
  | Some (Serialized l) => Forall (hasTime Date_getTime) l
  | Some (Unparsable _) => False
  | Some (NotAnArray _) => False
  end.

(** What a submission can do to the store: nothing, or one registration. *)
Inductive SubmitResult (env : Answers N) (st st' : AppState N) : Prop :=
| Kept :
    expenses st' = expenses st -> expensesRef st' = expensesRef st ->
    storedExpenses st' = storedExpenses st ->
    selectedMonth st' = selectedMonth st ->
    SubmitResult env st st'
| Registered (v : N) (d dt : string) :
    trimIsEmpty (userInput st) = false -> apiKeyExists st = true ->
    (exists q, interpretAnswer env (userInput st)
               = Resolved (Some (mkQuery REGISTRO_DESPESA q))) ->
    parseAnswer env (userInput st)
    = Resolved (Some (mkParsed (Some v) (Some d) (Some dt))) ->
    validDate Date_getTime dt = true ->
    categorizeAnswer env d <> Rejected ->
    st' = persistEffect
            (addedState Date_getTime formatCurrency env (setIsLoading true st)
               v d dt (userInput st)) ->
    SubmitResult env st st'.

(** What stays when the input is disabled: everything but the selected
    month and the toast. *)
Definition sameSession (st st' : AppState N) : Prop :=
  expenses st' = expenses st
  /\ storedExpenses st' = storedExpenses st
  /\ userInput st' = userInput st
  /\ isLoading st' = isLoading st
  /\ apiKeyExists st' = apiKeyExists st.

End ComponentNotions.

(** Every pending timeout is the one the next cleanup clears. *)
Definition ownsTimeouts (n : Notifier) : Prop :=
  forall p, In p (timeouts n) -> cleanup n = Some (fst p).

(** * Data to evaluate on *)

(** The scenario of the spec, in whole reais. *)
Definition scenarioExpenses : list (Expense Z) :=
  [ mkExpense "a" 500 "rent" "2024-05-01" CONTAS_FIXAS "rent 500";
    mkExpense "b" 50 "snack" "2024-05-03" ALIMENTACAO "snack 50" ].

(** Three expenses of one month in binary64. *)
Definition roundingExpenses : list (Expense float) :=
  [ mkExpense "a" 0.1%float "cafe" "2024-05-01" ALIMENTACAO "cafe 0.10";
    mkExpense "b" 0.2%float "onibus" "2024-05-02" TRANSPORTE "onibus 0.20";
    mkExpense "c" 0.3%float "metro" "2024-05-03" TRANSPORTE "metro 0.30" ].

(** Two categories end at 0.5; TRANSPORTE got there first. *)
Definition tiedExpenses : list (Expense float) :=
  [ mkExpense "a" 0.25%float "feira" "2024-05-02" ALIMENTACAO "feira 0.25";
    mkExpense "b" 0.5%float "passe" "2024-05-03" TRANSPORTE "passe 0.50";
    mkExpense "c" 0.25%float "padaria" "2024-05-09" ALIMENTACAO
      "padaria 0.25" ].

(** A stand-in for [formatCurrency] on whole amounts. *)
Definition formatReais (z : Z) : string :=
  ("R$ " ++ NilZero.string_of_int (Z.to_int z))%string.

Definition sampleAnswers (data : string) : Answers Z :=
  mkAnswers
    (fun _ => Resolved (Some (mkQuery REGISTRO_DESPESA None)))
    (fun _ => Resolved (Some (mkParsed (Some 30) (Some "Lanche") (Some data))))
    (fun _ => Resolved (Some (mkCategorized (Some ALIMENTACAO))))
    ("id-" ++ data)%string.

Definition sampleState : AppState Z :=
  mkState scenarioExpenses 0 "Lanche R$30 ontem" false None true "2024-05"
    (Some (Serialized scenarioExpenses)).

Definition sampleCalls : list (AddCall Z) :=
  [ mkAddCall (sampleAnswers "2024-05-02") 30 "Lanche" "2024-05-02"
      "Lanche R$30 ontem";
    mkAddCall (sampleAnswers "2024-05-01") 12 "Cafe" "2024-05-01"
      "Cafe 12 dia 1" ].

(** The scenario of the spec: a total of 120 for ALIMENTACAO in the
    selected month. *)
Definition totalState : AppState Z :=
  mkState
    [ mkExpense "a" 70 "feira" "2024-05-02" ALIMENTACAO "feira 70";
      mkExpense "b" 35 "onibus" "2024-05-04" TRANSPORTE "onibus 35";
      mkExpense "c" 50 "jantar" "2024-05-20" ALIMENTACAO "jantar 50";
      mkExpense "d" 90 "mercado" "2024-06-01" ALIMENTACAO "mercado 90" ]
    4 "quanto gastei com alimentacao?" false None true "2024-05" None.

Definition totalAnswers : Answers Z :=
  mkAnswers
    (fun _ => Resolved (Some (mkQuery TOTAL_CATEGORIA (Some ALIMENTACAO))))
    (fun _ => Rejected) (fun _ => Rejected) "unused".

(** A month whose only expense has the amount 0. *)
Definition zeroExpenses : list (Expense float) :=
  [ mkExpense "a" 0%float "brinde" "2024-05-01" OUTROS "brinde 0" ].

(** Typing, a submission that registers an expense dated in June, then
    choosing May again and the end of the toast. *)
Definition sampleEvents : list (Event Z) :=
  [ Change "Lanche R$30 dia 10/06";
    ClickProcess (sampleAnswers "2024-06-10");
    ClickMonth "2024-05";
    ToastTimeout ].

(** Every awaited call rejects. *)
Definition rejectingAnswers : Answers Z :=
  mkAnswers (fun _ => Rejected) (fun _ => Rejected) (fun _ => Rejected) "x".





(** * Properties of the platform model *)

(** ** The sort *)

Section SortFacts.
Context {A : Type}.
Variable cmp : A -> A -> comparison.

Lemma insertSorted_split (x : A) (l : list A) :
  exists l1 l2,
    l = l1 ++ l2 /\ insertSorted cmp x l = l1 ++ x :: l2
    /\ Forall (fun y => cmp x y = Gt) l1
    /\ match l2 with [] => True | y :: _ => cmp x y <> Gt end.
Proof.
  induction l as [|y l IH]; simpl.
  - exists [], []. simpl. auto.
  - destruct (cmp x y) eqn:E.
    + exists [], (y :: l). simpl. repeat split; auto. congruence.
    + exists [], (y :: l). simpl. repeat split; auto. congruence.
    + destruct IH as (l1 & l2 & -> & -> & F & T).
      exists (y :: l1), l2. simpl. repeat split; auto.
Qed.

Lemma insertSorted_perm (x : A) (l : list A) :
  Permutation (insertSorted cmp x l) (x :: l).
Proof.
  destruct (insertSorted_split x l) as (l1 & l2 & -> & -> & _).
  symmetry. apply Permutation_middle.
Qed.

Lemma sortBy_perm (l : list A) : Permutation (sortBy cmp l) l.
Proof.
  induction l as [|x l IH]; simpl.
  - constructor.
  - rewrite insertSorted_perm. now constructor.
Qed.

Lemma sortBy_In (l : list A) (x : A) : In x (sortBy cmp l) <-> In x l.
Proof.
  split; apply Permutation_in; [|symmetry]; apply sortBy_perm.
Qed.

Lemma sortBy_length (l : list A) : List.length (sortBy cmp l) = List.length l.
Proof. apply Permutation_length, sortBy_perm. Qed.

(** Stability: the sort keeps the order of any elements the comparator
    takes as equal to one another. *)
Lemma insertSorted_filter (q : A -> bool) (x : A) (l : list A) :
  (forall a b, q a = true -> q b = true -> cmp a b = Eq) ->
  filter q (insertSorted cmp x l) = filter q (x :: l).
Proof.
  intros Hq.
  destruct (insertSorted_split x l) as (l1 & l2 & -> & -> & F & _).
  simpl. rewrite !filter_app. simpl.
  destruct (q x) eqn:Qx; [|reflexivity].
  assert (E : filter q l1 = []).
  { clear - F Hq Qx. induction F as [|y l1 Hy F IH]; simpl; [reflexivity|].
    destruct (q y) eqn:Qy; [|exact IH].
    rewrite (Hq x y Qx Qy) in Hy. discriminate. }
  rewrite E. reflexivity.
Qed.

Lemma sortBy_filter (q : A -> bool) (l : list A) :
  (forall a b, q a = true -> q b = true -> cmp a b = Eq) ->
  filter q (sortBy cmp l) = filter q l.
Proof.
  intros Hq. induction l as [|x l IH]; simpl; [reflexivity|].
  rewrite insertSorted_filter by exact Hq. simpl. now rewrite IH.
Qed.

(** Sortedness, for a comparator that is consistent on the elements: [P]
    holds of them, and on [P] the comparator is antisymmetric and
    transitive. *)
Variable P : A -> Prop.
Hypothesis cmp_antisym :
  forall a b, P a -> P b -> cmp b a = CompOpp (cmp a b).
Hypothesis cmp_trans :
  forall a b c, P a -> P b -> P c ->
    notAfter cmp a b -> notAfter cmp b c -> notAfter cmp a c.

Lemma insertSorted_sorted (x : A) (l : list A) :
  P x -> Forall P l -> StronglySorted (notAfter cmp) l ->
  StronglySorted (notAfter cmp) (insertSorted cmp x l).
Proof using cmp_antisym cmp_trans.
  intros Px Pl Sl. induction Sl as [|y l Sl IH Hy]; simpl.
  - repeat constructor.
  - inversion Pl as [|? ? Py Pl']; subst.
    assert (Hall : forall z, In z l -> P z) by (now apply Forall_forall).
    destruct (cmp x y) eqn:E.
    + constructor; [now constructor|].
      constructor; [unfold notAfter; congruence|].
      rewrite Forall_forall in *. intros z Hz.
      apply (cmp_trans x y z); auto. unfold notAfter; congruence.
    + constructor; [now constructor|].
      constructor; [unfold notAfter; congruence|].
      rewrite Forall_forall in *. intros z Hz.
      apply (cmp_trans x y z); auto. unfold notAfter; congruence.
    + constructor; [auto|].
      rewrite Forall_forall in *. intros z Hz.
      apply (Permutation_in _ (insertSorted_perm x l)) in Hz.
      destruct Hz as [<-|Hz]; [|auto].
      unfold notAfter. rewrite (cmp_antisym x y Px Py), E. discriminate.
Qed.

Lemma sortBy_sorted (l : list A) :
  Forall P l -> StronglySorted (notAfter cmp) (sortBy cmp l).
Proof using cmp_antisym cmp_trans.
  induction 1 as [|x l Px Pl IH]; simpl.
  - constructor.
  - apply insertSorted_sorted; auto.
    rewrite Forall_forall in *. intros z Hz. apply Pl.
    now apply sortBy_In.
Qed.

End SortFacts.

(** * Properties of binary64 addition

    [PrimFloat]'s operations are specified by [SpecFloat]'s functions on
    sign, mantissa and exponent.  Adding a positive number to a
    non-negative one rounds to nearest, and the rounded sum is never below
    the first operand. *)

Lemma digits2_log2 (p : positive) :
  Zpos (digits2_pos p) = Z.log2 (Zpos p) + 1.
Proof.
  assert (S : forall q, digits2_pos q = Pos.size q).
  { induction q; simpl; congruence. }
  destruct p as [q|q|]; simpl; rewrite ?S; lia.
Qed.

Lemma shr_1_m (r : shr_record) :
  0 <= shr_m r -> shr_m (shr_1 r) = shr_m r / 2 /\ 0 <= shr_m (shr_1 r).
Proof.
  destruct r as [m rb sb]. simpl. intros Hm.
  destruct m as [|[p|p|]|p]; simpl; try lia;
    (split; [|lia]); Z.div_mod_to_equations; lia.
Qed.

Lemma iter_shr_1_m (n : positive) (r : shr_record) :
  0 <= shr_m r ->
  shr_m (iter_pos shr_1 n r) = shr_m r / 2 ^ Zpos n
  /\ 0 <= shr_m (iter_pos shr_1 n r).
Proof.
  revert r. induction n as [n IH|n IH|]; intros r Hr; cbn [iter_pos].
  - destruct (shr_1_m r Hr) as [E1 P1].
    destruct (IH _ P1) as [E2 P2].
    destruct (IH _ P2) as [E3 P3].
    split; [|exact P3].
    rewrite E3, E2, E1, !Z.div_div by lia.
    f_equal.
    rewrite (Pos2Z.inj_xI n).
    replace (2 * Zpos n + 1) with (1 + Zpos n + Zpos n) by lia.
    rewrite !Z.pow_add_r by lia. lia.
  - destruct (IH _ Hr) as [E2 P2].
    destruct (IH _ P2) as [E3 P3].
    split; [|exact P3].
    rewrite E3, E2, !Z.div_div by lia.
    f_equal.
    rewrite (Pos2Z.inj_xO n).
    replace (2 * Zpos n) with (Zpos n + Zpos n) by lia.
    rewrite !Z.pow_add_r by lia. lia.
  - destruct (shr_1_m r Hr) as [E1 P1]. split; [|exact P1].
    rewrite E1. reflexivity.
Qed.

Lemma iter_xO (d : positive) (m : positive) :
  Zpos (Pos.iter xO m d) = Zpos m * 2 ^ Zpos d.
Proof.
  revert m. induction d as [|d IH] using Pos.peano_ind; intros m.
  - simpl. lia.
  - rewrite Pos.iter_succ, Pos2Z.inj_xO, IH, Pos2Z.inj_succ, Z.pow_succ_r by lia.
    lia.
Qed.

Lemma fexp64 (e : Z) : fexp prec emax e = Z.max (e - 53) (-1074).
Proof. reflexivity. Qed.

Lemma Zdigits2_log2 (m : Z) : 0 < m -> Zdigits2 m = Z.log2 m + 1.
Proof. destruct m as [|p|p]; try lia. intros _. apply digits2_log2. Qed.

Lemma shr_fexp_exact (m e : Z) :
  0 < m ->
  0 <= fexp prec emax (Zdigits2 m + e) - e ->
  exists r,
    shr_fexp prec emax m e loc_Exact
    = (r, fexp prec emax (Zdigits2 m + e))
    /\ shr_m r = m / 2 ^ (fexp prec emax (Zdigits2 m + e) - e).
Proof.
  intros Hm Hn. unfold shr_fexp, shr.
  destruct (fexp prec emax (Zdigits2 m + e) - e) as [|n|n] eqn:En; try lia.
  - eexists. split; [f_equal; lia|]. simpl. now rewrite Z.div_1_r.
  - destruct (iter_shr_1_m n (shr_record_of_loc m loc_Exact)) as [E _];
      [simpl; lia|].
    eexists. split; [f_equal; lia|]. exact E.
Qed.

Lemma round_nearest_even_bounds (m : Z) (l : location) :
  m <= round_nearest_even m l <= m + 1.
Proof.
  destruct l as [|[| |]]; simpl; try lia. destruct (Z.even m); lia.
Qed.

Lemma log2_div_pow2 (a n : Z) :
  0 < a -> 0 <= n -> n <= Z.log2 a -> Z.log2 (a / 2 ^ n) = Z.log2 a - n.
Proof.
  intros Ha Hn Hl. rewrite <- Z.shiftr_div_pow2 by lia.
  rewrite Z.log2_shiftr by lia. lia.
Qed.

Lemma pow2_log2_le (a : Z) : 0 < a -> 2 ^ Z.log2 a <= a < 2 ^ (Z.log2 a + 1).
Proof. intros Ha. rewrite Z.add_1_r. now apply Z.log2_spec. Qed.

(** Rounding a positive value never goes below the value cut at the
    exponent it is rounded to. *)
Lemma binary_round_aux_lower (mz : positive) (ez : Z) :
  -1074 <= ez ->
  ez <= fexp prec emax (Zdigits2 (Zpos mz) + ez) ->
  binary_round_aux prec emax false (Zpos mz) ez loc_Exact = S754_infinity false
  \/ exists m2 e2,
       binary_round_aux prec emax false (Zpos mz) ez loc_Exact
       = S754_finite false m2 e2
       /\ fexp prec emax (Zdigits2 (Zpos mz) + ez) <= e2
       /\ (e2 = fexp prec emax (Zdigits2 (Zpos mz) + ez) ->
           Zpos mz / 2 ^ (e2 - ez) <= Zpos m2).
Proof.
  intros Hmin HT.
  set (T := fexp prec emax (Zdigits2 (Zpos mz) + ez)) in *.
  assert (HTdef : T = Z.max (Z.log2 (Zpos mz) + 1 + ez - 53) (-1074)).
  { unfold T. rewrite fexp64, Zdigits2_log2 by lia. reflexivity. }
  destruct (pow2_log2_le (Zpos mz)) as [Hlo Hhi]; [lia|].
  assert (HL : 0 <= Z.log2 (Zpos mz)) by apply Z.log2_nonneg.
  unfold binary_round_aux.
  destruct (shr_fexp_exact (Zpos mz) ez) as (r1 & E1 & M1); [lia|fold T; lia|].
  fold T in E1, M1. rewrite E1.
  set (m1 := shr_m r1) in *.
  assert (Hn1 : 0 <= T - ez <= Z.log2 (Zpos mz)) by lia.
  assert (Hm1 : 0 < m1).
  { rewrite M1. apply Z.div_str_pos. split; [apply Z.pow_pos_nonneg; lia|].
    eapply Z.le_trans; [|exact Hlo]. apply Z.pow_le_mono_r; lia. }
  assert (Hl1 : Z.log2 m1 = Z.log2 (Zpos mz) - (T - ez)).
  { rewrite M1. apply log2_div_pow2; lia. }
  pose proof (round_nearest_even_bounds m1 (loc_of_shr_record r1)) as Hr.
  set (m1' := round_nearest_even m1 (loc_of_shr_record r1)) in *.
  assert (Hl1' : Z.log2 m1 <= Z.log2 m1') by (apply Z.log2_le_mono; lia).
  assert (Hupper : m1' <= 2 ^ 53).
  { destruct (pow2_log2_le m1 Hm1) as [_ Hh].
    assert (2 ^ (Z.log2 m1 + 1) <= 2 ^ 53) by (apply Z.pow_le_mono_r; lia).
    lia. }
  assert (Hl1'' : Z.log2 m1' <= 53).
  { replace 53 with (Z.log2 (2 ^ 53)) by reflexivity.
    apply Z.log2_le_mono. exact Hupper. }
  destruct (shr_fexp_exact m1' T) as (r2 & E2 & M2); [lia| |].
  { rewrite fexp64, Zdigits2_log2 by lia. lia. }
  rewrite E2.
  set (T2 := fexp prec emax (Zdigits2 m1' + T)) in *.
  assert (HT2 : T2 = Z.max (Z.log2 m1' + 1 + T - 53) (-1074)).
  { unfold T2. rewrite fexp64, Zdigits2_log2 by lia. reflexivity. }
  assert (Hn2 : T2 - T = 0 \/ (T2 - T = 1 /\ Z.log2 m1' = 53)) by lia.
  assert (Hm2 : 0 < shr_m r2).
  { rewrite M2. destruct Hn2 as [->|[-> H53]].
    - rewrite Z.pow_0_r, Z.div_1_r. lia.
    - destruct (pow2_log2_le m1') as [Hlo' _]; [lia|]. rewrite H53 in Hlo'.
      apply Z.div_str_pos. change (2 ^ 1) with 2. lia. }
  destruct (shr_m r2) as [|m2|m2] eqn:Em2; try lia.
  destruct (T2 <=? emax - prec); [right|now left].
  exists m2, T2. split; [reflexivity|]. split; [lia|].
  intros HT2T. rewrite M2, HT2T.
  replace (T - T) with 0 by lia. rewrite Z.pow_0_r, Z.div_1_r, <- M1. lia.
Qed.

Lemma binary_round_lower (m mx : positive) (e ex : Z) :
  -1074 <= e -> e <= ex ->
  fexp prec emax (Zpos (digits2_pos mx) + ex) = ex ->
  Zpos mx * 2 ^ (ex - e) <= Zpos m ->
  binary_round prec emax false m e = S754_infinity false
  \/ exists m2 e2,
       binary_round prec emax false m e = S754_finite false m2 e2
       /\ (ex < e2 \/ (e2 = ex /\ Zpos mx <= Zpos m2)).
Proof.
  intros Hmin Hle Hcan Hval.
  assert (HT : ex <= fexp prec emax (Zpos (digits2_pos m) + e)).
  { rewrite <- Hcan at 1. rewrite !fexp64, !digits2_log2.
    assert (Z.log2 (Zpos mx) + (ex - e) <= Z.log2 (Zpos m)).
    { rewrite Z.add_comm, <- Z.log2_mul_pow2 by lia.
      now apply Z.log2_le_mono. }
    lia. }
  unfold binary_round, shl_align.
  destruct (fexp prec emax (Zpos (digits2_pos m) + e) - e) as [|d|d] eqn:Ed;
    try lia;
    (destruct (binary_round_aux_lower m e Hmin) as [Hinf|(m2 & e2 & E & H1 & H2)];
     [simpl Zdigits2; lia|now left|]; right; exists m2, e2; split; [exact E|];
     simpl Zdigits2 in *;
     destruct (Z.eq_dec e2 ex) as [->|Hne]; [right|left; lia];
     split; [reflexivity|];
     eapply Z.le_trans; [|apply H2; lia];
     apply Z.div_le_lower_bound; [apply Z.pow_pos_nonneg; lia|lia]).
Qed.

Lemma valid_canonical (s : bool) (m : positive) (e : Z) :
  valid_binary (S754_finite s m e) = true ->
  fexp prec emax (Zpos (digits2_pos m) + e) = e /\ -1074 <= e.
Proof.
  simpl. unfold bounded, canonical_mantissa. intros H.
  apply andb_true_iff in H. destruct H as [H _]. apply Z.eqb_eq in H.
  split; [exact H|]. rewrite fexp64 in H. lia.
Qed.

Lemma shl_align_fst (m : positive) (e e' : Z) :
  e' <= e -> Zpos (fst (shl_align m e e')) = Zpos m * 2 ^ (e - e').
Proof.
  intros Hle. unfold shl_align.
  destruct (e' - e) as [|d|d] eqn:Ed; simpl fst; try lia.
  - replace (e - e') with 0 by lia. lia.
  - rewrite iter_xO. f_equal. f_equal. lia.
Qed.

Lemma SFadd_nonneg_positive (X A : spec_float) :
  valid_binary X = true -> valid_binary A = true ->
  SFnonneg X -> SFpositive A ->
  SFpositive (SF64add X A) /\ SFltb (SF64add X A) X = false.
Proof.
  intros VX VA HX HA.
  destruct X as [sx|[|]| |[|] mx ex]; try contradiction;
    destruct A as [sa|[|]| |[|] my ey]; try contradiction;
    try (simpl; auto; fail).
  (* finite + finite *)
  - destruct (valid_canonical _ _ _ VX) as [CX MX].
    destruct (valid_canonical _ _ _ VA) as [CA MA].
    unfold SF64add, SFadd. cbn [cond_Zopp].
    pose proof (shl_align_fst mx ex (Z.min ex ey) (Z.le_min_l _ _)) as Ex.
    pose proof (shl_align_fst my ey (Z.min ex ey) (Z.le_min_r _ _)) as Ey.
    set (px := fst (shl_align mx ex (Z.min ex ey))) in *.
    set (py := fst (shl_align my ey (Z.min ex ey))) in *.
    change (Zpos px + Zpos py) with (Zpos (px + py)).
    cbn [binary_normalize].
    destruct (binary_round_lower (px + py) mx (Z.min ex ey) ex)
      as [->|(m2 & e2 & -> & Hlex)]; try lia.
    + split; [exact I|reflexivity].
    + split; [exact I|]. unfold SFltb, SFcompare.
      destruct Hlex as [Hlt|[-> Hm]].
      * destruct (Z.compare_spec e2 ex); try lia; reflexivity.
      * rewrite Z.compare_refl.
        destruct (Pos.compare_cont Eq m2 mx) eqn:C; try reflexivity.
        change (Pos.compare m2 mx = Lt) in C.
        pose proof (proj1 (Pos.compare_lt_iff m2 mx) C). lia.
Qed.

Lemma nonNegative_float (x : float) :
  nonNegative x <-> SFnonneg (Prim2SF x).
Proof.
  unfold nonNegative. simpl. rewrite eqb_spec, ltb_spec.
  change (Prim2SF 0) with (S754_zero false).
  unfold SFeqb, SFltb.
  destruct (Prim2SF x) as [s|[|]| |[|] m e]; simpl;
    rewrite ?Z.compare_refl, ?Pos.compare_cont_refl;
    try (split; [intros [? ?]; try discriminate; exact I|intros ?; try contradiction; auto]).
Qed.

Lemma positive_float (a : float) :
  greater a zero = true <-> SFpositive (Prim2SF a).
Proof.
  simpl. rewrite ltb_spec. change (Prim2SF 0) with (S754_zero false).
  unfold SFltb.
  destruct (Prim2SF a) as [s|[|]| |[|] m e]; simpl;
    split; try discriminate; try contradiction; auto.
Qed.

Lemma SFltb_finite (m1 m2 : positive) (e1 e2 : Z) :
  SFltb (S754_finite false m1 e1) (S754_finite false m2 e2) = true
  <-> e1 < e2 \/ (e1 = e2 /\ (m1 < m2)%positive).
Proof.
  unfold SFltb. simpl.
  change (Pos.compare_cont Eq m1 m2) with (Pos.compare m1 m2).
  destruct (Z.compare_spec e1 e2); [destruct (Pos.compare_spec m1 m2)| |];
    split; intros; try discriminate; try reflexivity; lia.
Qed.

Lemma SFeqb_finite (m1 m2 : positive) (e1 e2 : Z) :
  SFeqb (S754_finite false m1 e1) (S754_finite false m2 e2) = true
  <-> e1 = e2 /\ m1 = m2.
Proof.
  unfold SFeqb. simpl.
  change (Pos.compare_cont Eq m1 m2) with (Pos.compare m1 m2).
  destruct (Z.compare_spec e1 e2); [destruct (Pos.compare_spec m1 m2)| |];
    split; intros; try discriminate; try reflexivity; try lia.
  all: try (split; congruence).
Qed.

Ltac sf_destruct X := destruct X as [?|[|]| |[|] ? ?].

Ltac sf_finite :=
  repeat match goal with
         | H : SFltb (S754_finite false _ _) (S754_finite false _ _) = true |- _ =>
             apply SFltb_finite in H
         | H : SFeqb (S754_finite false _ _) (S754_finite false _ _) = true |- _ =>
             apply SFeqb_finite in H
         | |- SFltb (S754_finite false _ _) (S754_finite false _ _) = true =>
             apply SFltb_finite
         | |- SFeqb (S754_finite false _ _) (S754_finite false _ _) = true =>
             apply SFeqb_finite
         end.

Lemma SFltb_irrefl (X : spec_float) : SFltb X X = false.
Proof.
  unfold SFltb.
  sf_destruct X; simpl; rewrite ?Z.compare_refl, ?Pos.compare_cont_refl;
    reflexivity.
Qed.

Lemma SFltb_trans (X Y W : spec_float) :
  SFnonneg X -> SFnonneg Y -> SFnonneg W ->
  SFltb X Y = true -> SFltb Y W = true -> SFltb X W = true.
Proof.
  sf_destruct X; sf_destruct Y; sf_destruct W; simpl;
    try contradiction; intros _ _ _ H1 H2;
    try discriminate; try reflexivity.
  sf_finite. lia.
Qed.

Lemma SFltb_total (X Y : spec_float) :
  SFnonneg X -> SFnonneg Y ->
  SFltb Y X = true \/ SFeqb X Y = true \/ SFltb X Y = true.
Proof.
  sf_destruct X; sf_destruct Y; simpl; try contradiction; intros _ _;
    try (left; reflexivity); try (right; left; reflexivity);
    try (right; right; reflexivity).
  rewrite !SFltb_finite, SFeqb_finite.
  lia.
Qed.

Lemma SFeqb_ltb (X Y W : spec_float) :
  SFnonneg X -> SFnonneg Y -> SFnonneg W ->
  SFeqb X Y = true ->
  SFltb W X = SFltb W Y /\ SFltb X W = SFltb Y W.
Proof.
  sf_destruct X; sf_destruct Y; sf_destruct W; simpl;
    try contradiction; intros _ _ _ H;
    try discriminate; try (split; reflexivity).
  all: sf_finite; destruct H as [-> ->]; split; reflexivity.
Qed.

Lemma SFeqb_positive (X Y : spec_float) :
  SFeqb X Y = true -> SFpositive X -> X = Y.
Proof.
  sf_destruct X; sf_destruct Y; simpl; try contradiction; intros H _;
    try discriminate; try reflexivity.
  sf_finite. destruct H as [-> ->]. reflexivity.
Qed.

(** binary64 is ordered in the sense of [OrderedNumber]. *)
#[export] Instance OrderedNumber_float : OrderedNumber float.
Proof.
  split.
  - apply nonNegative_float. exact I.
  - intros a Ha. apply nonNegative_float. apply positive_float in Ha.
    destruct (Prim2SF a) as [?|[|]| |[|] ? ?]; try contradiction; exact I.
  - intros a. simpl. rewrite ltb_spec. apply SFltb_irrefl.
  - intros a b c Ha Hb Hc. simpl. rewrite !ltb_spec. intros H1 H2.
    apply nonNegative_float in Ha, Hb, Hc.
    exact (SFltb_trans _ _ _ Hc Hb Ha H2 H1).
  - intros a b Ha Hb. simpl. rewrite !ltb_spec, eqb_spec.
    apply nonNegative_float in Ha, Hb. now apply SFltb_total.
  - intros a b c Ha Hb Hc. simpl. rewrite !ltb_spec, eqb_spec.
    apply nonNegative_float in Ha, Hb, Hc. intros E.
    destruct (SFeqb_ltb _ _ _ Ha Hb Hc E). split; assumption.
  - intros a b E Ha. apply Prim2SF_inj.
    simpl in E. rewrite eqb_spec in E. apply positive_float in Ha.
    now apply SFeqb_positive.
  - intros a [Ha _]. simpl in *. rewrite Ha, andb_true_r.
    now intros ->%negb_false_iff.
  - intros a Ha. apply positive_float in Ha. simpl.
    rewrite !eqb_spec. change (Prim2SF 0) with (S754_zero false).
    unfold SFeqb.
    destruct (Prim2SF a) as [?|[|]| |[|] ? ?]; try contradiction; simpl;
      now rewrite ?Z.compare_refl, ?Pos.compare_cont_refl.
  - intros x a Hx Ha. apply nonNegative_float in Hx. apply positive_float in Ha.
    destruct (SFadd_nonneg_positive (Prim2SF x) (Prim2SF a)) as [P L];
      auto using Prim2SF_valid.
    split.
    + apply positive_float. simpl. now rewrite add_spec.
    + simpl. now rewrite ltb_spec, add_spec.
Qed.

(** * Properties of the monthly summary *)

Lemma CATEGORY_NAMES_ARRAY_complete (c : ExpenseCategory) :
  In c CATEGORY_NAMES_ARRAY.
Proof. destruct c; simpl; tauto. Qed.

Lemma CATEGORY_NAMES_ARRAY_NoDup : NoDup CATEGORY_NAMES_ARRAY.
Proof.
  unfold CATEGORY_NAMES_ARRAY.
  repeat (constructor; [simpl; intuition discriminate|]).
  constructor.
Qed.

Lemma category_eqb_eq (a b : ExpenseCategory) :
  category_eqb a b = true <-> a = b.
Proof.
  unfold category_eqb. destruct (category_eq_dec a b); split; congruence.
Qed.

Lemma category_eqb_refl (a : ExpenseCategory) : category_eqb a a = true.
Proof. now apply category_eqb_eq. Qed.

Lemma category_eqb_neq (a b : ExpenseCategory) :
  a <> b -> category_eqb a b = false.
Proof.
  unfold category_eqb. destruct (category_eq_dec a b); congruence.
Qed.

Lemma filter_nil_iff {A} (f : A -> bool) (l : list A) :
  filter f l = [] <-> forall x, In x l -> f x = false.
Proof.
  induction l as [|a l IH]; simpl.
  - tauto.
  - destruct (f a) eqn:Fa; split.
    + discriminate.
    + intros Hx. specialize (Hx a (or_introl eq_refl)). congruence.
    + intros E x [<-|Hx]; [exact Fa|]. now apply IH.
    + intros Hx. apply IH. auto.
Qed.

Section ScanFacts.
Context {N : Type} `{Number N}.

Lemma setTotal_same (f : ExpenseCategory -> N) (c : ExpenseCategory) (v : N) :
  setTotal f c v c = v.
Proof. unfold setTotal. now rewrite category_eqb_refl. Qed.

Lemma setTotal_other (f : ExpenseCategory -> N) (c c' : ExpenseCategory)
  (v : N) : c' <> c -> setTotal f c v c' = f c'.
Proof. intros D. unfold setTotal. now rewrite category_eqb_neq. Qed.

Lemma scanExpenses_app (l : list (Expense N)) (e : Expense N) :
  scanExpenses (l ++ [e]) = scanStep (scanExpenses l) e.
Proof. unfold scanExpenses. now rewrite fold_left_app. Qed.

Lemma scanStep_highest (acc : Scan) (e : Expense N) :
  scanHighest (scanStep acc e)
  = match scanHighest acc with
    | None =>
        Some (mkHighest (category e)
                (scanSummary (scanStep acc e) (category e)))
    | Some h =>
        if greater (scanSummary (scanStep acc e) (category e)) (highAmount h)
        then Some (mkHighest (category e)
                     (scanSummary (scanStep acc e) (category e)))
        else Some h
    end.
Proof. unfold scanStep. simpl. now rewrite setTotal_same. Qed.

(** [highestSpending] changes only when the category's new running total
    is strictly greater than the amount it holds. *)
Lemma scanStep_highest_kept (acc : Scan) (e : Expense N) (h : Highest N) :
  scanHighest acc = Some h ->
  greater (scanSummary (scanStep acc e) (category e)) (highAmount h) = false ->
  scanHighest (scanStep acc e) = Some h.
Proof.
  intros Hh Hg. unfold scanStep in *. simpl in *.
  rewrite setTotal_same in Hg. now rewrite Hh, Hg.
Qed.

Lemma scanStep_highest_changed (acc : Scan) (e : Expense N) (h : Highest N) :
  scanHighest acc = Some h ->
  scanHighest (scanStep acc e) <> Some h ->
  greater (scanSummary (scanStep acc e) (category e)) (highAmount h) = true
  /\ scanHighest (scanStep acc e)
     = Some (mkHighest (category e)
               (scanSummary (scanStep acc e) (category e))).
Proof.
  intros Hh Hne. unfold scanStep in *. simpl in *.
  rewrite setTotal_same. rewrite Hh in *.
  destruct (greater _ (highAmount h)); [auto|congruence].
Qed.

End ScanFacts.

(** ** With exact arithmetic *)

Section ExactFacts.
Context {N : Type} {num : Number N} {exact : ExactNumber N}.
Set Default Proof Using "Type + exact".


Lemma orElse_zero (x : N) : orElse x zero = x.
Proof.
  unfold orElse. destruct (truthy x) eqn:T; [reflexivity|].
  symmetry. now apply falsy_zero.
Qed.

Lemma strictEq_refl (a : N) : strictEq a a = true.
Proof. now apply strictEq_spec. Qed.





(** A category's running total is the sum of its expenses' amounts. *)
Lemma scan_category_total (l : list (Expense N)) (acc : Scan)
  (c : ExpenseCategory) :
  scanSummary (fold_left scanStep l acc) c
  = fold_left add
      (map amount (filter (fun exp => category_eqb (category exp) c) l))
      (scanSummary acc c).
Proof.
  revert acc. induction l as [|e l IH]; intros acc; simpl; [reflexivity|].
  rewrite IH. unfold scanStep at 1. simpl. rewrite orElse_zero.
  destruct (category_eq_dec (category e) c) as [E|D].
  - rewrite E, category_eqb_refl, setTotal_same. reflexivity.
  - rewrite (category_eqb_neq _ _ D), setTotal_other by congruence. reflexivity.
Qed.

End ExactFacts.
Set Default Proof Using "Type".

(** Whole minor units are exact and ordered. *)
#[export] Instance ExactNumber_Z : ExactNumber Z.
Proof.
  split; simpl; intros.
  - lia.
  - lia.
  - lia.
  - apply Z.eqb_eq.
  - apply negb_false_iff, Z.eqb_eq in H. exact H.
Qed.

#[export] Instance OrderedNumber_Z : OrderedNumber Z.
Proof.
  split; unfold nonNegative; simpl; intros;
    rewrite ?Z.gtb_ltb, ?Z.ltb_lt, ?Z.ltb_ge, ?Z.eqb_eq, ?negb_false_iff in *;
    lia.
Qed.

(** binary64 addition is not associative, so it is not exact. *)
Example float_add_not_associative :
  add (add 0.1%float 0.2%float) 0.3%float
  <> add 0.1%float (add 0.2%float 0.3%float).
Proof.
  intros E.
  assert (F : strictEq (add (add 0.1%float 0.2%float) 0.3%float)
                (add 0.1%float (add 0.2%float 0.3%float)) = false)
    by (vm_compute; reflexivity).
  rewrite E in F. vm_compute in F. discriminate.
Qed.

Example scenario_summary :
  match monthlySummaryData (fun m => m) scenarioExpenses "2024-05" with
  | Some s =>
      grandTotal s = 550 /\ categoryTotals s CONTAS_FIXAS = 500
      /\ categoryTotals s ALIMENTACAO = 50
      /\ highestSpending s = Some (mkHighest CONTAS_FIXAS 500)
  | None => False
  end.
Proof. vm_compute. repeat split. Qed.


(** ** With ordered arithmetic *)

Section OrderedFacts.
Context {N : Type} {num : Number N} {ord : OrderedNumber N}.
Set Default Proof Using "Type + ord".

Lemma strictEq_zero_zero : strictEq zero zero = true.
Proof. apply zero_nonNegative. Qed.

Lemma greater_asym (a b : N) :
  nonNegative a -> nonNegative b ->
  greater a b = true -> greater b a = false.
Proof.
  intros Na Nb G. destruct (greater b a) eqn:G'; [|reflexivity].
  rewrite <- (greater_irrefl a). symmetry.
  exact (greater_trans a b a Na Nb Na G G').
Qed.

Lemma notGreater_trans (a b c : N) :
  nonNegative a -> nonNegative b -> nonNegative c ->
  greater a b = false -> greater b c = false -> greater a c = false.
Proof.
  intros Na Nb Nc G1 G2. destruct (greater a c) eqn:G; [|reflexivity].
  destruct (greater_total a b Na Nb) as [T|[T|T]].
  - congruence.
  - destruct (strictEq_greater a b c Na Nb Nc T) as [E _]. congruence.
  - rewrite (greater_trans b a c Nb Na Nc T G) in G2. discriminate.
Qed.

Lemma notGreater_greater (a b c : N) :
  nonNegative a -> nonNegative b -> nonNegative c ->
  greater a b = false -> greater c b = true -> greater c a = true.
Proof.
  intros Na Nb Nc G1 G2. destruct (greater_total c a Nc Na) as [T|[T|T]].
  - exact T.
  - destruct (strictEq_greater c a b Nc Na Nb T) as [E _]. congruence.
  - rewrite (greater_trans a c b Na Nc Nb T G2) in G1. discriminate.
Qed.

Lemma greater_not_strictEq (a b : N) :
  nonNegative a -> nonNegative b ->
  greater a b = true -> strictEq a b = false.
Proof.
  intros Na Nb G. destruct (strictEq a b) eqn:E; [|reflexivity].
  destruct (strictEq_greater a b b Na Nb Nb E) as [E' _].
  rewrite G, greater_irrefl in E'. discriminate.
Qed.

Lemma positive_not_zero (a : N) : greater a zero = true -> a <> zero.
Proof. intros G ->. rewrite greater_irrefl in G. discriminate. Qed.

(** [x || 0] keeps a non-negative [x] in its place in the order. *)
Lemma orElse_nonNegative (x : N) :
  nonNegative x ->
  nonNegative (orElse x zero)
  /\ forall y, nonNegative y -> greater x y = greater (orElse x zero) y.
Proof.
  intros Nx. unfold orElse. destruct (truthy x) eqn:T.
  - split; [exact Nx|reflexivity].
  - split; [apply zero_nonNegative|]. intros y Ny.
    apply (strictEq_greater x zero y Nx zero_nonNegative Ny).
    now apply falsy_nonNegative.
Qed.

Lemma Forall_expensesOfMonth (Q : Expense N -> Prop)
  (expenses : list (Expense N)) (selectedMonth : string) :
  Forall Q expenses -> Forall Q (expensesOfMonth expenses selectedMonth).
Proof.
  rewrite !Forall_forall. intros HQ x Hx.
  apply filter_In in Hx. now apply HQ.
Qed.

Lemma nonNegativeTotals_init : nonNegativeTotals scanInit.
Proof. split; [intros c|]; apply zero_nonNegative. Qed.

(** What a step does to the total of the expense's category. *)
Lemma scanStep_new_total (acc : Scan) (e : Expense N) :
  nonNegativeTotals acc -> positiveAmount e ->
  greater (scanSummary (scanStep acc e) (category e)) zero = true
  /\ greater (scanSummary acc (category e))
       (scanSummary (scanStep acc e) (category e)) = false.
Proof.
  intros [Nacc _] Pe. unfold scanStep. simpl. rewrite setTotal_same.
  destruct (orElse_nonNegative _ (Nacc (category e))) as [No Ho].
  destruct (add_positive _ _ No Pe) as [G L].
  split; [exact G|]. rewrite Ho; [exact L|].
  now apply positive_nonNegative.
Qed.

Lemma scanStep_nonNegativeTotals (acc : Scan) (e : Expense N) :
  nonNegativeTotals acc -> positiveAmount e ->
  nonNegativeTotals (scanStep acc e).
Proof.
  intros Nacc Pe. destruct (scanStep_new_total acc e Nacc Pe) as [G _].
  destruct Nacc as [Ns Ng]. split.
  - intros c. destruct (category_eq_dec c (category e)) as [->|D].
    + now apply positive_nonNegative.
    + unfold scanStep. simpl. rewrite setTotal_other by exact D. apply Ns.
  - unfold scanStep. simpl. apply positive_nonNegative.
    now apply add_positive.
Qed.

Lemma scan_nonNegativeTotals (l : list (Expense N)) (acc : Scan) :
  Forall positiveAmount l -> nonNegativeTotals acc ->
  nonNegativeTotals (fold_left scanStep l acc).
Proof.
  intros Pl. revert acc. induction Pl as [|e l Pe Pl IH]; intros acc Nacc.
  - exact Nacc.
  - simpl. apply IH. now apply scanStep_nonNegativeTotals.
Qed.

Lemma scanExpenses_nonNegativeTotals (l : list (Expense N)) :
  Forall positiveAmount l -> nonNegativeTotals (scanExpenses l).
Proof.
  intros Pl. apply scan_nonNegativeTotals; [exact Pl|].
  apply nonNegativeTotals_init.
Qed.

(** A step never lowers a running total when the amount is positive. *)
Lemma scanStep_total_grows (acc : Scan) (e : Expense N) (c : ExpenseCategory) :
  nonNegativeTotals acc -> positiveAmount e ->
  greater (scanSummary acc c) (scanSummary (scanStep acc e) c) = false.
Proof.
  intros Nacc Pe. destruct (category_eq_dec c (category e)) as [->|D].
  - now apply scanStep_new_total.
  - unfold scanStep. simpl. rewrite setTotal_other by exact D.
    apply greater_irrefl.
Qed.

Lemma scan_total_grows (l : list (Expense N)) (acc : Scan)
  (c : ExpenseCategory) :
  Forall positiveAmount l -> nonNegativeTotals acc ->
  greater (scanSummary acc c) (scanSummary (fold_left scanStep l acc) c)
  = false.
Proof.
  intros Pl. revert acc. induction Pl as [|e l Pe Pl IH]; intros acc Nacc;
    simpl.
  - apply greater_irrefl.
  - pose proof (scanStep_nonNegativeTotals acc e Nacc Pe) as N1.
    pose proof (scan_nonNegativeTotals l _ Pl N1) as N2.
    apply (notGreater_trans _ (scanSummary (scanStep acc e) c)).
    + apply Nacc.
    + apply N1.
    + apply N2.
    + now apply scanStep_total_grows.
    + now apply IH.
Qed.

(** Between a prefix and the whole list no running total goes down. *)
Lemma scanExpenses_prefix_grows (p q : list (Expense N)) (c : ExpenseCategory) :
  Forall positiveAmount p -> Forall positiveAmount q ->
  greater (scanSummary (scanExpenses p) c)
    (scanSummary (scanExpenses (p ++ q)) c) = false.
Proof.
  intros Pp Pq. unfold scanExpenses. rewrite fold_left_app.
  apply scan_total_grows; [exact Pq|].
  now apply scanExpenses_nonNegativeTotals.
Qed.

(** With positive amounts the grand total of a non-empty scan is positive. *)
Lemma scan_grandTotal_positive (l : list (Expense N)) (acc : Scan) :
  Forall positiveAmount l -> l <> [] -> nonNegativeTotals acc ->
  greater (scanGrandTotal (fold_left scanStep l acc)) zero = true.
Proof.
  intros Pl. revert acc. induction Pl as [|e l Pe Pl IH]; intros acc Hne Nacc.
  - congruence.
  - simpl.
    pose proof (scanStep_nonNegativeTotals acc e Nacc Pe) as N1.
    destruct l as [|e' l].
    + simpl. unfold scanStep. simpl.
      now apply add_positive; [apply Nacc|].
    + apply IH; [discriminate|exact N1].
Qed.

Lemma monthlySummaryData_none_of_empty (formatMonthYear : string -> string)
  (expenses : list (Expense N)) (selectedMonth : string) :
  expensesOfMonth expenses selectedMonth = [] ->
  monthlySummaryData formatMonthYear expenses selectedMonth = None.
Proof.
  intros E. unfold monthlySummaryData. rewrite E. simpl.
  now rewrite !strictEq_zero_zero.
Qed.

Lemma monthlySummaryData_some_of_nonempty (formatMonthYear : string -> string)
  (expenses : list (Expense N)) (selectedMonth : string) :
  Forall positiveAmount expenses ->
  expensesOfMonth expenses selectedMonth <> [] ->
  exists s, monthlySummaryData formatMonthYear expenses selectedMonth = Some s.
Proof.
  intros Pl Hne. unfold monthlySummaryData.
  assert (G : greater (scanGrandTotal
                (scanExpenses (expensesOfMonth expenses selectedMonth)))
                zero = true).
  { apply scan_grandTotal_positive; auto using nonNegativeTotals_init.
    now apply Forall_expensesOfMonth. }
  rewrite (greater_not_strictEq _ _ (positive_nonNegative _ G)
             zero_nonNegative G).
  simpl. eauto.
Qed.

Lemma orElse_zeroOrPositive (x : N) :
  x = zero \/ greater x zero = true -> orElse x zero = x.
Proof.
  unfold orElse. intros [->|G]; [now destruct (truthy zero)|].
  now rewrite positive_truthy.
Qed.

(** With positive amounts a category's running total is the sum of its
    expenses' amounts, in the arithmetic of the program. *)
Lemma scan_category_total_positive (l : list (Expense N)) (acc : Scan)
  (c : ExpenseCategory) :
  Forall positiveAmount l -> nonNegativeTotals acc -> zeroOrPositive acc ->
  zeroOrPositive (fold_left scanStep l acc)
  /\ scanSummary (fold_left scanStep l acc) c
     = fold_left add
         (map amount (filter (fun exp => category_eqb (category exp) c) l))
         (scanSummary acc c).
Proof.
  intros Pl. revert acc. induction Pl as [|e l Pe Pl IH]; intros acc Nacc Zacc.
  - split; [exact Zacc|reflexivity].
  - simpl.
    assert (Z1 : zeroOrPositive (scanStep acc e)).
    { intros c'. destruct (category_eq_dec c' (category e)) as [->|D].
      - right. now apply scanStep_new_total.
      - unfold scanStep. simpl. rewrite setTotal_other by exact D. apply Zacc. }
    destruct (IH _ (scanStep_nonNegativeTotals acc e Nacc Pe) Z1) as [Zl El].
    split; [exact Zl|]. rewrite El. unfold scanStep at 1. simpl.
    destruct (category_eq_dec (category e) c) as [E|D].
    + rewrite E, category_eqb_refl, setTotal_same.
      now rewrite (orElse_zeroOrPositive _ (Zacc c)).
    + rewrite (category_eqb_neq _ _ D), setTotal_other by congruence.
      reflexivity.
Qed.

End OrderedFacts.
Set Default Proof Using "Type".

Section HighestSpending.
Context {N : Type} {num : Number N} {ord : OrderedNumber N}.
Set Default Proof Using "Type + ord".

Lemma highestInvariant_first (e : Expense N) :
  positiveAmount e -> highestInvariant [e] (scanExpenses [e]).
Proof.
  intros Pe.
  destruct (scanStep_new_total scanInit e nonNegativeTotals_init Pe) as [G _].
  change (scanExpenses [e]) with (scanStep scanInit e).
  set (s := scanSummary (scanStep scanInit e) (category e)) in *.
  exists (mkHighest (category e) s). cbn [highCategory highAmount].
  split; [now rewrite scanStep_highest|].
  split; [reflexivity|]. split; [exact G|]. split.
  - intros c. destruct (category_eq_dec c (category e)) as [->|D].
    + apply greater_irrefl.
    + unfold scanStep. simpl. rewrite setTotal_other by exact D.
      apply greater_asym; auto using zero_nonNegative, positive_nonNegative.
  - exists [], e, []. cbn [highCategory highAmount app].
    split; [reflexivity|]. split; [reflexivity|]. split; [reflexivity|].
    intros p q c Hp. symmetry in Hp. apply app_eq_nil in Hp.
    destruct Hp as [-> _]. exact G.
Qed.

Lemma highestInvariant_step (l : list (Expense N)) (e : Expense N) :
  Forall positiveAmount l -> positiveAmount e ->
  highestInvariant l (scanExpenses l) ->
  highestInvariant (l ++ [e]) (scanExpenses (l ++ [e])).
Proof.
  intros Pl Pe
    (h & Hh & Hamt & Hpos & Hmax & l1 & e1 & l2 & Hl & Hcat & Hreach & Hbefore).
  rewrite scanExpenses_app.
  pose proof (scanExpenses_nonNegativeTotals l Pl) as Nacc.
  set (acc := scanExpenses l) in *.
  destruct (scanStep_new_total acc e Nacc Pe) as [Gs Ls].
  pose proof (scanStep_nonNegativeTotals acc e Nacc Pe) as N1.
  set (s := scanSummary (scanStep acc e) (category e)) in *.
  assert (Ns : nonNegative s) by now apply positive_nonNegative.
  assert (Nh : nonNegative (highAmount h)) by now apply positive_nonNegative.
  assert (Hother : forall c, c <> category e ->
            scanSummary (scanStep acc e) c = scanSummary acc c).
  { intros c D. unfold scanStep. simpl. now rewrite setTotal_other. }
  destruct (greater s (highAmount h)) eqn:G.
  - (* a strictly greater total: [e] takes over *)
    exists (mkHighest (category e) s). cbn [highCategory highAmount].
    split; [|split; [reflexivity|split; [exact Gs|split]]].
    + rewrite scanStep_highest, Hh. fold s. now rewrite G.
    + intros c. destruct (category_eq_dec c (category e)) as [->|D].
      * apply greater_irrefl.
      * rewrite (Hother c D). apply greater_asym; [exact Ns|apply Nacc|].
        apply (notGreater_greater _ (highAmount h)); auto. apply Nacc.
    + exists l, e, []. cbn [highCategory highAmount].
      split; [reflexivity|]. split; [reflexivity|]. split.
      * rewrite scanExpenses_app. reflexivity.
      * intros p q c Hp. rewrite Hp in Pl. apply Forall_app in Pl.
        destruct Pl as [Pp Pq].
        pose proof (scanExpenses_nonNegativeTotals p Pp) as Np.
        apply (notGreater_greater _ (highAmount h)); auto; [apply Np|].
        apply (notGreater_trans _ (scanSummary acc c));
          [apply Np|apply Nacc|exact Nh| |apply Hmax].
        unfold acc. rewrite Hp. now apply scanExpenses_prefix_grows.
  - (* no greater total: [h] stays *)
    exists h. split; [|split; [|split; [exact Hpos|split]]].
    + now apply scanStep_highest_kept.
    + destruct (category_eq_dec (highCategory h) (category e)) as [E|D].
      * (* the total of [h]'s own category did not move *)
        rewrite E. fold s. rewrite Hamt, E in G, Hpos |- *.
        destruct (greater_total s (scanSummary acc (category e)) Ns
                    (proj1 Nacc _)) as [T|[T|T]]; try congruence.
        symmetry. now apply strictEq_positive.
      * now rewrite (Hother _ D).
    + intros c. destruct (category_eq_dec c (category e)) as [->|D'].
      * exact G.
      * rewrite (Hother c D'). apply Hmax.
    + exists l1, e1, (l2 ++ [e]). repeat split; auto.
      rewrite Hl, <- app_assoc. reflexivity.
Qed.

Lemma scan_highest_invariant (l : list (Expense N)) :
  Forall positiveAmount l -> l <> [] ->
  highestInvariant l (scanExpenses l).
Proof.
  induction l as [|e l IH] using rev_ind; intros Pl Hne; [congruence|].
  apply Forall_app in Pl. destruct Pl as [Pl Pe].
  inversion Pe as [|? ? Pe' _]; subst.
  destruct l as [|e0 l].
  - now apply highestInvariant_first.
  - apply highestInvariant_step; auto. apply IH; [exact Pl|discriminate].
Qed.

End HighestSpending.
Set Default Proof Using "Type".

Lemma noExpenseInMonth_iff {N} (expenses : list (Expense N))
  (selectedMonth : string) :
  noExpenseInMonth expenses selectedMonth
  <-> expensesOfMonth expenses selectedMonth = [].
Proof. unfold noExpenseInMonth, expensesOfMonth. now rewrite filter_nil_iff. Qed.

(** C3: with positive amounts (binary64 or exact), no expense of the
    list falls in the selected month exactly when the grand total of the
    scan is zero for [===]; then the summary is absent ([null]); and when
    some expense falls in the month the summary is present. *)
Theorem summary_absent_iff_month_empty
  (N : Type) (num : Number N) (ord : OrderedNumber N)
  (formatMonthYear : string -> string)
  (expenses : list (Expense N)) (selectedMonth : string) :
  Forall positiveAmount expenses ->
  (noExpenseInMonth expenses selectedMonth
   <-> strictEq
         (scanGrandTotal (scanExpenses (expensesOfMonth expenses selectedMonth)))
         zero = true)
  /\ (noExpenseInMonth expenses selectedMonth
      -> monthlySummaryData formatMonthYear expenses selectedMonth = None)
  /\ ((exists exp, In exp expenses
                   /\ startsWith (date exp) selectedMonth = true)
      -> exists s,
           monthlySummaryData formatMonthYear expenses selectedMonth = Some s).
Proof.
  intros Pl. split; [|split].
  - rewrite noExpenseInMonth_iff. split.
    + intros ->. apply zero_nonNegative.
    + intros Z0.
      destruct (expensesOfMonth expenses selectedMonth) as [|e l] eqn:E;
        [reflexivity|].
      assert (G : greater (scanGrandTotal (scanExpenses (e :: l))) zero = true).
      { apply scan_grandTotal_positive.
        - rewrite <- E. now apply Forall_expensesOfMonth.
        - discriminate.
        - apply nonNegativeTotals_init. }
      rewrite (strictEq_positive _ _ Z0 G), greater_irrefl in G. discriminate.
  - intros Hnone. apply monthlySummaryData_none_of_empty.
    now apply noExpenseInMonth_iff.
  - intros (exp & Hin & Hm).
    apply monthlySummaryData_some_of_nonempty; [exact Pl|].
    intros E. apply noExpenseInMonth_iff in E.
    rewrite (E exp Hin) in Hm. discriminate.
Qed.

Lemma summary_absent_iff_month_empty_witness :
  monthlySummaryData (fun m => m) roundingExpenses "2024-06" = None
  /\ exists s,
       monthlySummaryData (fun m => m) roundingExpenses "2024-05" = Some s.
Proof.
  assert (Pl : Forall positiveAmount roundingExpenses)
    by (repeat constructor; vm_compute; reflexivity).
  split.
  - apply (summary_absent_iff_month_empty float Number_float
             OrderedNumber_float (fun m => m) roundingExpenses "2024-06" Pl).
    intros exp [<-|[<-|[<-|[]]]]; reflexivity.
  - apply (summary_absent_iff_month_empty float Number_float
             OrderedNumber_float (fun m => m) roundingExpenses "2024-05" Pl).
    eexists. split; [left; reflexivity|reflexivity].
Defined.

(** C2: with positive amounts (binary64 or exact), a summary that is
    present has a [highestSpending]; its amount is the total of its
    category; that total is the maximum of the final totals; its category
    is the one whose running total first reached that value in the forward
    scan (so it wins a tie of final totals); and during the scan
    [highestSpending] changes only at an expense that makes its category's
    running total strictly greater than the amount held. *)
Theorem highestSpending_first_maximum
  (N : Type) (num : Number N) (ord : OrderedNumber N)
  (formatMonthYear : string -> string)
  (expenses : list (Expense N)) (selectedMonth : string)
  (s : MonthlySummaryData N) :
  Forall positiveAmount expenses ->
  monthlySummaryData formatMonthYear expenses selectedMonth = Some s ->
  exists h,
    highestSpending s = Some h
    /\ highAmount h = categoryTotals s (highCategory h)
    /\ (forall c,
          greater (categoryTotals s c) (categoryTotals s (highCategory h))
          = false)
    /\ firstToReach (expensesOfMonth expenses selectedMonth) h
    /\ (forall p e q h0,
          expensesOfMonth expenses selectedMonth = p ++ e :: q ->
          scanHighest (scanExpenses p) = Some h0 ->
          scanHighest (scanExpenses (p ++ [e])) <> Some h0 ->
          greater (scanSummary (scanExpenses (p ++ [e])) (category e))
            (highAmount h0) = true
          /\ scanHighest (scanExpenses (p ++ [e]))
             = Some (mkHighest (category e)
                       (scanSummary (scanExpenses (p ++ [e])) (category e)))).
Proof.
  intros Pl Hs.
  assert (Hne : expensesOfMonth expenses selectedMonth <> []).
  { intros E.
    rewrite (monthlySummaryData_none_of_empty formatMonthYear _ _ E) in Hs.
    discriminate. }
  unfold monthlySummaryData in Hs.
  destruct (_ && _) in Hs; [discriminate|].
  injection Hs as <-. cbn [highestSpending categoryTotals].
  destruct (scan_highest_invariant _
              (Forall_expensesOfMonth _ _ selectedMonth Pl) Hne)
    as (h & Hh & Hamt & _ & Hmax & Hfirst).
  exists h. split; [exact Hh|]. split; [exact Hamt|]. split; [|split].
  - intros c. rewrite <- Hamt. apply Hmax.
  - exact Hfirst.
  - intros p e q h0 _ Hp Hch. rewrite scanExpenses_app in *.
    now apply scanStep_highest_changed.
Qed.

Lemma highestSpending_first_maximum_witness :
  exists s,
    monthlySummaryData (fun m => m) tiedExpenses "2024-05" = Some s
    /\ categoryTotals s ALIMENTACAO = categoryTotals s TRANSPORTE
    /\ exists h,
         highestSpending s = Some h
         /\ highAmount h = categoryTotals s (highCategory h)
         /\ firstToReach (expensesOfMonth tiedExpenses "2024-05") h.
Proof.
  eexists. split; [reflexivity|]. split; [vm_compute; reflexivity|].
  destruct (highestSpending_first_maximum float Number_float
              OrderedNumber_float (fun m => m) tiedExpenses "2024-05" _
              ltac:(repeat constructor; vm_compute; reflexivity) eq_refl)
    as (h & A & B & _ & C & _).
  exists h. auto.
Defined.

Example tie_goes_to_first_to_reach :
  option_map highestSpending
    (monthlySummaryData (fun m => m) tiedExpenses "2024-05")
  = Some (Some (mkHighest TRANSPORTE 0.5%float)).
Proof. vm_compute. reflexivity. Qed.

(** * Properties of the store *)

Lemma StronglySorted_weaken {A} (R R' : A -> A -> Prop) (P : A -> Prop)
  (l : list A) :
  (forall a b, P a -> P b -> R a b -> R' a b) ->
  Forall P l -> StronglySorted R l -> StronglySorted R' l.
Proof.
  intros HR Pl Sl. induction Sl as [|a l Sl IH Ha]; [constructor|].
  inversion Pl as [|? ? Pa Pl']; subst. constructor; [auto|].
  rewrite Forall_forall in *. intros b Hb. apply HR; auto.
Qed.

Lemma Forall_sortBy {A} (cmp : A -> A -> comparison) (P : A -> Prop)
  (l : list A) : Forall P l -> Forall P (sortBy cmp l).
Proof.
  rewrite !Forall_forall. intros Pl x Hx. apply Pl. now apply sortBy_In in Hx.
Qed.

Section StoreFacts.
Context {N : Type}.
Variable Date_getTime : string -> option Z.

Lemma validDate_hasTime (exp : Expense N) :
  validDate Date_getTime (date exp) = true -> hasTime Date_getTime exp.
Proof.
  unfold validDate, hasTime. intros V. apply andb_true_iff in V.
  destruct V as [_ V]. destruct (Date_getTime (date exp)); [eauto|discriminate].
Qed.

Lemma byDate_antisym (a b : Expense N) :
  hasTime Date_getTime a -> hasTime Date_getTime b ->
  byDate Date_getTime b a = CompOpp (byDate Date_getTime a b).
Proof.
  intros [x Hx] [y Hy]. unfold byDate. rewrite Hx, Hy. simpl.
  apply Z.compare_antisym.
Qed.

Lemma byDate_trans (a b c : Expense N) :
  hasTime Date_getTime a -> hasTime Date_getTime b ->
  hasTime Date_getTime c ->
  notAfter (byDate Date_getTime) a b -> notAfter (byDate Date_getTime) b c ->
  notAfter (byDate Date_getTime) a c.
Proof.
  intros [x Hx] [y Hy] [z Hz]. unfold notAfter, byDate.
  rewrite Hx, Hy, Hz. simpl. rewrite !Z.compare_gt_iff. lia.
Qed.

Lemma notAfter_notLater (a b : Expense N) :
  hasTime Date_getTime a -> hasTime Date_getTime b ->
  notAfter (byDate Date_getTime) a b -> notLater Date_getTime a b.
Proof.
  intros [x Hx] [y Hy]. unfold notAfter, notLater, byDate.
  rewrite Hx, Hy. simpl. rewrite Z.compare_gt_iff. lia.
Qed.

(** Sorting records whose dates have time values puts them in ascending
    order of date. *)
Lemma sortBy_byDate_ascending (l : list (Expense N)) :
  Forall (hasTime Date_getTime) l ->
  dateAscending Date_getTime (sortBy (byDate Date_getTime) l).
Proof.
  intros Pl. split; [now apply Forall_sortBy|].
  apply (StronglySorted_weaken (notAfter (byDate Date_getTime))
           (notLater Date_getTime) (hasTime Date_getTime)).
  - apply notAfter_notLater.
  - now apply Forall_sortBy.
  - apply (sortBy_sorted (byDate Date_getTime) (hasTime Date_getTime)); auto.
    + intros a b Pa Pb. now apply byDate_antisym.
    + apply byDate_trans.
Qed.

(** The sort keeps the relative order of the records of one date. *)
Lemma sortBy_byDate_stable (t : Z) (l : list (Expense N)) :
  filter (dateIs Date_getTime t) (sortBy (byDate Date_getTime) l)
  = filter (dateIs Date_getTime t) l.
Proof.
  apply sortBy_filter. intros a b. unfold dateIs, byDate.
  destruct (Date_getTime (date a)) as [x|]; [|discriminate].
  destruct (Date_getTime (date b)) as [y|]; [|discriminate].
  rewrite !Z.eqb_eq. intros -> ->. apply Z.compare_refl.
Qed.

End StoreFacts.

(** ** The months of the selector *)

Lemma setHas_In (s : list string) (x : string) : setHas s x = true <-> In x s.
Proof.
  unfold setHas. rewrite existsb_exists. split.
  - intros (y & Hy & E). apply String.eqb_eq in E. now subst.
  - intros Hx. exists x. split; [exact Hx|apply String.eqb_refl].
Qed.

Lemma setAdd_In (s : list string) (x y : string) :
  In y (setAdd s x) <-> In y s \/ y = x.
Proof.
  unfold setAdd. destruct (setHas s x) eqn:E.
  - apply setHas_In in E. split; [tauto|]. intros [Hy| ->]; auto.
  - rewrite in_app_iff. simpl. intuition.
Qed.


Lemma monthsOf_In {N} (expenses : list (Expense N)) (s : list string)
  (m : string) :
  In m (monthsOf expenses s)
  <-> In m s \/ exists exp, In exp expenses /\ slice0 7 (date exp) = m.
Proof.
  revert s. induction expenses as [|e l IH]; intros s; simpl.
  - split; [tauto|]. intros [Hm|(exp & [] & _)]. exact Hm.
  - unfold monthsOf in *. rewrite IH, setAdd_In. split.
    + intros [[Hm| ->]|(exp & Hin & E)]; eauto 6.
    + intros [Hm|(exp & [<-|Hin] & E)]; eauto 6.
Qed.


Lemma availableMonths_unfold {N}
  (localeCompare : string -> string -> comparison) (currentMonth : string)
  (expenses : list (Expense N)) :
  availableMonths localeCompare currentMonth expenses
  = sortBy localeCompare (monthSet currentMonth expenses).
Proof. reflexivity. Qed.

Lemma monthSet_In {N} (currentMonth : string) (expenses : list (Expense N))
  (m : string) :
  In m (monthSet currentMonth expenses)
  <-> m = currentMonth
      \/ exists exp, In exp expenses /\ slice0 7 (date exp) = m.
Proof.
  unfold monthSet. destruct (setHas _ currentMonth) eqn:E; simpl.
  - apply setHas_In in E. rewrite monthsOf_In in *. simpl in *.
    split; [tauto|]. intros [->|Hm]; tauto.
  - rewrite setAdd_In, monthsOf_In. simpl. tauto.
Qed.


Lemma availableMonths_In {N}
  (localeCompare : string -> string -> comparison) (currentMonth : string)
  (expenses : list (Expense N)) (m : string) :
  In m (availableMonths localeCompare currentMonth expenses)
  <-> m = currentMonth
      \/ exists exp, In exp expenses /\ slice0 7 (date exp) = m.
Proof. rewrite availableMonths_unfold, sortBy_In. apply monthSet_In. Qed.


(** ** The handlers *)

Section HandlerFacts.
Context {N : Type} `{Number N}.
Variable Date_getTime : string -> option Z.
Variable localeCompare : string -> string -> comparison.
Variable formatCurrency : N -> string.
Variable formatMonthYear : string -> string.
Variable currentMonth : string.

Local Abbreviation addExpense' :=
  (addExpense Date_getTime localeCompare formatCurrency currentMonth).
Local Abbreviation handleAddExpense' :=
  (handleAddExpense Date_getTime formatCurrency).
Local Abbreviation runEffects' := (runEffects localeCompare currentMonth).
Local Abbreviation selectedMonthEffect' :=
  (selectedMonthEffect localeCompare currentMonth).

Lemma selectedMonthEffect_expenses (st : AppState N) :
  expenses (selectedMonthEffect' st) = expenses st
  /\ storedExpenses (selectedMonthEffect' st) = storedExpenses st.
Proof.
  unfold selectedMonthEffect.
  destruct (_ && _); [split; reflexivity|].
  destruct (_ && _); split; reflexivity.
Qed.

(** The effect leaves a selected month that is among the available ones. *)
Lemma selectedMonthEffect_included (st : AppState N) :
  In (selectedMonth st)
    (availableMonths localeCompare currentMonth (expenses st)) ->
  selectedMonthEffect' st = st.
Proof.
  intros Hin. unfold selectedMonthEffect.
  rewrite (proj2 (setHas_In _ _) Hin). simpl. rewrite andb_false_r.
  destruct (availableMonths _ _ _); [destruct Hin|reflexivity].
Qed.

Lemma runEffects_unchanged (before st : AppState N) :
  expensesRef st = expensesRef before ->
  selectedMonth st = selectedMonth before ->
  runEffects' before st = st.
Proof.
  intros E1 E2. unfold runEffects.
  now rewrite E1, E2, Nat.eqb_refl, String.eqb_refl.
Qed.

Lemma handleAddExpense_success (env : Answers N) (st : AppState N) (valor : N)
  (descricao data originalInputText : string) :
  validDate Date_getTime data = true ->
  categorizeAnswer env descricao <> Rejected ->
  run env (handleAddExpense' st valor descricao data originalInputText)
  = Returned (addedState Date_getTime formatCurrency env st valor descricao data originalInputText).
Proof.
  intros V C. unfold handleAddExpense, addedState, builtExpense. simpl.
  destruct (categorizeAnswer env descricao) as [categorized|]; [|congruence].
  rewrite V. simpl. f_equal.
  destruct (String.eqb_spec (selectedMonth st) (slice0 7 data)) as [E|E];
    simpl; unfold setIsLoading, setSelectedMonth, setUserInput, setToast,
      setExpenses; simpl; [rewrite E|]; reflexivity.
Qed.

(** What a call stopped by the date guard leaves. *)
Lemma handleAddExpense_invalid (env : Answers N) (st : AppState N) (valor : N)
  (descricao data originalInputText : string) :
  validDate Date_getTime data = false ->
  run env (handleAddExpense' st valor descricao data originalInputText)
  = Returned
      (mkState (expenses st) (expensesRef st) (userInput st) false
         (Some (mkToast
                  (match categorizeAnswer env descricao with
                   | Resolved _ => MsgInvalidDate data
                   | Rejected => MsgProcessingError
                   end)
                  error))
         (apiKeyExists st) (selectedMonth st) (storedExpenses st)).
Proof.
  intros V. unfold handleAddExpense. simpl.
  destruct (categorizeAnswer env descricao) as [categorized|];
    [rewrite V|]; reflexivity.
Qed.

Lemma addExpense_success (env : Answers N) (st : AppState N) (valor : N)
  (descricao data originalInputText : string) :
  validDate Date_getTime data = true ->
  categorizeAnswer env descricao <> Rejected ->
  addExpense' env st valor descricao data originalInputText
  = persistEffect (addedState Date_getTime formatCurrency env st valor descricao data originalInputText).
Proof.
  intros V C. unfold addExpense.
  rewrite handleAddExpense_success by assumption.
  unfold runEffects, finalState.
  replace (Nat.eqb (expensesRef st) (expensesRef (addedState _ _ _ _ _ _ _ _)))
    with false.
  - simpl. apply selectedMonthEffect_included. simpl.
    apply availableMonths_In. right.
    exists (builtExpense env valor descricao data originalInputText).
    split; [|reflexivity].
    apply sortBy_In, in_or_app. right. now left.
  - symmetry. apply Nat.eqb_neq. simpl. apply Nat.neq_succ_diag_r.
Qed.

End HandlerFacts.

(** ** Adding to the store *)

Section AddFacts.
Context {N : Type}.
Variable Date_getTime : string -> option Z.
Variable localeCompare : string -> string -> comparison.
Variable formatCurrency : N -> string.
Variable currentMonth : string.

Local Abbreviation addCall' :=
  (addCall Date_getTime localeCompare formatCurrency currentMonth).
Local Abbreviation addAll' :=
  (addAll Date_getTime localeCompare formatCurrency currentMonth).

Lemma callSucceeds_hasTime (c : AddCall N) :
  callSucceeds Date_getTime c -> hasTime Date_getTime (callRecord c).
Proof. intros [V _]. now apply validDate_hasTime. Qed.

Lemma addCall_expenses (st : AppState N) (c : AddCall N) :
  callSucceeds Date_getTime c ->
  expenses (addCall' st c)
  = sortBy (byDate Date_getTime) (expenses st ++ [callRecord c])
  /\ storedExpenses (addCall' st c) = Some (Serialized (expenses (addCall' st c))).
Proof.
  intros [V C]. unfold addCall.
  rewrite addExpense_success by assumption. split; reflexivity.
Qed.

Lemma addAll_snoc (st : AppState N) (cs : list (AddCall N)) (c : AddCall N) :
  addAll' st (cs ++ [c]) = addCall' (addAll' st cs) c.
Proof. unfold addAll. now rewrite fold_left_app. Qed.

(** The store after a sequence of calls holds the records it held and the
    new ones, those of one date in the order they had. *)
Lemma addAll_stable (cs : list (AddCall N)) (st : AppState N) :
  Forall (hasTime Date_getTime) (expenses st) ->
  Forall (callSucceeds Date_getTime) cs ->
  Forall (hasTime Date_getTime) (expenses (addAll' st cs))
  /\ Permutation (expenses (addAll' st cs)) (expenses st ++ map callRecord cs)
  /\ forall t,
       filter (dateIs Date_getTime t) (expenses (addAll' st cs))
       = filter (dateIs Date_getTime t) (expenses st ++ map callRecord cs).
Proof.
  intros Hst Hcs. revert st Hst.
  induction Hcs as [|c cs Hc Hcs IH]; intros st Hst.
  - simpl. rewrite app_nil_r. auto.
  - change (addAll' st (c :: cs)) with (addAll' (addCall' st c) cs).
    destruct (addCall_expenses st c Hc) as [E _].
    assert (H1 : Forall (hasTime Date_getTime) (expenses (addCall' st c))).
    { rewrite E. apply Forall_sortBy, Forall_app. split; [exact Hst|].
      constructor; [now apply callSucceeds_hasTime|constructor]. }
    destruct (IH _ H1) as (F & Pm & St).
    split; [exact F|]. split.
    + rewrite Pm, E, sortBy_perm, <- app_assoc. reflexivity.
    + intros t. rewrite St, E, filter_app, sortBy_byDate_stable.
      rewrite <- filter_app, <- app_assoc. reflexivity.
Qed.

End AddFacts.

(** C4: starting from a store whose dates ascend, after every add of a
    sequence of valid records (every non-empty sequence of calls that
    succeed) the list ascends by date, holds exactly the old records and
    the new ones with those of equal date in their earlier relative order,
    and is what [localStorage] holds. *)
Theorem add_keeps_store_sorted
  (N : Type) (Date_getTime : string -> option Z)
  (localeCompare : string -> string -> comparison)
  (formatCurrency : N -> string) (currentMonth : string)
  (st : AppState N) (cs : list (AddCall N)) :
  dateAscending Date_getTime (expenses st) ->
  Forall (callSucceeds Date_getTime) cs ->
  cs <> [] ->
  dateAscending Date_getTime
    (expenses (addAll Date_getTime localeCompare formatCurrency currentMonth
                 st cs))
  /\ Permutation
       (expenses (addAll Date_getTime localeCompare formatCurrency
                    currentMonth st cs))
       (expenses st ++ map callRecord cs)
  /\ (forall t,
        filter (dateIs Date_getTime t)
          (expenses (addAll Date_getTime localeCompare formatCurrency
                       currentMonth st cs))
        = filter (dateIs Date_getTime t) (expenses st ++ map callRecord cs))
  /\ storedExpenses
       (addAll Date_getTime localeCompare formatCurrency currentMonth st cs)
     = Some (Serialized
               (expenses (addAll Date_getTime localeCompare formatCurrency
                            currentMonth st cs))).
Proof.
  intros [Hst _] Hcs Hne.
  destruct (addAll_stable Date_getTime localeCompare formatCurrency
              currentMonth cs st Hst Hcs) as (_ & Pm & St).
  split; [|split; [exact Pm|split; [exact St|]]].
  - destruct (exists_last Hne) as (cs' & c & ->).
    apply Forall_app in Hcs. destruct Hcs as [Hcs' Hc].
    inversion Hc as [|? ? Hc' _]; subst.
    rewrite addAll_snoc.
    rewrite (proj1 (addCall_expenses Date_getTime localeCompare formatCurrency
                      currentMonth _ c Hc')).
    apply sortBy_byDate_ascending, Forall_app. split.
    + now apply addAll_stable.
    + constructor; [now apply callSucceeds_hasTime|constructor].
  - destruct (exists_last Hne) as (cs' & c & ->).
    apply Forall_app in Hcs. destruct Hcs as [_ Hc].
    inversion Hc as [|? ? Hc' _]; subst.
    rewrite addAll_snoc. now apply addCall_expenses.
Qed.




Lemma add_keeps_store_sorted_witness :
  dateAscending isoDateTime
    (expenses (addAll isoDateTime String.compare formatReais "2024-05"
                 sampleState sampleCalls))
  /\ storedExpenses
       (addAll isoDateTime String.compare formatReais "2024-05" sampleState
          sampleCalls)
     = Some (Serialized
               (expenses (addAll isoDateTime String.compare formatReais
                            "2024-05" sampleState sampleCalls))).
Proof.
  destruct (add_keeps_store_sorted Z isoDateTime String.compare formatReais
              "2024-05" sampleState sampleCalls)
    as (A & _ & _ & B).
  - split.
    + repeat constructor; eexists; reflexivity.
    + repeat constructor. unfold notLater. vm_compute. discriminate.
  - repeat constructor; simpl; discriminate.
  - discriminate.
  - split; [exact A|exact B].
Defined.

(** The second call's record has the date of record [a] and goes behind
    it. *)
Example sampleCalls_order :
  map id
    (expenses (addAll isoDateTime String.compare formatReais "2024-05"
                 sampleState sampleCalls))
  = ["a"; "id-2024-05-01"; "id-2024-05-02"; "b"].
Proof. vm_compute. reflexivity. Qed.



(** ** Loading the store *)

(** C6, as stated, fails on a text that [JSON.parse] refuses: the first
    effect throws and sets no list, empty or otherwise. *)
Lemma load_of_unparsable_text_throws :
  loadExpenses (N := Z) isoDateTime (Some (Unparsable "{oops")) = LoadThrows
  /\ mountEffect isoDateTime true
       (initialState (N := Z) "2024-05" (Some (Unparsable "{oops")))
     = Threw (initialState "2024-05" (Some (Unparsable "{oops"))).
Proof. split; reflexivity. Qed.

(** C6 (amended): with no entry, or an empty one, the effect sets nothing
    and the list stays empty; with the JSON text of an array of records
    whose dates have time values it sets those records in ascending order
    of date, those of one date in their stored order; with a text that
    [JSON.parse] refuses (or that is no array) it throws. *)
Theorem load_sorts_or_throws
  (N : Type) (Date_getTime : string -> option Z) (currentMonth : string)
  (apiKey : bool) (item : option (StoredText N)) :
  (item = None \/ item = Some EmptyText ->
   loadExpenses Date_getTime item = NothingStored
   /\ exists st,
        mountEffect Date_getTime apiKey (initialState currentMonth item)
        = Returned st
        /\ expenses st = [])
  /\ (forall l,
        item = Some (Serialized l) ->
        Forall (hasTime Date_getTime) l ->
        exists st,
          mountEffect Date_getTime apiKey (initialState currentMonth item)
          = Returned st
          /\ loadExpenses Date_getTime item = LoadedExpenses (expenses st)
          /\ dateAscending Date_getTime (expenses st)
          /\ Permutation (expenses st) l
          /\ forall t,
               filter (dateIs Date_getTime t) (expenses st)
               = filter (dateIs Date_getTime t) l)
  /\ (forall text,
        item = Some (Unparsable text) \/ item = Some (NotAnArray text) ->
        loadExpenses Date_getTime item = LoadThrows
        /\ exists st,
             mountEffect Date_getTime apiKey (initialState currentMonth item)
             = Threw st
             /\ expenses st = []).
Proof.
  split; [|split].
  - intros [-> | ->]; (split; [reflexivity|]);
      unfold mountEffect; destruct apiKey; simpl; eauto.
  - intros l -> Hl.
    exists (setExpenses (fun _ => sortBy (byDate Date_getTime) l)
              (if apiKey then initialState currentMonth (Some (Serialized l))
               else setToast MsgGeminiKeyMissing error
                      (setApiKeyExists false
                         (initialState currentMonth (Some (Serialized l)))))).
    split; [unfold mountEffect; destruct apiKey; reflexivity|].
    cbn [setExpenses expenses]. split; [reflexivity|]. split; [|split].
    + now apply sortBy_byDate_ascending.
    + apply sortBy_perm.
    + intros t. apply sortBy_byDate_stable.
  - intros text [-> | ->]; (split; [reflexivity|]);
      unfold mountEffect; destruct apiKey; simpl; eauto.
Qed.

Lemma load_sorts_or_throws_witness :
  exists st,
    mountEffect isoDateTime true
      (initialState "2024-05" (Some (Serialized (rev scenarioExpenses))))
    = Returned st
    /\ dateAscending isoDateTime (expenses st)
    /\ map id (expenses st) = ["a"; "b"].
Proof.
  destruct (load_sorts_or_throws Z isoDateTime "2024-05" true
              (Some (Serialized (rev scenarioExpenses)))) as (_ & L & _).
  destruct (L (rev scenarioExpenses) eq_refl) as (st & E & _ & A & _).
  - repeat constructor; eexists; reflexivity.
  - exists st. split; [exact E|]. split; [exact A|].
    injection E as <-. reflexivity.
Defined.

(** ** Submitting the input *)

Section SubmitFacts.
Context {N : Type} {num : Number N}.
Variable Date_getTime : string -> option Z.
Variable localeCompare : string -> string -> comparison.
Variable formatCurrency : N -> string.
Variable formatMonthYear : string -> string.
Variable currentMonth : string.

(** What the handler leaves after a TOTAL_CATEGORIA answer. *)
Lemma handleProcessInput_total (env : Answers N) (st : AppState N)
  (c : ExpenseCategory) :
  trimIsEmpty (userInput st) = false ->
  apiKeyExists st = true ->
  interpretAnswer env (userInput st)
  = Resolved (Some (mkQuery TOTAL_CATEGORIA (Some c))) ->
  run env (handleProcessInput Date_getTime formatCurrency formatMonthYear st)
  = Returned
      (mkState (expenses st) (expensesRef st) "" false
         (Some (mkToast
                  (MsgCategoryTotal c (formatMonthYear (selectedMonth st))
                     (formatCurrency (reportedTotal formatMonthYear st c)))
                  info))
         (apiKeyExists st) (selectedMonth st) (storedExpenses st)).
Proof.
  intros T K I.
  assert (G : trimIsEmpty (userInput st) || negb (apiKeyExists st) = false)
    by now rewrite T, K.
  unfold handleProcessInput. rewrite G. simpl. rewrite I. reflexivity.
Qed.

(** What the handler leaves when the guard stops it; it awaits nothing. *)
Lemma handleProcessInput_guard (st : AppState N) :
  trimIsEmpty (userInput st) = true \/ apiKeyExists st = false ->
  handleProcessInput Date_getTime formatCurrency formatMonthYear st
  = Return (setToast
              (if apiKeyExists st then MsgEmptyInput else MsgApiKeyMissing)
              error st).
Proof.
  intros G. unfold handleProcessInput.
  destruct (apiKeyExists st); simpl.
  - destruct G as [-> |]; [reflexivity|discriminate].
  - rewrite orb_true_r. reflexivity.
Qed.

End SubmitFacts.

Section ExactTotals.
Context {N : Type} {num : Number N} {exact : ExactNumber N}.
Set Default Proof Using "Type + exact".

(** The total reported is the sum of the month's expenses of the
    category, also when there is no summary. *)
Lemma reportedTotal_exact (formatMonthYear : string -> string)
  (st : AppState N) (c : ExpenseCategory) :
  reportedTotal formatMonthYear st c
  = categoryTotalOfMonth (expenses st) (selectedMonth st) c.
Proof.
  unfold reportedTotal, monthlySummaryData, categoryTotalOfMonth.
  pose proof (scan_category_total
                (expensesOfMonth (expenses st) (selectedMonth st))
                scanInit c) as T.
  simpl in T. fold (scanExpenses (expensesOfMonth (expenses st) (selectedMonth st))) in T.
  destruct (_ && _) eqn:Z0.
  - apply andb_true_iff in Z0. destruct Z0 as [_ Z0].
    rewrite forallb_forall in Z0.
    specialize (Z0 c (CATEGORY_NAMES_ARRAY_complete c)).
    apply strictEq_spec in Z0. now rewrite <- T, Z0.
  - cbn [categoryTotals]. now rewrite orElse_zero.
Qed.

End ExactTotals.
Set Default Proof Using "Type".

Section OrderedTotals.
Context {N : Type} {num : Number N} {ord : OrderedNumber N}.
Set Default Proof Using "Type + ord".

(** With positive amounts the same holds in the program's arithmetic. *)
Lemma reportedTotal_positive (formatMonthYear : string -> string)
  (st : AppState N) (c : ExpenseCategory) :
  Forall positiveAmount (expenses st) ->
  reportedTotal formatMonthYear st c
  = categoryTotalOfMonth (expenses st) (selectedMonth st) c.
Proof.
  intros Pl. unfold reportedTotal, categoryTotalOfMonth.
  pose proof (Forall_expensesOfMonth _ _ (selectedMonth st) Pl) as Pm.
  destruct (scan_category_total_positive _ scanInit c Pm nonNegativeTotals_init)
    as [Zl El]; [intros c'; now left|].
  fold (scanExpenses (expensesOfMonth (expenses st) (selectedMonth st)))
    in Zl, El.
  simpl in El.
  destruct (monthlySummaryData formatMonthYear (expenses st)
              (selectedMonth st)) as [s|] eqn:Es.
  - unfold monthlySummaryData in Es.
    destruct (_ && _) in Es; [discriminate|]. injection Es as <-.
    cbn [categoryTotals]. rewrite <- El. apply orElse_zeroOrPositive, Zl.
  - destruct (expensesOfMonth (expenses st) (selectedMonth st)) as [|e l] eqn:E;
      [reflexivity|].
    destruct (monthlySummaryData_some_of_nonempty formatMonthYear
                (expenses st) (selectedMonth st) Pl) as [s Hs];
      [rewrite E; discriminate|congruence].
Qed.

End OrderedTotals.
Set Default Proof Using "Type".

(** C7: when the interpreter answers TOTAL_CATEGORIA with a category, the
    submission shows one info message holding the category, the month's
    label and [formatCurrency] of the category's total in the summary of
    the selected month (zero when the month has no summary); that total
    is the sum of the amounts of the month's expenses of the category, in
    exact arithmetic always and in binary64 when the amounts are
    positive; the list, the stored list and the selected month stay as
    they were. *)
Theorem category_total_is_reported
  (N : Type) (num : Number N)
  (Date_getTime : string -> option Z)
  (localeCompare : string -> string -> comparison)
  (formatCurrency : N -> string) (formatMonthYear : string -> string)
  (currentMonth : string) (env : Answers N) (st : AppState N)
  (c : ExpenseCategory) :
  trimIsEmpty (userInput st) = false ->
  apiKeyExists st = true ->
  interpretAnswer env (userInput st)
  = Resolved (Some (mkQuery TOTAL_CATEGORIA (Some c))) ->
  exists st',
    submit Date_getTime localeCompare formatCurrency formatMonthYear
      currentMonth env st = Returned st'
    /\ toast st'
       = Some (mkToast
                 (MsgCategoryTotal c (formatMonthYear (selectedMonth st))
                    (formatCurrency (reportedTotal formatMonthYear st c)))
                 info)
    /\ (monthlySummaryData formatMonthYear (expenses st) (selectedMonth st)
        = None ->
        reportedTotal formatMonthYear st c = zero)
    /\ (ExactNumber N ->
        reportedTotal formatMonthYear st c
        = categoryTotalOfMonth (expenses st) (selectedMonth st) c)
    /\ (OrderedNumber N -> Forall positiveAmount (expenses st) ->
        reportedTotal formatMonthYear st c
        = categoryTotalOfMonth (expenses st) (selectedMonth st) c)
    /\ expenses st' = expenses st
    /\ storedExpenses st' = storedExpenses st
    /\ selectedMonth st' = selectedMonth st.
Proof.
  intros T K I. unfold submit.
  rewrite (handleProcessInput_total Date_getTime formatCurrency
             formatMonthYear env st c T K I).
  rewrite runEffects_unchanged by reflexivity.
  eexists. split; [reflexivity|].
  cbn [toast expenses storedExpenses selectedMonth].
  split; [reflexivity|]. split; [|split; [|split; [|repeat split]]].
  - intros E. unfold reportedTotal. now rewrite E.
  - intros Hexact. apply reportedTotal_exact.
  - intros Hord. apply reportedTotal_positive.
Qed.

Lemma category_total_is_reported_witness :
  exists st',
    submit isoDateTime String.compare formatReais (fun m => m) "2024-05"
      totalAnswers totalState = Returned st'
    /\ toast st'
       = Some (mkToast (MsgCategoryTotal ALIMENTACAO "2024-05" "R$ 120") info)
    /\ expenses st' = expenses totalState.
Proof.
  destruct (category_total_is_reported Z Number_Z isoDateTime
              String.compare formatReais (fun m => m) "2024-05" totalAnswers
              totalState ALIMENTACAO eq_refl eq_refl eq_refl)
    as (st' & S & A & _ & _ & _ & B & _).
  exists st'. split; [exact S|]. split; [exact A|exact B].
Defined.

(** C10: when the typed text is empty or only white space, or the API key
    is missing, a submission calls none of the Gemini helpers and changes
    nothing but the toast, which becomes an error. *)
Theorem guarded_submit_only_notifies
  (N : Type) (num : Number N) (Date_getTime : string -> option Z)
  (localeCompare : string -> string -> comparison)
  (formatCurrency : N -> string) (formatMonthYear : string -> string)
  (currentMonth : string) (env : Answers N) (st : AppState N) :
  trimIsEmpty (userInput st) = true \/ apiKeyExists st = false ->
  calls env (handleProcessInput Date_getTime formatCurrency formatMonthYear st)
  = []
  /\ exists m,
       submit Date_getTime localeCompare formatCurrency formatMonthYear
         currentMonth env st
       = Returned
           (mkState (expenses st) (expensesRef st) (userInput st)
              (isLoading st) (Some (mkToast m error)) (apiKeyExists st)
              (selectedMonth st) (storedExpenses st))
       /\ m = (if apiKeyExists st then MsgEmptyInput else MsgApiKeyMissing).
Proof.
  intros G. unfold submit.
  rewrite (handleProcessInput_guard Date_getTime formatCurrency
             formatMonthYear st G).
  split; [reflexivity|].
  eexists. split; [|reflexivity].
  cbn [run]. rewrite runEffects_unchanged by reflexivity. reflexivity.
Qed.

Lemma guarded_submit_only_notifies_witness :
  calls totalAnswers
    (handleProcessInput isoDateTime formatReais (fun m => m)
       (setUserInput "   " totalState)) = []
  /\ exists m,
       submit isoDateTime String.compare formatReais (fun m => m) "2024-05"
         totalAnswers (setUserInput "   " totalState)
       = Returned (setToast m error (setUserInput "   " totalState)).
Proof.
  destruct (guarded_submit_only_notifies Z Number_Z isoDateTime String.compare
              formatReais (fun m => m) "2024-05" totalAnswers
              (setUserInput "   " totalState) (or_introl eq_refl))
    as (C & m & S & _).
  split; [exact C|]. exists m. exact S.
Defined.

(** ** The available months *)


(** The month of a date the pattern accepts has the shape of a month. *)
Lemma slice_of_date_isMonthKey (d : string) :
  matchesDatePattern d = true -> isMonthKey (slice0 7 d) = true.
Proof.
  unfold matchesDatePattern, isMonthKey, slice0.
  do 10 (destruct d as [|? d]; [discriminate|]).
  destruct d; [|discriminate].
  simpl. rewrite !andb_true_iff. tauto.
Qed.






(** * Properties of the rest of the component *)

(** ** The helpers of the list items *)

Lemma length_append (a b : string) :
  String.length (a ++ b) = (String.length a + String.length b)%nat.
Proof. induction a as [|c a IH]; simpl; congruence. Qed.

Lemma length_substring_0 (n : nat) (s : string) :
  String.length (substring 0 n s) = Nat.min n (String.length s).
Proof.
  revert s. induction n as [|n IH]; intros [|c s]; simpl; auto.
Qed.

Lemma substring_0_all (n : nat) (s : string) :
  (String.length s <= n)%nat -> substring 0 n s = s.
Proof.
  revert s. induction n as [|n IH]; intros [|c s]; simpl; intros L;
    try reflexivity; try lia.
  f_equal. apply IH. lia.
Qed.

Lemma prefix_append (a b : string) : prefix a (a ++ b) = true.
Proof.
  induction a as [|c a IH]; simpl.
  - now destruct b.
  - destruct (ascii_dec c c); [exact IH|congruence].
Qed.

Lemma substring_0_append (n : nat) (s : string) :
  exists r, s = (substring 0 n s ++ r)%string.
Proof.
  revert s. induction n as [|n IH]; intros [|c s]; simpl.
  - now exists "".
  - now exists (String c s).
  - now exists "".
  - destruct (IH s) as (r & E). exists r. now rewrite <- E.
Qed.

(** X1: the text shown for [originalInput] has at most 30 characters:
    the text itself when it has no more than 30, else its first 27
    followed by three dots. *)
Theorem shownOriginalInput_bounded (s : string) :
  (String.length (shownOriginalInput s) <= 30)%nat
  /\ ((String.length s <= 30)%nat -> shownOriginalInput s = s)
  /\ ((30 < String.length s)%nat ->
      exists head rest,
        s = (head ++ rest)%string /\ String.length head = 27%nat
        /\ shownOriginalInput s = (head ++ "...")%string).
Proof.
  unfold shownOriginalInput.
  destruct (Nat.ltb_spec 30 (String.length s)) as [L|L].
  - split; [|split].
    + rewrite length_append, length_substring_0, Nat.min_l by lia.
      simpl. lia.
    + lia.
    + intros _. destruct (substring_0_append 27 s) as (r & E).
      exists (substring 0 27 s), r. split; [exact E|].
      split; [|reflexivity]. rewrite length_substring_0. lia.
  - split; [exact L|]. split; [reflexivity|lia].
Qed.

Lemma isDigit_not_hyphen (c : ascii) :
  isDigit c = true -> Ascii.eqb c "-" = false.
Proof.
  destruct c as [[] [] [] [] [] [] [] []]; simpl; try reflexivity;
    discriminate.
Qed.

(** X2: for a date that the pattern accepts, [formatDateShort] gives the
    day, the month and the last two digits of the year, with slashes
    between: eight characters. *)
Theorem formatDateShort_of_date (d : string) :
  matchesDatePattern d = true ->
  formatDateShort d
  = (substring 8 2 d ++ "/" ++ substring 5 2 d ++ "/" ++ substring 2 2 d)%string
  /\ String.length (formatDateShort d) = 8%nat.
Proof.
  unfold matchesDatePattern.
  do 10 (destruct d as [|? d]; [discriminate|]).
  destruct d; [|discriminate].
  cbn [list_ascii_of_string forallb].
  rewrite !andb_true_iff.
  intros [[(D1 & D2 & D3 & D4 & D5 & D6 & D7 & D8 & _) H1] H2].
  apply Ascii.eqb_eq in H1, H2. subst.
  apply isDigit_not_hyphen in D1, D2, D3, D4, D5, D6, D7, D8.
  unfold formatDateShort. cbn [splitOn].
  rewrite D1, D2, D3, D4, D5, D6, D7, D8. simpl. split; reflexivity.
Qed.

Lemma formatDateShort_of_date_witness :
  formatDateShort "2024-05-03" = "03/05/24".
Proof.
  destruct (formatDateShort_of_date "2024-05-03" eq_refl) as [E _].
  exact E.
Defined.

(** ** The months and their lists *)

Lemma startsWith_slice0 (n : nat) (s : string) :
  startsWith s (slice0 n s) = true.
Proof.
  unfold startsWith, slice0.
  destruct (substring_0_append n s) as (r & E).
  rewrite E at 2. apply prefix_append.
Qed.

Lemma isMonthKey_length (m : string) :
  isMonthKey m = true -> String.length m = 7%nat.
Proof.
  unfold isMonthKey.
  do 7 (destruct m as [|? m]; [discriminate|]).
  destruct m; [reflexivity|discriminate].
Qed.

Lemma startsWith_monthKey (s m : string) :
  isMonthKey m = true -> startsWith s m = true -> slice0 7 s = m.
Proof.
  intros K P. unfold startsWith in P. apply prefix_correct in P.
  now rewrite (isMonthKey_length m K) in P.
Qed.

Lemma StronglySorted_filter {A} (R : A -> A -> Prop) (p : A -> bool)
  (l : list A) :
  StronglySorted R l -> StronglySorted R (filter p l).
Proof.
  induction 1 as [|x l Sl IH Hx]; simpl; [constructor|].
  destruct (p x); [|exact IH]. constructor; [exact IH|].
  rewrite Forall_forall in *. intros y Hy. apply filter_In in Hy.
  now apply Hx.
Qed.

Lemma dateAscending_expensesOfMonth {N} (Date_getTime : string -> option Z)
  (l : list (Expense N)) (m : string) :
  dateAscending Date_getTime l ->
  dateAscending Date_getTime (expensesOfMonth l m).
Proof.
  intros [Hl Sl]. split.
  - rewrite Forall_forall in *. intros x Hx. apply filter_In in Hx.
    now apply Hl.
  - now apply StronglySorted_filter.
Qed.

(** X3: every stored expense is listed under exactly one month button:
    the month of its date is among the available months, the list of that
    month holds it, and the list of no other available month does. *)
Theorem expense_listed_under_one_month
  (N : Type) (localeCompare : string -> string -> comparison)
  (currentMonth : string) (expenses : list (Expense N)) (e : Expense N) :
  Forall (fun exp => matchesDatePattern (date exp) = true) expenses ->
  isMonthKey currentMonth = true ->
  In e expenses ->
  In (slice0 7 (date e)) (availableMonths localeCompare currentMonth expenses)
  /\ In e (expensesOfMonth expenses (slice0 7 (date e)))
  /\ forall m,
       In m (availableMonths localeCompare currentMonth expenses) ->
       In e (expensesOfMonth expenses m) ->
       m = slice0 7 (date e).
Proof.
  intros Hd Hc He. split; [|split].
  - apply availableMonths_In. right. now exists e.
  - apply filter_In. split; [exact He|apply startsWith_slice0].
  - intros m Hm Hin. apply filter_In in Hin. destruct Hin as [_ P].
    symmetry. apply startsWith_monthKey; [|exact P].
    apply availableMonths_In in Hm. destruct Hm as [->|(x & Hx & <-)];
      [exact Hc|].
    apply slice_of_date_isMonthKey.
    rewrite Forall_forall in Hd. now apply Hd.
Qed.

Lemma expense_listed_under_one_month_witness :
  In "2024-06" (availableMonths String.compare "2024-04" (expenses totalState))
  /\ forall m,
       In m (availableMonths String.compare "2024-04" (expenses totalState)) ->
       In (mkExpense "d" 90 "mercado" "2024-06-01" ALIMENTACAO "mercado 90")
         (expensesOfMonth (expenses totalState) m) ->
       m = "2024-06".
Proof.
  destruct (expense_listed_under_one_month Z String.compare "2024-04"
              (expenses totalState)
              (mkExpense "d" 90 "mercado" "2024-06-01" ALIMENTACAO
                 "mercado 90"))
    as (A & _ & B).
  - repeat constructor.
  - reflexivity.
  - simpl. tauto.
  - split; [exact A|exact B].
Defined.

(** X4: every available month other than the current one has an expense;
    with positive amounts it has a summary. *)
Theorem other_months_have_summary
  (N : Type) (num : Number N) (ord : OrderedNumber N)
  (localeCompare : string -> string -> comparison)
  (formatMonthYear : string -> string) (currentMonth : string)
  (expenses : list (Expense N)) (m : string) :
  In m (availableMonths localeCompare currentMonth expenses) ->
  m <> currentMonth ->
  expensesOfMonth expenses m <> []
  /\ (Forall positiveAmount expenses ->
      exists s, monthlySummaryData formatMonthYear expenses m = Some s).
Proof.
  intros Hm Hne.
  assert (H : expensesOfMonth expenses m <> []).
  { apply availableMonths_In in Hm. destruct Hm as [->|(x & Hx & <-)];
      [congruence|].
    intros E.
    assert (Hin : In x (expensesOfMonth expenses (slice0 7 (date x))))
      by (apply filter_In; split; [exact Hx|apply startsWith_slice0]).
    rewrite E in Hin. destruct Hin. }
  split; [exact H|]. intros Pl.
  now apply monthlySummaryData_some_of_nonempty.
Qed.

Lemma other_months_have_summary_witness :
  exists s,
    monthlySummaryData (fun m => m) (expenses totalState) "2024-06" = Some s.
Proof.
  destruct (other_months_have_summary Z Number_Z OrderedNumber_Z
              String.compare (fun m => m) "2024-04" (expenses totalState)
              "2024-06") as [_ H].
  - simpl. tauto.
  - discriminate.
  - apply H. repeat constructor.
Defined.

(** ** Which totals a summary has *)

Section TotalsFacts.
Context {N : Type} {num : Number N} {ord : OrderedNumber N}.
Set Default Proof Using "Type + ord".

Lemma sum_positive (xs : list N) (x0 : N) :
  Forall (fun a => greater a zero = true) xs -> xs <> [] -> nonNegative x0 ->
  greater (fold_left add xs x0) zero = true.
Proof.
  intros Pxs. revert x0. induction Pxs as [|a xs Pa Pxs IH]; intros x0 Hne N0;
    [congruence|].
  simpl. destruct (add_positive x0 a N0 Pa) as [G _].
  destruct xs as [|b xs]; [exact G|].
  apply IH; [discriminate|]. now apply positive_nonNegative.
Qed.

(** A category's total is positive exactly when the list has an expense
    of the category. *)
Lemma total_positive_iff (l : list (Expense N)) (c : ExpenseCategory) :
  Forall positiveAmount l ->
  greater (scanSummary (scanExpenses l) c) zero = true
  <-> exists e, In e l /\ category e = c.
Proof.
  intros Pl.
  destruct (scan_category_total_positive l scanInit c Pl
              nonNegativeTotals_init) as [_ E].
  { intros c'. now left. }
  unfold scanExpenses. rewrite E. cbn [scanSummary scanInit].
  set (lc := filter (fun exp => category_eqb (category exp) c) l).
  assert (Hlc : forall e, In e lc <-> In e l /\ category e = c).
  { intros e. unfold lc. rewrite filter_In. unfold category_eqb.
    destruct (category_eq_dec (category e) c); intuition congruence. }
  split.
  - intros G. destruct lc as [|e lc'] eqn:Elc.
    + simpl in G. rewrite greater_irrefl in G. discriminate.
    + exists e. apply Hlc. now left.
  - intros (e & He). apply Hlc in He.
    apply sum_positive.
    + apply Forall_forall. intros a Ha. apply in_map_iff in Ha.
      destruct Ha as (x & <- & Hx). apply Hlc in Hx.
      rewrite Forall_forall in Pl. apply Pl, Hx.
    + intros E0. apply map_eq_nil in E0. rewrite E0 in He. destruct He.
    + apply zero_nonNegative.
Qed.

End TotalsFacts.
Set Default Proof Using "Type".

Lemma map_fst_filter_entries {N} (totals : ExpenseCategory -> N)
  (p : ExpenseCategory * N -> bool) :
  map fst (filter p (entries totals))
  = filter (fun c => p (c, totals c)) CATEGORY_NAMES_ARRAY.
Proof.
  unfold entries. induction CATEGORY_NAMES_ARRAY as [|c l IH]; simpl;
    [reflexivity|].
  destruct (p (c, totals c)); simpl; now rewrite IH.
Qed.

Lemma entries_snd {N} (totals : ExpenseCategory -> N)
  (x : ExpenseCategory * N) :
  In x (entries totals) -> snd x = totals (fst x).
Proof.
  unfold entries. intros Hx. apply in_map_iff in Hx.
  destruct Hx as (c & <- & _). reflexivity.
Qed.

Lemma StronglySorted_map {A B} (f : A -> B) (R : B -> B -> Prop)
  (l : list A) :
  StronglySorted (fun x y => R (f x) (f y)) l -> StronglySorted R (map f l).
Proof.
  induction 1 as [|a l Sl IH Ha]; simpl; constructor; [exact IH|].
  rewrite Forall_forall in *. intros b Hb. apply in_map_iff in Hb.
  destruct Hb as (x & <- & Hx). now apply Ha.
Qed.

Section ZeroFacts.
Context {N : Type} `{Number N}.

Lemma scan_zero (l : list (Expense N)) (acc : Scan) :
  add zero zero = zero ->
  (forall e, In e l -> amount e = zero) ->
  (forall c, scanSummary acc c = zero) -> scanGrandTotal acc = zero ->
  (forall c, scanSummary (fold_left scanStep l acc) c = zero)
  /\ scanGrandTotal (fold_left scanStep l acc) = zero.
Proof.
  intros Hadd. revert acc. induction l as [|e l IH]; intros acc Hl Hs Hg;
    [auto|].
  simpl. apply IH.
  - intros x Hx. apply Hl. now right.
  - intros c. unfold scanStep. simpl. unfold setTotal.
    rewrite (Hl e (or_introl eq_refl)), Hs.
    destruct (category_eqb c (category e)); [|apply Hs].
    unfold orElse. now destruct (truthy zero).
  - unfold scanStep. simpl. now rewrite (Hl e (or_introl eq_refl)), Hg.
Qed.

End ZeroFacts.

(** X5: a month whose expenses all have the amount 0 has no summary,
    although its list of expenses is not empty. *)
Theorem zero_amounts_give_no_summary
  (N : Type) (num : Number N) (formatMonthYear : string -> string)
  (expenses : list (Expense N)) (selectedMonth : string) :
  add zero zero = zero ->
  strictEq zero zero = true ->
  (forall e, In e (expensesOfMonth expenses selectedMonth) ->
             amount e = zero) ->
  monthlySummaryData formatMonthYear expenses selectedMonth = None.
Proof.
  intros Hadd Heq Hz. unfold monthlySummaryData, scanExpenses.
  destruct (scan_zero (expensesOfMonth expenses selectedMonth) scanInit
              Hadd Hz) as [Hs Hg]; try reflexivity.
  rewrite Hg, Heq. cbn [andb].
  replace (forallb _ CATEGORY_NAMES_ARRAY) with true; [reflexivity|].
  symmetry. apply forallb_forall. intros c _. now rewrite Hs.
Qed.

Lemma zero_amounts_give_no_summary_witness :
  expensesOfMonth zeroExpenses "2024-05" <> []
  /\ monthlySummaryData (fun m => m) zeroExpenses "2024-05" = None.
Proof.
  split; [discriminate|].
  apply (zero_amounts_give_no_summary float Number_float (fun m => m)
           zeroExpenses "2024-05").
  - reflexivity.
  - reflexivity.
  - intros e [<-|[]]. reflexivity.
Defined.

(** X6: with positive amounts the totals of a summary are numbers that
    are not negative: the grand total is positive, and a category's total
    is positive when the month has an expense of the category and [0]
    when it has none. *)
Theorem summary_totals_are_positive
  (N : Type) (num : Number N) (ord : OrderedNumber N)
  (formatMonthYear : string -> string)
  (expenses : list (Expense N)) (selectedMonth : string)
  (s : MonthlySummaryData N) :
  Forall positiveAmount expenses ->
  monthlySummaryData formatMonthYear expenses selectedMonth = Some s ->
  greater (grandTotal s) zero = true
  /\ forall c,
       nonNegative (categoryTotals s c)
       /\ ((exists e, In e (expensesOfMonth expenses selectedMonth)
                      /\ category e = c) ->
           greater (categoryTotals s c) zero = true)
       /\ ((forall e, In e (expensesOfMonth expenses selectedMonth) ->
                      category e <> c) ->
           categoryTotals s c = zero).
Proof.
  intros Pl Hs.
  assert (Pm := Forall_expensesOfMonth _ _ selectedMonth Pl).
  assert (Hne : expensesOfMonth expenses selectedMonth <> []).
  { intros E.
    rewrite (monthlySummaryData_none_of_empty formatMonthYear _ _ E) in Hs.
    discriminate. }
  unfold monthlySummaryData in Hs.
  destruct (_ && _) in Hs; [discriminate|].
  injection Hs as <-. cbn [grandTotal categoryTotals].
  split.
  - apply scan_grandTotal_positive; auto. apply nonNegativeTotals_init.
  - intros c. split; [|split].
    + now apply scanExpenses_nonNegativeTotals.
    + intros He. now apply total_positive_iff.
    + intros Hno.
      destruct (scan_category_total_positive
                  (expensesOfMonth expenses selectedMonth) scanInit c Pm
                  nonNegativeTotals_init) as [Z _]; [intros c'; now left|].
      destruct (Z c) as [E|G]; [exact E|].
      apply (total_positive_iff _ _ Pm) in G.
      destruct G as (e & He & Ec). now apply Hno in He.
Qed.

Lemma summary_totals_are_positive_witness :
  exists s,
    monthlySummaryData (fun m => m) roundingExpenses "2024-05" = Some s
    /\ greater (grandTotal s) zero = true
    /\ categoryTotals s LAZER = zero.
Proof.
  eexists. split; [reflexivity|].
  destruct (summary_totals_are_positive float Number_float OrderedNumber_float
              (fun m => m) roundingExpenses "2024-05" _
              ltac:(repeat constructor; vm_compute; reflexivity) eq_refl)
    as [G H].
  split; [exact G|]. apply (H LAZER).
  intros e [<-|[<-|[<-|[]]]]; discriminate.
Defined.

(** ** The sign of a binary64 difference *)

Lemma binary_round_aux_sign (s : bool) (m e : Z) (l : location) :
  binary_round_aux prec emax s m e l
  = match binary_round_aux prec emax false m e l with
    | S754_zero _ => S754_zero s
    | S754_infinity _ => S754_infinity s
    | S754_finite _ m' e' => S754_finite s m' e'
    | S754_nan => S754_nan
    end.
Proof.
  unfold binary_round_aux.
  destruct (shr_fexp prec emax m e l) as [r1 e1].
  destruct (shr_fexp prec emax _ e1 loc_Exact) as [r2 e2].
  destruct (shr_m r2); try reflexivity.
  destruct (e2 <=? emax - prec); reflexivity.
Qed.

Lemma binary_round_sign (s : bool) (m : positive) (e : Z) :
  binary_round prec emax s m e
  = match binary_round prec emax false m e with
    | S754_zero _ => S754_zero s
    | S754_infinity _ => S754_infinity s
    | S754_finite _ m' e' => S754_finite s m' e'
    | S754_nan => S754_nan
    end.
Proof.
  unfold binary_round.
  destruct (shl_align m e _) as [mz ez]. apply binary_round_aux_sign.
Qed.

(** Rounding a positive value whose exponent is not below the least one
    gives a positive number or infinity, never zero. *)
Lemma binary_round_positive (m : positive) (e : Z) :
  -1074 <= e -> SFpositive (binary_round prec emax false m e).
Proof.
  intros Hmin. unfold binary_round, shl_align.
  destruct (fexp prec emax (Zpos (digits2_pos m) + e) - e) as [|d|d] eqn:Ed.
  - destruct (binary_round_aux_lower m e Hmin) as [->|(m2 & e2 & -> & _)];
      [simpl Zdigits2; lia|exact I|exact I].
  - destruct (binary_round_aux_lower m e Hmin) as [->|(m2 & e2 & -> & _)];
      [simpl Zdigits2; lia|exact I|exact I].
  - assert (Hf : -1074 <= fexp prec emax (Zpos (digits2_pos m) + e))
      by (rewrite fexp64; lia).
    destruct (binary_round_aux_lower (Pos.iter xO m d)
                (fexp prec emax (Zpos (digits2_pos m) + e)) Hf)
      as [->|(m2 & e2 & -> & _)]; [|exact I|exact I].
    rewrite Zdigits2_log2 by lia. rewrite iter_xO.
    rewrite Z.log2_mul_pow2 by lia.
    rewrite digits2_log2 in *. rewrite !fexp64 in *. lia.
Qed.

Lemma valid_mantissa (s : bool) (m : positive) (e : Z) :
  valid_binary (S754_finite s m e) = true ->
  Zpos m < 2 ^ 53 /\ -1074 <= e /\ (-1074 < e -> 2 ^ 52 <= Zpos m).
Proof.
  intros V. destruct (valid_canonical _ _ _ V) as [C Hmin].
  rewrite fexp64, digits2_log2 in C.
  destruct (pow2_log2_le (Zpos m)) as [Hlo Hhi]; [lia|].
  split; [|split; [exact Hmin|]].
  - eapply Z.lt_le_trans; [exact Hhi|]. apply Z.pow_le_mono_r; lia.
  - intros He. eapply Z.le_trans; [|exact Hlo]. apply Z.pow_le_mono_r; lia.
Qed.

(** Valid numbers are ordered as their exponents, then their mantissas. *)
Lemma valid_order (sx sy : bool) (mx my : positive) (ex ey : Z) :
  valid_binary (S754_finite sx mx ex) = true ->
  valid_binary (S754_finite sy my ey) = true ->
  Zpos mx * 2 ^ (ex - Z.min ex ey) < Zpos my * 2 ^ (ey - Z.min ex ey)
  <-> ex < ey \/ (ex = ey /\ Zpos mx < Zpos my).
Proof.
  intros VX VY.
  destruct (valid_mantissa _ _ _ VX) as (Hx & Ex & Nx).
  destruct (valid_mantissa _ _ _ VY) as (Hy & Ey & Ny).
  destruct (Z.lt_trichotomy ex ey) as [L|[E|L]].
  - rewrite Z.min_l, Z.sub_diag, Z.pow_0_r, Z.mul_1_r by lia.
    split; [auto|intros _].
    assert (2 ^ 1 <= 2 ^ (ey - ex)) by (apply Z.pow_le_mono_r; lia).
    change (2 ^ 1) with 2 in *. specialize (Ny ltac:(lia)).
    change (2 ^ 53) with (2 ^ 52 * 2) in Hx. nia.
  - subst ey. rewrite Z.min_id, Z.sub_diag, Z.pow_0_r, !Z.mul_1_r. lia.
  - rewrite Z.min_r, Z.sub_diag, Z.pow_0_r, Z.mul_1_r by lia.
    split; [|lia]. intros Hlt. exfalso.
    assert (2 ^ 1 <= 2 ^ (ex - ey)) by (apply Z.pow_le_mono_r; lia).
    change (2 ^ 1) with 2 in *. specialize (Nx ltac:(lia)).
    change (2 ^ 53) with (2 ^ 52 * 2) in Hy. nia.
Qed.

Lemma SFltb_negative_zero (X : spec_float) :
  SFpositive X ->
  SFltb (match X with
         | S754_zero _ => S754_zero true
         | S754_infinity _ => S754_infinity true
         | S754_finite _ m e => S754_finite true m e
         | S754_nan => S754_nan
         end) (S754_zero false) = true
  /\ SFltb (S754_zero false)
       (match X with
        | S754_zero _ => S754_zero true
        | S754_infinity _ => S754_infinity true
        | S754_finite _ m e => S754_finite true m e
        | S754_nan => S754_nan
        end) = false.
Proof.
  sf_destruct X; simpl; try contradiction; intros _; split; reflexivity.
Qed.

Lemma SFltb_positive_zero (X : spec_float) :
  SFpositive X ->
  SFltb X (S754_zero false) = false /\ SFltb (S754_zero false) X = true.
Proof.
  sf_destruct X; simpl; try contradiction; intros _; split; reflexivity.
Qed.

(** The sign of a difference of non-negative numbers tells their order. *)
Lemma SFsub_sign (X Y : spec_float) :
  valid_binary X = true -> valid_binary Y = true ->
  SFnonneg X -> SFnonneg Y ->
  SFltb (SF64sub X Y) (S754_zero false) = SFltb X Y
  /\ SFltb (S754_zero false) (SF64sub X Y) = SFltb Y X.
Proof.
  intros VX VY HX HY.
  destruct X as [sx|[|]| |[|] mx ex]; try contradiction;
    destruct Y as [sy|[|]| |[|] my ey]; try contradiction;
    try (destruct sx; simpl; auto; fail);
    try (destruct sx, sy; simpl; auto; fail);
    try (simpl; auto; fail).
  destruct (valid_mantissa _ _ _ VX) as (_ & Ex & _).
  destruct (valid_mantissa _ _ _ VY) as (_ & Ey & _).
  pose proof (valid_order _ _ mx my ex ey VX VY) as Oxy.
  pose proof (valid_order _ _ my mx ey ex VY VX) as Oyx.
  rewrite (Z.min_comm ey ex) in Oyx.
  unfold SF64sub, SFsub. cbn [cond_Zopp].
  pose proof (shl_align_fst mx ex (Z.min ex ey) (Z.le_min_l _ _)) as Px.
  pose proof (shl_align_fst my ey (Z.min ex ey) (Z.le_min_r _ _)) as Py.
  set (px := fst (shl_align mx ex (Z.min ex ey))) in *.
  set (py := fst (shl_align my ey (Z.min ex ey))) in *.
  rewrite <- Px, <- Py in Oxy, Oyx.
  assert (Hxy : SFltb (S754_finite false mx ex) (S754_finite false my ey)
                = (Zpos px <? Zpos py)).
  { destruct (Z.ltb_spec (Zpos px) (Zpos py)) as [L|L].
    - apply SFltb_finite. lia.
    - destruct (SFltb _ _) eqn:F; [|reflexivity].
      apply SFltb_finite in F. lia. }
  assert (Hyx : SFltb (S754_finite false my ey) (S754_finite false mx ex)
                = (Zpos py <? Zpos px)).
  { destruct (Z.ltb_spec (Zpos py) (Zpos px)) as [L|L].
    - apply SFltb_finite. lia.
    - destruct (SFltb (S754_finite false my ey) (S754_finite false mx ex))
        eqn:F; [|reflexivity].
      apply SFltb_finite in F. lia. }
  rewrite Hxy, Hyx.
  destruct (Zpos px - Zpos py) as [|d|d] eqn:D; cbn [binary_normalize].
  - assert (Zpos px = Zpos py) by lia.
    rewrite !(proj2 (Z.ltb_ge _ _)) by lia. split; reflexivity.
  - destruct (SFltb_positive_zero _ (binary_round_positive d (Z.min ex ey)
                                       ltac:(lia))) as [-> ->].
    rewrite (proj2 (Z.ltb_ge _ _)), (proj2 (Z.ltb_lt _ _)) by lia.
    split; reflexivity.
  - rewrite binary_round_sign.
    destruct (SFltb_negative_zero _ (binary_round_positive d (Z.min ex ey)
                                       ltac:(lia))) as [-> ->].
    rewrite (proj2 (Z.ltb_lt (Zpos px) (Zpos py))),
      (proj2 (Z.ltb_ge (Zpos py) (Zpos px))) by lia.
    split; reflexivity.
Qed.

(** In binary64 the sign of [b - a] is that of the comparison of [b] with
    [a], for numbers that are not negative. *)
Lemma float_sub_sign (a b : float) :
  nonNegative a -> nonNegative b ->
  greater zero (PrimFloat.sub b a) = greater a b
  /\ greater (PrimFloat.sub b a) zero = greater b a.
Proof.
  intros Ha Hb. apply nonNegative_float in Ha, Hb. simpl.
  rewrite !ltb_spec, sub_spec. change (Prim2SF 0) with (S754_zero false).
  destruct (SFsub_sign (Prim2SF b) (Prim2SF a)) as [E1 E2];
    auto using Prim2SF_valid.
Qed.

(** ** The bar chart *)

Section ChartFacts.
Context {N : Type} {num : Number N} {ord : OrderedNumber N}.
Variable sub : N -> N -> N.
Hypothesis sub_sign : signOfDifference sub.
Set Default Proof Using "Type + ord".

Local Abbreviation cmp := (byAmountDescending sub).
Local Abbreviation okEntry :=
  (fun x : ExpenseCategory * N => nonNegative (snd x)).

Lemma byAmountDescending_Gt (x y : ExpenseCategory * N) :
  okEntry x -> okEntry y ->
  (cmp x y = Gt <-> greater (snd y) (snd x) = true).
Proof using ord sub_sign.
  intros Nx Ny. unfold byAmountDescending.
  destruct (sub_sign (snd x) (snd y) Nx Ny) as [-> ->].
  destruct (greater (snd x) (snd y)) eqn:G.
  - rewrite (greater_asym _ _ Nx Ny G). split; discriminate.
  - destruct (greater (snd y) (snd x)); split; congruence.
Qed.

Lemma byAmountDescending_antisym (x y : ExpenseCategory * N) :
  okEntry x -> okEntry y -> cmp y x = CompOpp (cmp x y).
Proof using ord sub_sign.
  intros Nx Ny. unfold byAmountDescending.
  destruct (sub_sign (snd x) (snd y) Nx Ny) as [-> ->].
  destruct (sub_sign (snd y) (snd x) Ny Nx) as [-> ->].
  destruct (greater (snd x) (snd y)) eqn:G.
  - now rewrite (greater_asym _ _ Nx Ny G).
  - now destruct (greater (snd y) (snd x)).
Qed.

Lemma byAmountDescending_trans (x y z : ExpenseCategory * N) :
  okEntry x -> okEntry y -> okEntry z ->
  notAfter cmp x y -> notAfter cmp y z -> notAfter cmp x z.
Proof using ord sub_sign.
  intros Nx Ny Nz. unfold notAfter.
  rewrite !byAmountDescending_Gt by assumption.
  rewrite !not_true_iff_false. intros G1 G2.
  exact (notGreater_trans _ _ _ Nz Ny Nx G2 G1).
Qed.

(** What the sorted entries of a scan with positive amounts are. *)
Lemma sortedCategories_spec (l : list (Expense N)) (label : string) :
  Forall positiveAmount l ->
  let s := mkSummary (scanSummary (scanExpenses l))
             (scanGrandTotal (scanExpenses l)) (scanHighest (scanExpenses l))
             label in
  (forall c, In c (map fst (sortedCategories sub s))
             <-> exists e, In e l /\ category e = c)
  /\ NoDup (map fst (sortedCategories sub s))
  /\ Forall (fun x => snd x = scanSummary (scanExpenses l) (fst x)
                      /\ greater (snd x) zero = true)
       (sortedCategories sub s)
  /\ StronglySorted (fun x y => greater (snd y) (snd x) = false)
       (sortedCategories sub s).
Proof using ord sub_sign.
  intros Pl s. unfold sortedCategories. cbn [categoryTotals s].
  set (totals := scanSummary (scanExpenses l)).
  set (kept := filter (fun entry => greater (snd entry) zero)
                 (entries totals)).
  assert (Hkept : Forall (fun x => snd x = totals (fst x)
                                   /\ greater (snd x) zero = true) kept).
  { apply Forall_forall. intros x Hx. apply filter_In in Hx.
    destruct Hx as [Hx G]. split; [now apply entries_snd|exact G]. }
  assert (Hok : Forall (fun x : ExpenseCategory * N => nonNegative (snd x))
                  kept).
  { eapply Forall_impl; [|exact Hkept]. intros x [_ G].
    now apply positive_nonNegative. }
  assert (Hp : Permutation (map fst (sortBy cmp kept)) (map fst kept))
    by (apply Permutation_map, sortBy_perm).
  assert (Ek : map fst kept
               = filter (fun c => greater (totals c) zero)
                   CATEGORY_NAMES_ARRAY)
    by apply map_fst_filter_entries.
  split; [|split; [|split]].
  - intros c. rewrite <- (total_positive_iff l c Pl). fold totals.
    split.
    + intros Hc. apply (Permutation_in _ Hp) in Hc. rewrite Ek in Hc.
      now apply filter_In in Hc.
    + intros G. apply (Permutation_in _ (Permutation_sym Hp)). rewrite Ek.
      apply filter_In. split; [apply CATEGORY_NAMES_ARRAY_complete|exact G].
  - apply (Permutation_NoDup (Permutation_sym Hp)). rewrite Ek.
    apply NoDup_filter, CATEGORY_NAMES_ARRAY_NoDup.
  - now apply Forall_sortBy.
  - apply (StronglySorted_weaken (notAfter cmp) _
             (fun x : ExpenseCategory * N => nonNegative (snd x))).
    + intros a b Na Nb Hab. unfold notAfter in Hab.
      rewrite byAmountDescending_Gt in Hab by assumption.
      now apply not_true_iff_false.
    + now apply Forall_sortBy.
    + apply (sortBy_sorted cmp
               (fun x : ExpenseCategory * N => nonNegative (snd x))).
      * intros a b. apply byAmountDescending_antisym.
      * apply byAmountDescending_trans.
      * exact Hok.
Qed.

End ChartFacts.
Set Default Proof Using "Type".

(** X7: with positive amounts, whenever the month has a summary the chart
    is rendered; it has one bar for each category that has an expense in
    the month and no other, each with the category's total. *)
Theorem chart_has_bar_per_category_spent
  (N : Type) (num : Number N) (ord : OrderedNumber N)
  (sub div mul : N -> N -> N) (hundred : N)
  (formatMonthYear : string -> string)
  (expenses : list (Expense N)) (selectedMonth : string)
  (s : MonthlySummaryData N) :
  signOfDifference sub ->
  Forall positiveAmount expenses ->
  monthlySummaryData formatMonthYear expenses selectedMonth = Some s ->
  exists bars,
    MonthlyBarChart sub div mul hundred (Some s) = Some bars
    /\ (forall c,
          In c (map barCategory bars)
          <-> exists e,
                In e (expensesOfMonth expenses selectedMonth)
                /\ category e = c)
    /\ NoDup (map barCategory bars)
    /\ Forall (fun b =>
                 barAmount b = categoryTotals s (barCategory b)
                 /\ greater (barAmount b) zero = true
                 /\ barPercentage b
                    = mul (div (barAmount b) (grandTotal s)) hundred)
         bars.
Proof.
  intros Hsub Pl Hs.
  assert (Pm := Forall_expensesOfMonth _ _ selectedMonth Pl).
  assert (Hne : expensesOfMonth expenses selectedMonth <> []).
  { intros E.
    rewrite (monthlySummaryData_none_of_empty formatMonthYear _ _ E) in Hs.
    discriminate. }
  unfold monthlySummaryData in Hs.
  destruct (_ && _) in Hs; [discriminate|].
  injection Hs as <-.
  destruct (sortedCategories_spec sub Hsub _
              (formatMonthYear selectedMonth) Pm) as (Hin & Hnd & Hall & _).
  set (s := mkSummary _ _ _ _) in *.
  assert (G : greater (grandTotal s) zero = true).
  { apply scan_grandTotal_positive; auto. apply nonNegativeTotals_init. }
  unfold MonthlyBarChart.
  rewrite (greater_not_strictEq _ _ (positive_nonNegative _ G)
             zero_nonNegative G).
  eexists. split; [reflexivity|].
  rewrite map_map. cbn [barCategory].
  split; [exact Hin|]. split; [exact Hnd|].
  apply Forall_forall. intros b Hb. apply in_map_iff in Hb.
  destruct Hb as (x & <- & Hx). cbn [barAmount barCategory barPercentage].
  rewrite Forall_forall in Hall. destruct (Hall x Hx) as [E P].
  repeat split; assumption.
Qed.

(** X8: with positive amounts the bars come in descending order of amount,
    and the first bar's amount is the amount of [highestSpending]. *)
Theorem chart_descends_from_highest
  (N : Type) (num : Number N) (ord : OrderedNumber N)
  (sub div mul : N -> N -> N) (hundred : N)
  (formatMonthYear : string -> string)
  (expenses : list (Expense N)) (selectedMonth : string)
  (s : MonthlySummaryData N) :
  signOfDifference sub ->
  Forall positiveAmount expenses ->
  monthlySummaryData formatMonthYear expenses selectedMonth = Some s ->
  exists b rest h,
    MonthlyBarChart sub div mul hundred (Some s) = Some (b :: rest)
    /\ barsDescending (b :: rest)
    /\ highestSpending s = Some h
    /\ barAmount b = highAmount h.
Proof.
  intros Hsub Pl Hs.
  assert (Pm := Forall_expensesOfMonth _ _ selectedMonth Pl).
  assert (Hne : expensesOfMonth expenses selectedMonth <> []).
  { intros E.
    rewrite (monthlySummaryData_none_of_empty formatMonthYear _ _ E) in Hs.
    discriminate. }
  unfold monthlySummaryData in Hs.
  destruct (_ && _) in Hs; [discriminate|].
  injection Hs as <-.
  destruct (sortedCategories_spec sub Hsub _
              (formatMonthYear selectedMonth) Pm) as (Hin & _ & Hall & Hsorted).
  destruct (scan_highest_invariant _ Pm Hne)
    as (h & Hh & Hamt & Hpos & Hmax & _).
  set (s := mkSummary _ _ _ _) in *.
  assert (G : greater (grandTotal s) zero = true).
  { apply scan_grandTotal_positive; auto. apply nonNegativeTotals_init. }
  unfold MonthlyBarChart.
  rewrite (greater_not_strictEq _ _ (positive_nonNegative _ G)
             zero_nonNegative G).
  (* the entry of the highest category is among the sorted ones *)
  assert (Hcat : In (highCategory h) (map fst (sortedCategories sub s))).
  { apply Hin. apply (total_positive_iff _ _ Pm). now rewrite <- Hamt. }
  apply in_map_iff in Hcat. destruct Hcat as (xh & Exh & Hxh).
  rewrite Forall_forall in Hall.
  destruct (Hall xh Hxh) as [Eamt _]. rewrite Exh, <- Hamt in Eamt.
  destruct (sortedCategories sub s) as [|x xs] eqn:Es; [destruct Hxh|].
  exists (mkBar (fst x) (snd x) (mul (div (snd x) (grandTotal s)) hundred)).
  eexists. exists h. split; [reflexivity|].
  split; [|split; [exact Hh|]].
  - change (barsDescending
              (map (fun entry =>
                      mkBar (fst entry) (snd entry)
                        (mul (div (snd entry) (grandTotal s)) hundred))
                 (x :: xs))).
    unfold barsDescending.
    apply (StronglySorted_map _
             (fun a b => greater (barAmount b) (barAmount a) = false)).
    exact Hsorted.
  - cbn [barAmount].
    destruct (Hall x (or_introl eq_refl)) as [Ex Px].
    assert (L1 : greater (snd x) (highAmount h) = false)
      by (rewrite Ex; apply Hmax).
    assert (L2 : greater (highAmount h) (snd x) = false).
    { destruct Hxh as [<-|Hxh]; [rewrite Eamt; apply greater_irrefl|].
      inversion Hsorted as [|? ? _ Hx]; subst.
      rewrite Forall_forall in Hx. rewrite <- Eamt. now apply Hx. }
    destruct (greater_total (snd x) (highAmount h)
                (positive_nonNegative _ Px) (positive_nonNegative _ Hpos))
      as [T|[T|T]]; try congruence.
    exact (strictEq_positive _ _ T Px).
Qed.

Lemma float_signOfDifference : signOfDifference PrimFloat.sub.
Proof. intros a b. apply float_sub_sign. Qed.

Lemma chart_has_bar_per_category_spent_witness :
  exists s bars,
    monthlySummaryData (fun m => m) roundingExpenses "2024-05" = Some s
    /\ MonthlyBarChart PrimFloat.sub PrimFloat.div PrimFloat.mul 100%float
         (Some s) = Some bars
    /\ NoDup (map barCategory bars).
Proof.
  eexists.
  destruct (chart_has_bar_per_category_spent float Number_float
              OrderedNumber_float PrimFloat.sub PrimFloat.div PrimFloat.mul
              100%float (fun m => m) roundingExpenses "2024-05" _
              float_signOfDifference
              ltac:(repeat constructor; vm_compute; reflexivity) eq_refl)
    as (bars & E & _ & Hnd & _).
  exists bars. split; [reflexivity|]. split; [exact E|exact Hnd].
Defined.

Lemma chart_descends_from_highest_witness :
  exists s b rest h,
    monthlySummaryData (fun m => m) tiedExpenses "2024-05" = Some s
    /\ MonthlyBarChart PrimFloat.sub PrimFloat.div PrimFloat.mul 100%float
         (Some s) = Some (b :: rest)
    /\ highestSpending s = Some h
    /\ barAmount b = highAmount h.
Proof.
  eexists.
  destruct (chart_descends_from_highest float Number_float
              OrderedNumber_float PrimFloat.sub PrimFloat.div PrimFloat.mul
              100%float (fun m => m) tiedExpenses "2024-05" _
              float_signOfDifference
              ltac:(repeat constructor; vm_compute; reflexivity) eq_refl)
    as (b & rest & h & E & _ & Hh & Hb).
  exists b, rest, h. split; [reflexivity|]. auto.
Defined.

(** In the tie of [tiedExpenses] the chart puts ALIMENTACAO first, the
    first key of the totals, while [highestSpending] is TRANSPORTE, the
    first to reach the amount. *)
Example chart_of_tie :
  option_map (map (fun b => (barCategory b, barAmount b, barPercentage b)))
    (MonthlyBarChart PrimFloat.sub PrimFloat.div PrimFloat.mul 100%float
       (monthlySummaryData (fun m => m) tiedExpenses "2024-05"))
  = Some [(ALIMENTACAO, 0.5%float, 50%float);
          (TRANSPORTE, 0.5%float, 50%float)].
Proof. vm_compute. reflexivity. Qed.

(** ** Sorting an ascending list *)

Section SortedFacts.
Context {A : Type}.
Variable cmp : A -> A -> comparison.

Lemma insertSorted_first (x : A) (l : list A) :
  Forall (notAfter cmp x) l -> insertSorted cmp x l = x :: l.
Proof.
  intros Hl. destruct l as [|y l]; [reflexivity|].
  inversion Hl as [|? ? Hy _]; subst. simpl. unfold notAfter in Hy.
  destruct (cmp x y); congruence.
Qed.


End SortedFacts.

Section InsertFacts.
Context {N : Type}.
Variable Date_getTime : string -> option Z.

Local Abbreviation byDate' := (byDate (N := N) Date_getTime).

Lemma notLater_notAfter (a b : Expense N) :
  notLater Date_getTime a b -> notAfter byDate' a b.
Proof.
  unfold notLater, notAfter, byDate.
  destruct (Date_getTime (date a)), (Date_getTime (date b)); simpl;
    try contradiction.
  rewrite Z.compare_gt_iff. lia.
Qed.


Lemma notLater_trans (a b c : Expense N) :
  notLater Date_getTime a b -> notLater Date_getTime b c ->
  notLater Date_getTime a c.
Proof.
  unfold notLater.
  destruct (Date_getTime (date a)), (Date_getTime (date b)),
    (Date_getTime (date c)); try contradiction; lia.
Qed.

Lemma byDate_Gt (a b : Expense N) :
  hasTime Date_getTime a -> hasTime Date_getTime b ->
  (byDate' a b = Gt -> laterThan Date_getTime b a)
  /\ (byDate' a b <> Gt -> notLater Date_getTime a b).
Proof.
  intros [x Hx] [y Hy]. unfold byDate, laterThan, notLater.
  rewrite Hx, Hy. simpl. rewrite Z.compare_gt_iff. lia.
Qed.

(** Where the sort puts a record appended to an ascending list: behind
    the records dated no later, before those dated later. *)
Lemma sortBy_append (l : list (Expense N)) (e : Expense N) :
  dateAscending Date_getTime l -> hasTime Date_getTime e ->
  exists l1 l2,
    l = l1 ++ l2
    /\ sortBy byDate' (l ++ [e]) = l1 ++ e :: l2
    /\ Forall (fun x => notLater Date_getTime x e) l1
    /\ Forall (laterThan Date_getTime e) l2.
Proof.
  intros [Hl Sl] He. induction Sl as [|x l Sl IH Hx].
  - exists [], []. repeat split; constructor.
  - inversion Hl as [|? ? Tx Hl']; subst.
    destruct (IH Hl') as (l1 & l2 & -> & E & F1 & F2).
    cbn [app sortBy]. rewrite E.
    destruct l1 as [|y l1].
    + cbn [app insertSorted]. destruct (byDate_Gt x e Tx He) as [G NG].
      destruct (byDate' x e) eqn:C.
      * exists [x], l2. repeat split; auto.
        constructor; [|constructor]. apply NG. discriminate.
      * exists [x], l2. repeat split; auto.
        constructor; [|constructor]. apply NG. discriminate.
      * exists [], (x :: l2). cbn [app]. split; [reflexivity|].
        split; [|split; [constructor|constructor; auto]].
        f_equal. apply insertSorted_first.
        eapply Forall_impl; [|exact Hx]. intros b. apply notLater_notAfter.
    + exists (x :: y :: l1), l2. split; [reflexivity|].
      inversion Hx as [|? ? Hxy _]; subst.
      inversion F1 as [|? ? Hye _]; subst.
      split; [|split; [|exact F2]].
      * cbn [app insertSorted].
        pose proof (notLater_notAfter x y Hxy) as Hn. unfold notAfter in Hn.
        destruct (byDate' x y); congruence.
      * constructor; [|exact F1]. exact (notLater_trans _ _ _ Hxy Hye).
Qed.

End InsertFacts.

(** ** The first commit and the events *)

Section ComponentFacts.
Context {N : Type} `{Number N}.
Variable Date_getTime : string -> option Z.
Variable localeCompare : string -> string -> comparison.
Variable formatCurrency : N -> string.
Variable formatMonthYear : string -> string.
Variable currentMonth : string.

Local Abbreviation mount' := (mount Date_getTime localeCompare currentMonth).
Local Abbreviation dispatch' :=
  (dispatch Date_getTime localeCompare formatCurrency formatMonthYear
     currentMonth).
Local Abbreviation dispatchAll' :=
  (dispatchAll Date_getTime localeCompare formatCurrency formatMonthYear
     currentMonth).
Local Abbreviation onClickMonth' := (onClickMonth localeCompare currentMonth).
Local Abbreviation onKeyPress' :=
  (onKeyPress Date_getTime localeCompare formatCurrency formatMonthYear
     currentMonth).
Local Abbreviation settled' :=
  (settled Date_getTime localeCompare currentMonth).
Local Abbreviation loadable' := (loadable Date_getTime).
Local Abbreviation SubmitResult' := (SubmitResult Date_getTime formatCurrency).
Local Abbreviation submit' :=
  (submit Date_getTime localeCompare formatCurrency formatMonthYear
     currentMonth).
Local Abbreviation runEffects' := (runEffects localeCompare currentMonth).
Local Abbreviation availableMonths' :=
  (availableMonths localeCompare currentMonth).

Lemma currentMonth_available (l : list (Expense N)) :
  In currentMonth (availableMonths' l).
Proof. apply availableMonths_In. now left. Qed.

Lemma mount_returns (apiKey : bool) (item : option (StoredText N)) :
  loadable' item ->
  mount' apiKey item
  = Returned
      (mkState
         (match item with
          | Some (Serialized l) => sortBy (byDate Date_getTime) l
          | _ => []
          end)
         (match item with Some (Serialized _) => 1%nat | _ => 0%nat end)
         "" false
         (if apiKey then None
          else Some (mkToast MsgGeminiKeyMissing error))
         apiKey currentMonth
         (Some (Serialized
                  (match item with
                   | Some (Serialized l) => sortBy (byDate Date_getTime) l
                   | _ => []
                   end)))).
Proof.
  intros L. unfold mount, mountEffect.
  destruct item as [[| | |l]|]; try contradiction; destruct apiKey; simpl;
    unfold runEffects; simpl; rewrite ?String.eqb_refl; try reflexivity.
  all: f_equal;
    apply (selectedMonthEffect_included localeCompare currentMonth);
    apply currentMonth_available.
Qed.

Lemma runEffects_before (b1 b2 st : AppState N) :
  expensesRef b1 = expensesRef b2 -> selectedMonth b1 = selectedMonth b2 ->
  runEffects' b1 st = runEffects' b2 st.
Proof. intros E1 E2. unfold runEffects. now rewrite E1, E2. Qed.

Lemma submit_result (env : Answers N) (st : AppState N) :
  SubmitResult' env st (finalState (submit' env st)).
Proof.
  unfold submit, handleProcessInput.
  destruct (trimIsEmpty (userInput st)) eqn:T; simpl.
  { destruct (negb (apiKeyExists st)); simpl;
      rewrite runEffects_unchanged by reflexivity; now apply Kept. }
  destruct (apiKeyExists st) eqn:K; simpl.
  2:{ rewrite runEffects_unchanged by reflexivity. now apply Kept. }
  destruct (interpretAnswer env (userInput st)) as [[[[] [c|]]|]|] eqn:I;
    cbn -[handleAddExpense runEffects validDate];
    try (rewrite runEffects_unchanged by reflexivity; now apply Kept).
  all: destruct (parseAnswer env (userInput st))
         as [[[[v|] [d|] [dt|]]|]|] eqn:P;
    cbn -[handleAddExpense runEffects validDate];
    try (rewrite runEffects_unchanged by reflexivity; now apply Kept).
  all: destruct (validDate Date_getTime dt) eqn:V;
    [|rewrite handleAddExpense_invalid by exact V; simpl;
      rewrite runEffects_unchanged by reflexivity; now apply Kept].
  all: destruct (categorizeAnswer env d) as [cat|] eqn:C;
    [|unfold handleAddExpense; simpl; rewrite C; simpl;
      rewrite runEffects_unchanged by reflexivity; now apply Kept].
  all: apply (Registered Date_getTime formatCurrency env st _ v d dt); eauto;
    try congruence.
  all: rewrite <- (addExpense_success Date_getTime localeCompare
                     formatCurrency currentMonth env (setIsLoading true st)
                     v d dt (userInput st) V) by congruence.
  all: unfold addExpense; destruct (run env _); simpl;
    apply runEffects_before; reflexivity.
Qed.

Lemma last_In {A} (l : list A) (d : A) : l <> [] -> In (last l d) l.
Proof.
  induction l as [|x [|y l] IH]; intros Hne; [congruence|now left|].
  right. apply IH. discriminate.
Qed.

(** The effect on the selected month leaves an available month selected
    and touches nothing else. *)
Lemma selectedMonthEffect_spec (st : AppState N) :
  exists m,
    In m (availableMonths' (expenses st))
    /\ (In (selectedMonth st) (availableMonths' (expenses st)) ->
        m = selectedMonth st)
    /\ selectedMonthEffect localeCompare currentMonth st
       = setSelectedMonth m st.
Proof.
  unfold selectedMonthEffect.
  pose proof (currentMonth_available (expenses st)) as Hcur.
  destruct (availableMonths' (expenses st)) as [|m0 ms] eqn:E;
    [destruct Hcur|].
  destruct (setHas (m0 :: ms) (selectedMonth st)) eqn:S.
  - apply setHas_In in S. exists (selectedMonth st). simpl.
    split; [exact S|]. split; [reflexivity|]. now destruct st.
  - assert (Hl : In (last (m0 :: ms) "") (m0 :: ms))
      by (apply last_In; discriminate).
    cbn [Datatypes.length Nat.ltb Nat.leb negb andb].
    destruct (last (m0 :: ms) "") as [|c r] eqn:L.
    + exists currentMonth. split; [exact Hcur|]. split; [|reflexivity].
      intros Hin. apply setHas_In in Hin. congruence.
    + exists (String c r). split; [exact Hl|]. split; [|reflexivity].
      intros Hin. apply setHas_In in Hin. congruence.
Qed.

Lemma onClickMonth_available (monthStr : string) (st : AppState N) :
  In monthStr (availableMonths' (expenses st)) ->
  onClickMonth' monthStr st = setSelectedMonth monthStr st.
Proof.
  intros Hin. unfold onClickMonth, runEffects.
  cbn [setSelectedMonth expensesRef selectedMonth].
  rewrite Nat.eqb_refl. cbn [andb].
  destruct (String.eqb (selectedMonth st) monthStr); [reflexivity|].
  now apply selectedMonthEffect_included.
Qed.

Lemma settled_submit (env : Answers N) (st : AppState N) :
  settled' st -> settled' (finalState (submit' env st)).
Proof.
  intros (Hs & Hm & Ha).
  destruct (submit_result env st) as [E1 _ E3 E4|v d dt _ _ _ _ V C ->].
  - unfold settled. now rewrite E1, E3, E4.
  - unfold settled, persistEffect, setItemExpenses, addedState.
    cbn [expenses storedExpenses selectedMonth].
    split; [reflexivity|]. split.
    + apply availableMonths_In. right.
      exists (builtExpense env v d dt (userInput (setIsLoading true st))).
      split; [|reflexivity].
      apply sortBy_In, in_or_app. right. now left.
    + apply sortBy_byDate_ascending, Forall_app. split; [apply Ha|].
      constructor; [|constructor].
      now apply validDate_hasTime.
Qed.

Lemma settled_dispatch (st : AppState N) (ev : Event N) :
  settled' st -> settled' (dispatch' st ev).
Proof.
  intros Hst. destruct ev as [env|key env|m|v|]; cbn [dispatch].
  - destruct (buttonDisabled st); [exact Hst|now apply settled_submit].
  - destruct (inputDisabled st); [exact Hst|]. unfold onKeyPress.
    destruct (_ && _); [now apply settled_submit|exact Hst].
  - destruct (setHas _ m) eqn:S; [|exact Hst].
    apply setHas_In in S. rewrite (onClickMonth_available m st S).
    destruct Hst as (Hs & _ & Ha). now split.
  - destruct (inputDisabled st); exact Hst.
  - destruct (toast st); exact Hst.
Qed.

Lemma settled_dispatchAll (evs : list (Event N)) (st : AppState N) :
  settled' st -> settled' (dispatchAll' st evs).
Proof.
  revert st. induction evs as [|ev evs IH]; intros st Hst; [exact Hst|].
  apply IH. now apply settled_dispatch.
Qed.

Lemma settled_mount (apiKey : bool) (item : option (StoredText N)) :
  loadable' item -> settled' (finalState (mount' apiKey item)).
Proof.
  intros L. rewrite (mount_returns apiKey item L).
  unfold settled. cbn [finalState storedExpenses expenses selectedMonth].
  split; [reflexivity|]. split; [apply currentMonth_available|].
  destruct item as [[| | |l]|]; try contradiction;
    try (split; constructor).
  now apply sortBy_byDate_ascending.
Qed.

(** A submission keeps the records of the list and adds at most one. *)
Lemma submit_grows (env : Answers N) (st : AppState N) :
  exists l,
    Permutation (expenses (finalState (submit' env st))) (expenses st ++ l)
    /\ (List.length l <= 1)%nat.
Proof.
  destruct (submit_result env st) as [E1 _ _ _|v d dt _ _ _ _ V C ->].
  - exists []. rewrite E1, app_nil_r. split; [reflexivity|simpl; lia].
  - eexists [_]. split; [|simpl; lia].
    cbn [persistEffect setItemExpenses addedState expenses].
    apply sortBy_perm.
Qed.

Lemma dispatch_grows (st : AppState N) (ev : Event N) :
  exists l,
    Permutation (expenses (dispatch' st ev)) (expenses st ++ l)
    /\ (List.length l <= 1)%nat.
Proof.
  assert (Hsame : exists l,
             Permutation (expenses st) (expenses st ++ l)
             /\ (List.length l <= 1)%nat).
  { exists []. rewrite app_nil_r. split; [reflexivity|simpl; lia]. }
  destruct ev as [env|key env|m|v|]; cbn [dispatch].
  - destruct (buttonDisabled st); [exact Hsame|apply submit_grows].
  - destruct (inputDisabled st); [exact Hsame|]. unfold onKeyPress.
    destruct (_ && _); [apply submit_grows|exact Hsame].
  - destruct (setHas _ m) eqn:S; [|exact Hsame].
    apply setHas_In in S. rewrite (onClickMonth_available m st S).
    exact Hsame.
  - destruct (inputDisabled st); exact Hsame.
  - destruct (toast st); exact Hsame.
Qed.

Lemma dispatch_disabled (st : AppState N) (ev : Event N) :
  inputDisabled st = true -> sameSession st (dispatch' st ev).
Proof.
  intros D.
  assert (Hsame : sameSession st st) by (repeat split).
  assert (B : buttonDisabled st = true).
  { unfold buttonDisabled, inputDisabled in *.
    destruct (isLoading st), (apiKeyExists st), (trimIsEmpty _);
      simpl in *; congruence. }
  destruct ev as [env|key env|m|v|]; cbn [dispatch]; rewrite ?B, ?D;
    try exact Hsame.
  - destruct (setHas _ m) eqn:S; [|exact Hsame].
    apply setHas_In in S. rewrite (onClickMonth_available m st S).
    repeat split.
  - destruct (toast st); repeat split.
Qed.

Lemma runEffects_fields (before st : AppState N) :
  expenses (runEffects' before st) = expenses st
  /\ userInput (runEffects' before st) = userInput st
  /\ isLoading (runEffects' before st) = isLoading st
  /\ toast (runEffects' before st) = toast st
  /\ apiKeyExists (runEffects' before st) = apiKeyExists st.
Proof.
  unfold runEffects.
  destruct (Nat.eqb _ _); cbn [andb];
    [destruct (String.eqb _ _); [repeat split|]|];
    match goal with
    | |- context [selectedMonthEffect _ _ ?s] =>
        destruct (selectedMonthEffect_spec s) as (m & _ & _ & ->)
    end; repeat split.
Qed.

(** The toast a submission leaves when the key is there. *)
Lemma submit_toast (env : Answers N) (st : AppState N) :
  apiKeyExists st = true ->
  toast (finalState (submit' env st)) = toast st
  \/ exists m t,
       toast (finalState (submit' env st)) = Some (mkToast m t)
       /\ m <> MsgApiKeyMissing.
Proof.
  intros K.
  assert (R : forall o : Outcome N,
             finalState
               match o with
               | Returned st' => Returned (runEffects' st st')
               | Threw st' => Threw (runEffects' st st')
               end
             = runEffects' st (finalState o)) by (now intros []).
  unfold submit. rewrite R.
  destruct (runEffects_fields st
              (finalState (run env (handleProcessInput Date_getTime
                                      formatCurrency formatMonthYear st))))
    as (_ & _ & _ & -> & _).
  unfold handleProcessInput. rewrite K.
  destruct (trimIsEmpty (userInput st)) eqn:T; simpl.
  { right. eexists _, _. split; [reflexivity|discriminate]. }
  destruct (interpretAnswer env (userInput st)) as [[[[] [c|]]|]|] eqn:I;
    cbn -[handleAddExpense validDate];
    try (now left);
    try (right; eexists _, _; split; [reflexivity|discriminate]).
  all: destruct (parseAnswer env (userInput st))
         as [[[[v|] [d|] [dt|]]|]|] eqn:P;
    cbn -[handleAddExpense validDate];
    try (now left);
    try (right; eexists _, _; split; [reflexivity|discriminate]).
  all: destruct (validDate Date_getTime dt) eqn:V;
    [|rewrite handleAddExpense_invalid by exact V; simpl;
      right; eexists _, _; split; [reflexivity|];
      destruct (categorizeAnswer env d); discriminate].
  all: destruct (categorizeAnswer env d) as [cat|] eqn:C;
    [rewrite handleAddExpense_success by congruence
    |unfold handleAddExpense; simpl; rewrite C];
    simpl; right; eexists _, _; split; try reflexivity; discriminate.
Qed.

Lemma dispatch_toast (st : AppState N) (ev : Event N) :
  toast (dispatch' st ev) = toast st
  \/ toast (dispatch' st ev) = None
  \/ exists m t,
       toast (dispatch' st ev) = Some (mkToast m t) /\ m <> MsgApiKeyMissing.
Proof.
  destruct ev as [env|key env|m|v|]; cbn [dispatch].
  - destruct (buttonDisabled st) eqn:B; [now left|].
    unfold buttonDisabled in B.
    destruct (apiKeyExists st) eqn:K;
      [|rewrite orb_true_r in B; discriminate].
    destruct (submit_toast env st K) as [E|E]; auto.
  - destruct (inputDisabled st) eqn:D; [now left|].
    unfold inputDisabled in D.
    destruct (apiKeyExists st) eqn:K;
      [|rewrite orb_true_r in D; discriminate].
    unfold onKeyPress. destruct (_ && _); [|now left].
    destruct (submit_toast env st K) as [E|E]; auto.
  - destruct (setHas _ m) eqn:S; [|now left].
    apply setHas_In in S. rewrite (onClickMonth_available m st S). now left.
  - destruct (inputDisabled st); now left.
  - destruct (toast st) eqn:E; [right; left; reflexivity|left; exact E].
Qed.

End ComponentFacts.

(** X9: an add puts the new record behind the stored records dated no
    later than it and before those dated later; the stored records keep
    their places among themselves. *)
Theorem add_inserts_behind_not_later
  (N : Type) (Date_getTime : string -> option Z)
  (localeCompare : string -> string -> comparison)
  (formatCurrency : N -> string) (currentMonth : string)
  (env : Answers N) (st : AppState N) (valor : N)
  (descricao data originalInputText : string) :
  dateAscending Date_getTime (expenses st) ->
  validDate Date_getTime data = true ->
  categorizeAnswer env descricao <> Rejected ->
  exists l1 l2,
    expenses st = l1 ++ l2
    /\ expenses (addExpense Date_getTime localeCompare formatCurrency
                   currentMonth env st valor descricao data originalInputText)
       = l1 ++ builtExpense env valor descricao data originalInputText :: l2
    /\ Forall (fun x =>
                 notLater Date_getTime x
                   (builtExpense env valor descricao data originalInputText))
         l1
    /\ Forall (laterThan Date_getTime
                 (builtExpense env valor descricao data originalInputText))
         l2.
Proof.
  intros Ha V C. rewrite addExpense_success by assumption.
  cbn [persistEffect setItemExpenses addedState expenses].
  apply sortBy_append; [exact Ha|]. now apply validDate_hasTime.
Qed.

Lemma add_inserts_behind_not_later_witness :
  map id
    (expenses
       (addExpense isoDateTime String.compare formatReais "2024-05"
          (sampleAnswers "2024-05-01") sampleState 12 "Cafe" "2024-05-01"
          "Cafe 12 dia 1"))
  = ["a"; "id-2024-05-01"; "b"].
Proof.
  destruct (add_inserts_behind_not_later Z isoDateTime String.compare
              formatReais "2024-05" (sampleAnswers "2024-05-01") sampleState
              12 "Cafe" "2024-05-01" "Cafe 12 dia 1")
    as (l1 & l2 & _ & E & _).
  - split.
    + repeat constructor; eexists; reflexivity.
    + repeat constructor. unfold notLater. vm_compute. discriminate.
  - reflexivity.
  - discriminate.
  - reflexivity.
Defined.

(** X10: an add leaves the list and the summary of every month that the
    new date does not start with as they were. *)
Theorem add_leaves_other_months
  (N : Type) (num : Number N) (Date_getTime : string -> option Z)
  (localeCompare : string -> string -> comparison)
  (formatCurrency : N -> string) (formatMonthYear : string -> string)
  (currentMonth : string)
  (env : Answers N) (st : AppState N) (valor : N)
  (descricao data originalInputText month : string) :
  dateAscending Date_getTime (expenses st) ->
  validDate Date_getTime data = true ->
  categorizeAnswer env descricao <> Rejected ->
  startsWith data month = false ->
  expensesOfMonth
    (expenses (addExpense Date_getTime localeCompare formatCurrency
                 currentMonth env st valor descricao data originalInputText))
    month
  = expensesOfMonth (expenses st) month
  /\ monthlySummaryData formatMonthYear
       (expenses (addExpense Date_getTime localeCompare formatCurrency
                    currentMonth env st valor descricao data
                    originalInputText))
       month
     = monthlySummaryData formatMonthYear (expenses st) month.
Proof.
  intros Ha V C Hm. rewrite addExpense_success by assumption.
  cbn [persistEffect setItemExpenses addedState expenses].
  destruct (sortBy_append Date_getTime (expenses st)
              (builtExpense env valor descricao data originalInputText) Ha)
    as (l1 & l2 & El & -> & _); [now apply validDate_hasTime|].
  assert (E : expensesOfMonth
                (l1 ++ builtExpense env valor descricao data originalInputText
                    :: l2) month
              = expensesOfMonth (expenses st) month).
  { unfold expensesOfMonth. rewrite El, !filter_app.
    cbn [filter date builtExpense].
    now rewrite Hm. }
  split; [exact E|]. unfold monthlySummaryData. now rewrite E.
Qed.

Lemma add_leaves_other_months_witness :
  monthlySummaryData (fun m => m)
    (expenses
       (addExpense isoDateTime String.compare formatReais "2024-05"
          (sampleAnswers "2024-06-10") sampleState 30 "Lanche" "2024-06-10"
          "Lanche R$30 dia 10/06"))
    "2024-05"
  = monthlySummaryData (fun m => m) (expenses sampleState) "2024-05".
Proof.
  apply (add_leaves_other_months Z Number_Z isoDateTime String.compare
           formatReais (fun m => m) "2024-05" (sampleAnswers "2024-06-10")
           sampleState 30 "Lanche" "2024-06-10" "Lanche R$30 dia 10/06"
           "2024-05").
  - split.
    + repeat constructor; eexists; reflexivity.
    + repeat constructor. unfold notLater. vm_compute. discriminate.
  - reflexivity.
  - discriminate.
  - reflexivity.
Defined.



(** X12: after the first commit and the render it causes, the list is the
    stored array sorted by date (empty when there was no entry, or an
    empty one), [localStorage] holds the text of that list, and the
    current month is selected. *)
Theorem mount_stores_what_it_shows
  (N : Type) (Date_getTime : string -> option Z)
  (localeCompare : string -> string -> comparison) (currentMonth : string)
  (apiKey : bool) (item : option (StoredText N)) :
  loadable Date_getTime item ->
  exists st,
    mount Date_getTime localeCompare currentMonth apiKey item = Returned st
    /\ expenses st
       = match item with
         | Some (Serialized l) => sortBy (byDate Date_getTime) l
         | _ => []
         end
    /\ storedExpenses st = Some (Serialized (expenses st))
    /\ selectedMonth st = currentMonth
    /\ apiKeyExists st = apiKey
    /\ isLoading st = false.
Proof.
  intros L. rewrite (mount_returns _ _ _ apiKey item L).
  eexists. split; [reflexivity|]. repeat split.
Qed.

Lemma mount_stores_what_it_shows_witness :
  exists st,
    mount isoDateTime String.compare "2024-05" true
      (Some (Serialized (rev scenarioExpenses))) = Returned st
    /\ map id (expenses st) = ["a"; "b"]
    /\ storedExpenses st = Some (Serialized (expenses st)).
Proof.
  destruct (mount_stores_what_it_shows Z isoDateTime String.compare "2024-05"
              true (Some (Serialized (rev scenarioExpenses))))
    as (st & E & L & S & _).
  - repeat constructor; eexists; reflexivity.
  - exists st. split; [exact E|]. split; [|exact S]. now rewrite L.
Defined.

(** X13: when the entry of [localStorage] is absent, empty, or the text of
    an array of records whose dates all have time values, then from the
    mount on, whatever the user does, after every event the entry is the
    text of the list, the selected month is one of the available months,
    and the list ascends by date. *)
Theorem session_keeps_store_settled
  (N : Type) (num : Number N) (Date_getTime : string -> option Z)
  (localeCompare : string -> string -> comparison)
  (formatCurrency : N -> string) (formatMonthYear : string -> string)
  (currentMonth : string) (apiKey : bool) (item : option (StoredText N))
  (evs : list (Event N)) :
  loadable Date_getTime item ->
  settled Date_getTime localeCompare currentMonth
    (dispatchAll Date_getTime localeCompare formatCurrency formatMonthYear
       currentMonth
       (finalState (mount Date_getTime localeCompare currentMonth apiKey item))
       evs).
Proof.
  intros L. apply settled_dispatchAll. now apply settled_mount.
Qed.

Lemma session_keeps_store_settled_witness :
  settled isoDateTime String.compare "2024-05"
    (dispatchAll isoDateTime String.compare formatReais (fun m => m) "2024-05"
       (finalState
          (mount isoDateTime String.compare "2024-05" true
             (Some (Serialized scenarioExpenses))))
       sampleEvents).
Proof.
  apply (session_keeps_store_settled Z Number_Z isoDateTime String.compare
           formatReais (fun m => m) "2024-05" true
           (Some (Serialized scenarioExpenses)) sampleEvents).
  repeat constructor; eexists; reflexivity.
Defined.

Example sampleEvents_session :
  let st :=
    dispatchAll isoDateTime String.compare formatReais (fun m => m) "2024-05"
      (finalState
         (mount isoDateTime String.compare "2024-05" true
            (Some (Serialized scenarioExpenses))))
      sampleEvents in
  map id (expenses st) = ["a"; "b"; "id-2024-06-10"]
  /\ selectedMonth st = "2024-05" /\ userInput st = "" /\ toast st = None.
Proof. vm_compute. repeat split. Qed.

(** X14: an event never removes or alters a stored record, and adds at
    most one: after any events the list holds the records it held and at
    most as many new ones as there were events. *)
Theorem session_never_deletes
  (N : Type) (num : Number N) (Date_getTime : string -> option Z)
  (localeCompare : string -> string -> comparison)
  (formatCurrency : N -> string) (formatMonthYear : string -> string)
  (currentMonth : string) (st : AppState N) (evs : list (Event N)) :
  exists l,
    Permutation
      (expenses (dispatchAll Date_getTime localeCompare formatCurrency
                   formatMonthYear currentMonth st evs))
      (expenses st ++ l)
    /\ (List.length l <= List.length evs)%nat.
Proof.
  unfold dispatchAll. revert st. induction evs as [|ev evs IH]; intros st.
  - exists []. rewrite app_nil_r. split; [reflexivity|simpl; lia].
  - cbn [fold_left].
    destruct (dispatch_grows Date_getTime localeCompare formatCurrency
                formatMonthYear currentMonth st ev) as (l1 & P1 & L1).
    destruct (IH (dispatch Date_getTime localeCompare formatCurrency
                    formatMonthYear currentMonth st ev)) as (l2 & P2 & L2).
    exists (l1 ++ l2). split.
    + rewrite P2, P1, app_assoc. reflexivity.
    + rewrite length_app. simpl. lia.
Qed.

(** X15: a submission that passes the guard either returns with
    [isLoading] false, or throws because the interpreter's or the
    parser's call rejected, and then leaves [isLoading] true and the
    rest of the state as it was. *)
Theorem submission_returns_or_stays_loading
  (N : Type) (num : Number N) (Date_getTime : string -> option Z)
  (localeCompare : string -> string -> comparison)
  (formatCurrency : N -> string) (formatMonthYear : string -> string)
  (currentMonth : string) (env : Answers N) (st : AppState N) :
  trimIsEmpty (userInput st) = false ->
  apiKeyExists st = true ->
  (submit Date_getTime localeCompare formatCurrency formatMonthYear
     currentMonth env st = Threw (setIsLoading true st)
   /\ (interpretAnswer env (userInput st) = Rejected
       \/ ((exists q, interpretAnswer env (userInput st)
                      = Resolved (Some (mkQuery REGISTRO_DESPESA q)))
           /\ parseAnswer env (userInput st) = Rejected)))
  \/ (exists st',
        submit Date_getTime localeCompare formatCurrency formatMonthYear
          currentMonth env st = Returned st'
        /\ isLoading st' = false
        /\ interpretAnswer env (userInput st) <> Rejected
        /\ ((exists q, interpretAnswer env (userInput st)
                       = Resolved (Some (mkQuery REGISTRO_DESPESA q))) ->
            parseAnswer env (userInput st) <> Rejected)).
Proof.
  intros T K. unfold submit, handleProcessInput. rewrite T, K. simpl.
  destruct (interpretAnswer env (userInput st)) as [[[[] [c|]]|]|] eqn:I;
    cbn -[handleAddExpense runEffects validDate];
    try (left; rewrite runEffects_unchanged by reflexivity;
         split; [reflexivity|now left]);
    try (right; eexists; split; [reflexivity|];
         rewrite runEffects_unchanged by reflexivity;
         split; [reflexivity|]; split; [discriminate|];
         intros [q Hq]; discriminate).
  all: destruct (parseAnswer env (userInput st))
         as [[[[v|] [d|] [dt|]]|]|] eqn:P;
    cbn -[handleAddExpense runEffects validDate];
    try (left; rewrite runEffects_unchanged by reflexivity;
         split; [reflexivity|right; split; [eauto|reflexivity]]);
    try (right; eexists; split; [reflexivity|];
         rewrite runEffects_unchanged by reflexivity;
         split; [reflexivity|]; split; discriminate).
  all: right.
  all: destruct (validDate Date_getTime dt) eqn:V;
    [|rewrite handleAddExpense_invalid by exact V; eexists;
      split; [reflexivity|]; rewrite runEffects_unchanged by reflexivity;
      split; [reflexivity|]; split; discriminate].
  all: destruct (categorizeAnswer env d) as [cat|] eqn:C;
    [rewrite handleAddExpense_success by congruence
    |unfold handleAddExpense; simpl; rewrite C; simpl];
    eexists; (split; [reflexivity|]);
    destruct (runEffects_fields localeCompare currentMonth st
                (addedState Date_getTime formatCurrency env
                   (setIsLoading true st) v d dt (userInput st)))
      as (_ & _ & L & _);
    rewrite ?L; rewrite ?runEffects_unchanged by reflexivity;
    (split; [reflexivity|]); split; discriminate.
Qed.

Lemma submission_returns_or_stays_loading_witness :
  submit isoDateTime String.compare formatReais (fun m => m) "2024-05"
    rejectingAnswers sampleState = Threw (setIsLoading true sampleState)
  /\ exists st',
       submit isoDateTime String.compare formatReais (fun m => m) "2024-05"
         (sampleAnswers "2024-05-02") sampleState = Returned st'
       /\ isLoading st' = false.
Proof.
  split.
  - destruct (submission_returns_or_stays_loading Z Number_Z isoDateTime
                String.compare formatReais (fun m => m) "2024-05"
                rejectingAnswers sampleState eq_refl eq_refl)
      as [[E _]|(st' & _ & _ & C & _)]; [exact E|].
    exfalso. apply C. reflexivity.
  - destruct (submission_returns_or_stays_loading Z Number_Z isoDateTime
                String.compare formatReais (fun m => m) "2024-05"
                (sampleAnswers "2024-05-02") sampleState eq_refl eq_refl)
      as [[_ [C|[_ C]]]|(st' & E & L & _)]; try discriminate.
    exists st'. split; [exact E|exact L].
Defined.

(** X16: while the input is disabled (a call left [isLoading] true, or the
    API key is missing) no event changes the list, the stored entry, the
    typed text, [isLoading] or [apiKeyExists]: only the selected month
    and the toast can still change. *)
Theorem disabled_input_freezes_session
  (N : Type) (num : Number N) (Date_getTime : string -> option Z)
  (localeCompare : string -> string -> comparison)
  (formatCurrency : N -> string) (formatMonthYear : string -> string)
  (currentMonth : string) (st : AppState N) (evs : list (Event N)) :
  inputDisabled st = true ->
  sameSession st
    (dispatchAll Date_getTime localeCompare formatCurrency formatMonthYear
       currentMonth st evs).
Proof.
  unfold dispatchAll. revert st.
  induction evs as [|ev evs IH]; intros st D; [repeat split|].
  cbn [fold_left].
  destruct (dispatch_disabled Date_getTime localeCompare formatCurrency
              formatMonthYear currentMonth st ev D)
    as (E1 & E2 & E3 & E4 & E5).
  assert (D' : inputDisabled
                 (dispatch Date_getTime localeCompare formatCurrency
                    formatMonthYear currentMonth st ev) = true).
  { unfold inputDisabled in *. now rewrite E4, E5. }
  destruct (IH _ D') as (F1 & F2 & F3 & F4 & F5).
  unfold sameSession. repeat split; congruence.
Qed.

Lemma disabled_input_freezes_session_witness :
  sameSession (setIsLoading true sampleState)
    (dispatchAll isoDateTime String.compare formatReais (fun m => m) "2024-05"
       (dispatch isoDateTime String.compare formatReais (fun m => m)
          "2024-05" sampleState (ClickProcess rejectingAnswers))
       sampleEvents).
Proof.
  apply (disabled_input_freezes_session Z Number_Z isoDateTime String.compare
           formatReais (fun m => m) "2024-05"
           (dispatch isoDateTime String.compare formatReais (fun m => m)
              "2024-05" sampleState (ClickProcess rejectingAnswers))
           sampleEvents).
  reflexivity.
Defined.

(** X17: the text 'Chave de API nao configurada.' of the guard of
    [handleProcessInput] is never shown: without the key the button and
    the input are disabled, so no event reaches the guard. *)
Theorem api_key_message_is_never_shown
  (N : Type) (num : Number N) (Date_getTime : string -> option Z)
  (localeCompare : string -> string -> comparison)
  (formatCurrency : N -> string) (formatMonthYear : string -> string)
  (currentMonth : string) (apiKey : bool) (item : option (StoredText N))
  (evs : list (Event N)) (t : ToastType) :
  loadable Date_getTime item ->
  toast
    (dispatchAll Date_getTime localeCompare formatCurrency formatMonthYear
       currentMonth
       (finalState (mount Date_getTime localeCompare currentMonth apiKey item))
       evs)
  <> Some (mkToast MsgApiKeyMissing t).
Proof.
  intros L. rewrite (mount_returns _ _ _ apiKey item L). cbn [finalState].
  set (st0 := mkState _ _ _ _ _ _ _ _).
  assert (H0 : forall t', toast st0 <> Some (mkToast MsgApiKeyMissing t'))
    by (intros t'; unfold st0; destruct apiKey; discriminate).
  clearbody st0. revert st0 H0 t.
  induction evs as [|ev evs IH]; intros st0 H0 t; [apply H0|].
  cbn [dispatchAll fold_left].
  apply (IH (dispatch Date_getTime localeCompare formatCurrency
               formatMonthYear currentMonth st0 ev)).
  intros t'.
  destruct (dispatch_toast Date_getTime localeCompare formatCurrency
              formatMonthYear currentMonth st0 ev)
    as [->|[->|(m & t0 & -> & Hm)]]; [apply H0|discriminate|congruence].
Qed.

Lemma api_key_message_is_never_shown_witness :
  toast
    (dispatchAll isoDateTime String.compare formatReais (fun m => m) "2024-05"
       (finalState
          (mount isoDateTime String.compare "2024-05" false
             (Some (Serialized scenarioExpenses))))
       sampleEvents)
  <> Some (mkToast MsgApiKeyMissing error).
Proof.
  apply (api_key_message_is_never_shown Z Number_Z isoDateTime String.compare
           formatReais (fun m => m) "2024-05" false
           (Some (Serialized scenarioExpenses)) sampleEvents error).
  repeat constructor; eexists; reflexivity.
Defined.

(** X18: a submission changes the list, the stored entry or the selected
    month only when the interpreter answers REGISTRO_DESPESA, the parser
    gives a value, a description and a date, the date passes the guard
    and the categorizer's call does not reject. *)
Theorem only_registration_changes_store
  (N : Type) (num : Number N) (Date_getTime : string -> option Z)
  (localeCompare : string -> string -> comparison)
  (formatCurrency : N -> string) (formatMonthYear : string -> string)
  (currentMonth : string) (env : Answers N) (st : AppState N) :
  expenses (finalState (submit Date_getTime localeCompare formatCurrency
                          formatMonthYear currentMonth env st))
  <> expenses st
  \/ storedExpenses (finalState (submit Date_getTime localeCompare
                                   formatCurrency formatMonthYear currentMonth
                                   env st))
     <> storedExpenses st
  \/ selectedMonth (finalState (submit Date_getTime localeCompare
                                  formatCurrency formatMonthYear currentMonth
                                  env st))
     <> selectedMonth st ->
  trimIsEmpty (userInput st) = false
  /\ apiKeyExists st = true
  /\ exists q v d dt,
       interpretAnswer env (userInput st)
       = Resolved (Some (mkQuery REGISTRO_DESPESA q))
       /\ parseAnswer env (userInput st)
          = Resolved (Some (mkParsed (Some v) (Some d) (Some dt)))
       /\ validDate Date_getTime dt = true
       /\ categorizeAnswer env d <> Rejected.
Proof.
  intros Hch.
  destruct (submit_result Date_getTime localeCompare formatCurrency
              formatMonthYear currentMonth env st)
    as [E1 _ E3 E4|v d dt T K [q I] P V C _].
  - destruct Hch as [Hch|[Hch|Hch]]; contradiction.
  - split; [exact T|]. split; [exact K|]. exists q, v, d, dt. auto.
Qed.

Lemma only_registration_changes_store_witness :
  exists q v d dt,
    interpretAnswer (sampleAnswers "2024-06-10") (userInput sampleState)
    = Resolved (Some (mkQuery REGISTRO_DESPESA q))
    /\ parseAnswer (sampleAnswers "2024-06-10") (userInput sampleState)
       = Resolved (Some (mkParsed (Some v) (Some d) (Some dt)))
    /\ validDate isoDateTime dt = true
    /\ categorizeAnswer (sampleAnswers "2024-06-10") d <> Rejected.
Proof.
  apply (only_registration_changes_store Z Number_Z isoDateTime String.compare
           formatReais (fun m => m) "2024-05" (sampleAnswers "2024-06-10")
           sampleState).
  right. right. discriminate.
Defined.



(** X20: the effect on the selected month leaves one of the available
    months selected and changes nothing else; when the selected month is
    available it changes nothing, so a second run changes nothing. *)
Theorem selectedMonthEffect_selects_available
  (N : Type) (localeCompare : string -> string -> comparison)
  (currentMonth : string) (st : AppState N) :
  exists m,
    selectedMonthEffect localeCompare currentMonth st = setSelectedMonth m st
    /\ In m (availableMonths localeCompare currentMonth (expenses st))
    /\ (In (selectedMonth st)
          (availableMonths localeCompare currentMonth (expenses st)) ->
        selectedMonthEffect localeCompare currentMonth st = st)
    /\ selectedMonthEffect localeCompare currentMonth
         (selectedMonthEffect localeCompare currentMonth st)
       = selectedMonthEffect localeCompare currentMonth st.
Proof.
  destruct (selectedMonthEffect_spec localeCompare currentMonth st)
    as (m & Hm & _ & E).
  exists m. split; [exact E|]. split; [exact Hm|]. split.
  - apply selectedMonthEffect_included.
  - rewrite E. now apply selectedMonthEffect_included.
Qed.

(** X21: when the entry of [localStorage] is absent, empty, or the text of
    an array of records whose dates all have time values, then from the
    mount on, after every event the list of every month ascends by date:
    the filter keeps the order of the store. *)
Theorem month_list_is_ascending
  (N : Type) (num : Number N) (Date_getTime : string -> option Z)
  (localeCompare : string -> string -> comparison)
  (formatCurrency : N -> string) (formatMonthYear : string -> string)
  (currentMonth : string) (apiKey : bool) (item : option (StoredText N))
  (evs : list (Event N)) (month : string) :
  loadable Date_getTime item ->
  dateAscending Date_getTime
    (expensesOfMonth
       (expenses
          (dispatchAll Date_getTime localeCompare formatCurrency
             formatMonthYear currentMonth
             (finalState
                (mount Date_getTime localeCompare currentMonth apiKey item))
             evs))
       month).
Proof.
  intros L. apply dateAscending_expensesOfMonth.
  apply (settled_dispatchAll Date_getTime localeCompare formatCurrency
           formatMonthYear currentMonth).
  now apply settled_mount.
Qed.

Lemma month_list_is_ascending_witness :
  dateAscending isoDateTime
    (expensesOfMonth
       (expenses
          (dispatchAll isoDateTime String.compare formatReais (fun m => m)
             "2024-05"
             (finalState
                (mount isoDateTime String.compare "2024-05" true
                   (Some (Serialized (rev scenarioExpenses)))))
             sampleEvents))
       "2024-05").
Proof.
  apply (month_list_is_ascending Z Number_Z isoDateTime String.compare
           formatReais (fun m => m) "2024-05" true
           (Some (Serialized (rev scenarioExpenses))) sampleEvents "2024-05").
  repeat constructor; eexists; reflexivity.
Defined.

(** ** The toast's timer *)

Lemma clearTimeout_In (h : nat) (l : list (nat * Z)) (p : nat * Z) :
  In p (clearTimeout h l) <-> In p l /\ fst p <> h.
Proof.
  unfold clearTimeout. rewrite filter_In, negb_true_iff, Nat.eqb_neq.
  reflexivity.
Qed.

Lemma setToastAt_owned (now : Z) (v : option Toast) (n : Notifier) :
  ownsTimeouts n ->
  setToastAt now v n
  = match v with
    | Some t =>
        mkNotifier v [(nextHandle n, now + toastDelay t)]
          (Some (nextHandle n)) (S (nextHandle n))
    | None => mkNotifier None [] None (nextHandle n)
    end.
Proof.
  intros O. unfold setToastAt.
  assert (E : match cleanup n with
              | Some h => clearTimeout h (timeouts n)
              | None => timeouts n
              end = []).
  { destruct (cleanup n) as [h|] eqn:C.
    - destruct (clearTimeout h (timeouts n)) as [|p l] eqn:F; [reflexivity|].
      assert (Hp : In p (clearTimeout h (timeouts n)))
        by (rewrite F; now left).
      apply clearTimeout_In in Hp. destruct Hp as [Hp Hne].
      apply O in Hp. congruence.
    - destruct (timeouts n) as [|p l] eqn:F; [reflexivity|].
      specialize (O p ltac:(rewrite F; now left)). congruence. }
  rewrite E. now destruct v.
Qed.

Lemma ownsTimeouts_setToastAt (now : Z) (v : option Toast) (n : Notifier) :
  ownsTimeouts n -> ownsTimeouts (setToastAt now v n).
Proof.
  intros O. rewrite setToastAt_owned by exact O.
  destruct v; intros p; simpl; [intros [<-|[]]; reflexivity|tauto].
Qed.

Lemma ownsTimeouts_fire (h : nat) (due : Z) (n : Notifier) :
  ownsTimeouts n -> ownsTimeouts (fire h due n).
Proof.
  intros O.
  assert (O' : ownsTimeouts
                 (mkNotifier (shown n) (clearTimeout h (timeouts n))
                    (cleanup n) (nextHandle n))).
  { intros p Hp. simpl in *. apply clearTimeout_In in Hp. now apply O. }
  unfold fire. destruct (shown n); [|exact O'].
  now apply ownsTimeouts_setToastAt.
Qed.

Lemma ownsTimeouts_advance (fuel : nat) (T : Z) (n : Notifier) :
  ownsTimeouts n -> ownsTimeouts (advance fuel T n).
Proof.
  revert n. induction fuel as [|fuel IH]; intros n O; [exact O|].
  simpl. destruct (earliestDue T (timeouts n)) as [[h due]|]; [|exact O].
  apply IH. now apply ownsTimeouts_fire.
Qed.

Lemma ownsTimeouts_timedStep (n : Notifier) (ev : TimedEvent) :
  ownsTimeouts n -> ownsTimeouts (timedStep n ev).
Proof.
  intros O. destruct ev as [now t|T]; cbn [timedStep].
  - now apply ownsTimeouts_setToastAt.
  - now apply ownsTimeouts_advance.
Qed.

Lemma ownsTimeouts_run (evs : list TimedEvent) (n : Notifier) :
  ownsTimeouts n -> ownsTimeouts (fold_left timedStep evs n).
Proof.
  revert n. induction evs as [|ev evs IH]; intros n O; [exact O|].
  simpl. apply IH. now apply ownsTimeouts_timedStep.
Qed.

(** X22: a toast stays for its whole delay and no longer, 7000 ms for an
    info toast and 5000 ms for the others, whatever was shown before: the
    timer of a toast that was replaced does not cut the new one short. *)
Theorem toast_stays_for_its_delay
  (evs : list TimedEvent) (now T : Z) (t : Toast) :
  now <= T ->
  shown (fold_left timedStep (evs ++ [ShowAt now t; AdvanceTo T])
           initialNotifier)
  = if T <? now + toastDelay t then Some t else None.
Proof.
  intros Hle. rewrite fold_left_app.
  set (n := fold_left timedStep evs initialNotifier).
  assert (O : ownsTimeouts n).
  { apply ownsTimeouts_run. intros p []. }
  cbn [fold_left timedStep]. rewrite setToastAt_owned by exact O.
  unfold advanceTo. cbn [timeouts List.length advance earliestDue snd].
  destruct (Z.ltb_spec T (now + toastDelay t)) as [L|L].
  - rewrite (proj2 (Z.leb_gt _ _)) by lia. reflexivity.
  - rewrite (proj2 (Z.leb_le _ _)) by lia. reflexivity.
Qed.

Lemma toast_stays_for_its_delay_witness :
  shown (fold_left timedStep
           [ShowAt 0 (mkToast MsgEmptyInput error);
            ShowAt 4000 (mkToast (MsgSummaryShown "maio de 2024") info);
            AdvanceTo 10999]
           initialNotifier)
  = Some (mkToast (MsgSummaryShown "maio de 2024") info).
Proof.
  apply (toast_stays_for_its_delay [ShowAt 0 (mkToast MsgEmptyInput error)]
           4000 10999 (mkToast (MsgSummaryShown "maio de 2024") info)).
  lia.
Defined.

(** * The shares of the bar chart *)

(** ** What binary64 rounds a value to *)

Lemma iter_pos_nat {A} (f : A -> A) (p : positive) (x : A) :
  iter_pos f p x = Nat.iter (Pos.to_nat p) f x.
Proof.
  revert x. induction p as [p IH|p IH|]; intros x; cbn [iter_pos].
  - rewrite !IH, Pos2Nat.inj_xI, <- Nat.iter_add, <- Nat.iter_succ_r.
    f_equal. lia.
  - rewrite !IH, Pos2Nat.inj_xO, <- Nat.iter_add. f_equal. lia.
  - reflexivity.
Qed.

Lemma shr_1_spec (m : Z) (r s : bool) :
  0 <= m ->
  shr_1 (Build_shr_record m r s)
  = Build_shr_record (m / 2) (Z.odd m) (r || s).
Proof.
  intros Hm. destruct m as [|[p|p|]|p]; try lia; cbn [shr_1 Z.odd].
  - reflexivity.
  - f_equal. rewrite Pos2Z.inj_xI. Z.div_mod_to_equations. lia.
  - f_equal. rewrite Pos2Z.inj_xO. Z.div_mod_to_equations. lia.
  - reflexivity.
Qed.

Lemma mod_pow2_succ (M k : Z) :
  0 <= k ->
  M mod 2 ^ (k + 1) = M mod 2 ^ k + 2 ^ k * ((M / 2 ^ k) mod 2).
Proof.
  intros Hk. rewrite Z.pow_add_r by lia. change (2 ^ 1) with 2.
  apply Z.rem_mul_r; [|lia].
  assert (0 < 2 ^ k) by (apply Z.pow_pos_nonneg; lia). lia.
Qed.

(** What [k + 1] shifts leave of [M]: the quotient, the last bit shifted
    out, and whether a bit before it was set. *)
Lemma iter_shr_1_spec (k : nat) (M : Z) (r0 s0 : bool) :
  0 <= M ->
  Nat.iter (S k) shr_1 (Build_shr_record M r0 s0)
  = Build_shr_record (M / 2 ^ (Z.of_nat k + 1))
      (Z.odd (M / 2 ^ Z.of_nat k))
      (negb (M mod 2 ^ Z.of_nat k =? 0) || r0 || s0).
Proof.
  intros HM. induction k as [|k IH].
  - cbn [Nat.iter Z.of_nat]. rewrite shr_1_spec by exact HM.
    change (2 ^ (0 + 1)) with 2. change (2 ^ 0) with 1.
    rewrite Z.div_1_r, Z.mod_1_r. reflexivity.
  - rewrite Nat.iter_succ, IH.
    assert (Hp : 0 < 2 ^ (Z.of_nat k + 1)) by (apply Z.pow_pos_nonneg; lia).
    rewrite shr_1_spec by (apply Z.div_pos; lia).
    rewrite Nat2Z.inj_succ, <- Z.add_1_r.
    f_equal.
    + rewrite Z.div_div by lia. f_equal.
      rewrite (Z.pow_add_r 2 (Z.of_nat k + 1) 1) by lia. reflexivity.
    + rewrite (mod_pow2_succ M (Z.of_nat k)) by lia.
      assert (Hk : 0 < 2 ^ Z.of_nat k) by (apply Z.pow_pos_nonneg; lia).
      pose proof (Z.mod_pos_bound M (2 ^ Z.of_nat k) Hk) as Hb.
      rewrite Zmod_odd.
      destruct (Z.odd (M / 2 ^ Z.of_nat k)); simpl.
      * replace (M mod 2 ^ Z.of_nat k + 2 ^ Z.of_nat k * 1 =? 0) with false
          by (symmetry; apply Z.eqb_neq; lia).
        reflexivity.
      * rewrite Z.mul_0_r, Z.add_0_r. reflexivity.
Qed.

(** Shifting by [n] bits and rounding to nearest even, as [shr] and
    [round_nearest_even] do it, is [roundShift]. *)
Lemma shr_round (M e n : Z) :
  0 <= M -> 0 <= n ->
  round_nearest_even
    (shr_m (fst (shr (Build_shr_record M false false) e n)))
    (loc_of_shr_record (fst (shr (Build_shr_record M false false) e n)))
  = roundShift M n
  /\ snd (shr (Build_shr_record M false false) e n) = e + n.
Proof.
  intros HM Hn. unfold shr, roundShift.
  destruct n as [|p|p]; try lia.
  - cbn [fst snd shr_m loc_of_shr_record round_nearest_even].
    change (2 ^ 0) with 1. rewrite Z.div_1_r, Z.mod_1_r. simpl.
    split; [reflexivity|lia].
  - cbn [fst snd]. split; [|reflexivity].
    rewrite iter_pos_nat.
    destruct (Pos2Nat.is_succ p) as (k & Ek). rewrite Ek.
    rewrite iter_shr_1_spec by exact HM.
    assert (Ep : Zpos p = Z.of_nat k + 1) by lia.
    rewrite Ep. cbn [shr_m loc_of_shr_record].
    rewrite !orb_false_r.
    set (K := Z.of_nat k) in *.
    assert (HK : 0 <= K) by (unfold K; lia).
    assert (Hk : 0 < 2 ^ K) by (apply Z.pow_pos_nonneg; lia).
    pose proof (Z.mod_pos_bound M (2 ^ K) Hk) as Hb.
    rewrite (mod_pow2_succ M K HK), Zmod_odd.
    assert (E2 : 2 ^ (K + 1) = 2 * 2 ^ K)
      by (rewrite Z.pow_add_r by lia; change (2 ^ 1) with 2; lia).
    rewrite E2.
    destruct (Z.odd (M / 2 ^ K)) eqn:O;
      destruct (Z.eqb_spec (M mod 2 ^ K) 0) as [Z0|Z0];
      cbn [negb round_nearest_even].
    + rewrite Z0.
      replace (2 * (0 + 2 ^ K * 1) ?= 2 * 2 ^ K) with Eq
        by (symmetry; apply Z.compare_eq_iff; lia).
      reflexivity.
    + replace (2 * (M mod 2 ^ K + 2 ^ K * 1) ?= 2 * 2 ^ K) with Gt
        by (symmetry; apply Z.compare_gt_iff; lia).
      reflexivity.
    + replace (2 * (M mod 2 ^ K + 2 ^ K * 0) ?= 2 * 2 ^ K) with Lt
        by (symmetry; apply Z.compare_lt_iff; lia).
      reflexivity.
    + replace (2 * (M mod 2 ^ K + 2 ^ K * 0) ?= 2 * 2 ^ K) with Lt
        by (symmetry; apply Z.compare_lt_iff; lia).
      reflexivity.
Qed.

Lemma roundShift_bounds (M n : Z) :
  M / 2 ^ n <= roundShift M n <= M / 2 ^ n + 1.
Proof.
  unfold roundShift. cbv zeta.
  destruct (2 * (M mod 2 ^ n) ?= 2 ^ n); [destruct (Z.even _)| |]; lia.
Qed.

Lemma roundShift_exact (M n : Z) :
  0 <= n -> M mod 2 ^ n = 0 -> roundShift M n = M / 2 ^ n.
Proof.
  intros Hn E. unfold roundShift. rewrite E.
  assert (0 < 2 ^ n) by (apply Z.pow_pos_nonneg; lia).
  destruct (Z.compare_spec (2 * 0) (2 ^ n)); lia.
Qed.

Lemma roundShift_mono (M M' n : Z) :
  0 <= n -> M <= M' -> roundShift M n <= roundShift M' n.
Proof.
  intros Hn Hle.
  assert (Hp : 0 < 2 ^ n) by (apply Z.pow_pos_nonneg; lia).
  pose proof (Z.div_le_mono M M' (2 ^ n) Hp Hle) as Hq.
  pose proof (roundShift_bounds M n) as B.
  pose proof (roundShift_bounds M' n) as B'.
  destruct (Z.eq_dec (M / 2 ^ n) (M' / 2 ^ n)) as [E|NE]; [|lia].
  assert (Hr : M mod 2 ^ n <= M' mod 2 ^ n).
  { rewrite !Z.mod_eq by lia. rewrite E. lia. }
  unfold roundShift. rewrite <- E.
  set (q := M / 2 ^ n) in *.
  destruct (Z.compare_spec (2 * (M mod 2 ^ n)) (2 ^ n));
    destruct (Z.compare_spec (2 * (M' mod 2 ^ n)) (2 ^ n));
    destruct (Z.even q); lia.
Qed.

Lemma div_mod_scale (M n j : Z) :
  0 <= n -> 0 <= j ->
  (M * 2 ^ j) / 2 ^ (n + j) = M / 2 ^ n
  /\ (M * 2 ^ j) mod 2 ^ (n + j) = (M mod 2 ^ n) * 2 ^ j.
Proof.
  intros Hn Hj.
  assert (Hpn : 0 < 2 ^ n) by (apply Z.pow_pos_nonneg; lia).
  assert (Hpj : 0 < 2 ^ j) by (apply Z.pow_pos_nonneg; lia).
  rewrite Z.pow_add_r by lia. split.
  - rewrite Z.div_mul_cancel_r by lia. reflexivity.
  - rewrite Z.mul_mod_distr_r by lia. reflexivity.
Qed.

Lemma roundShift_scale (M n j : Z) :
  0 <= n -> 0 <= j -> roundShift (M * 2 ^ j) (n + j) = roundShift M n.
Proof.
  intros Hn Hj. unfold roundShift.
  destruct (div_mod_scale M n j Hn Hj) as [-> ->].
  assert (Hpj : 0 < 2 ^ j) by (apply Z.pow_pos_nonneg; lia).
  rewrite Z.pow_add_r by lia.
  destruct (Z.compare_spec (2 * (M mod 2 ^ n)) (2 ^ n));
    destruct (Z.compare_spec (2 * (M mod 2 ^ n * 2 ^ j)) (2 ^ n * 2 ^ j));
    try reflexivity; nia.
Qed.

Lemma shiftOf_mono (V V' : Z) : V <= V' -> shiftOf V <= shiftOf V'.
Proof.
  intros Hle. unfold shiftOf. pose proof (Z.log2_le_mono V V' Hle). lia.
Qed.

Lemma shiftOf_min (V : Z) : 1074 <= shiftOf V.
Proof. unfold shiftOf. lia. Qed.

Lemma quotient_bounds (V : Z) :
  0 < V ->
  V / 2 ^ shiftOf V < 2 ^ 53
  /\ (1074 < shiftOf V -> 2 ^ 52 <= V / 2 ^ shiftOf V)
  /\ 0 <= V / 2 ^ shiftOf V.
Proof.
  intros HV. pose proof (shiftOf_min V) as Hs.
  assert (Hp : 0 < 2 ^ shiftOf V) by (apply Z.pow_pos_nonneg; lia).
  destruct (pow2_log2_le V HV) as [Hlo Hhi].
  pose proof (Z.log2_nonneg V) as Hl.
  split; [|split].
  - apply Z.div_lt_upper_bound; [lia|].
    rewrite <- Z.pow_add_r by lia.
    eapply Z.lt_le_trans; [exact Hhi|]. apply Z.pow_le_mono_r; [lia|].
    unfold shiftOf. lia.
  - intros Hpos. apply Z.div_le_lower_bound; [lia|].
    rewrite <- Z.pow_add_r by lia.
    eapply Z.le_trans; [|exact Hlo]. apply Z.pow_le_mono_r; [lia|].
    unfold shiftOf in *. lia.
  - apply Z.div_pos; lia.
Qed.

(** Rounding is monotone. *)
Lemma roundValue_mono (V V' : Z) :
  0 < V -> V <= V' -> roundValue V <= roundValue V'.
Proof.
  intros HV Hle. unfold roundValue.
  pose proof (shiftOf_mono V V' Hle) as Hs.
  pose proof (shiftOf_min V) as Hn.
  destruct (Z.eq_dec (shiftOf V) (shiftOf V')) as [E|NE].
  - rewrite <- E.
    apply Z.mul_le_mono_nonneg_r; [apply Z.pow_nonneg; lia|].
    apply roundShift_mono; lia.
  - destruct (quotient_bounds V HV) as (U & _ & _).
    destruct (quotient_bounds V' ltac:(lia)) as (_ & L' & _).
    specialize (L' ltac:(lia)).
    pose proof (roundShift_bounds V (shiftOf V)) as B.
    pose proof (roundShift_bounds V' (shiftOf V')) as B'.
    assert (Hp : 0 < 2 ^ shiftOf V) by (apply Z.pow_pos_nonneg; lia).
    assert (E' : 2 ^ shiftOf V' = 2 ^ shiftOf V * 2 ^ (shiftOf V' - shiftOf V)).
    { rewrite <- Z.pow_add_r by lia. f_equal. lia. }
    assert (H2 : 2 <= 2 ^ (shiftOf V' - shiftOf V)).
    { change 2 with (2 ^ 1) at 1. apply Z.pow_le_mono_r; lia. }
    rewrite E'.
    transitivity (2 ^ 53 * 2 ^ shiftOf V); [nia|].
    change (2 ^ 53) with (2 ^ 52 * 2). nia.
Qed.

Lemma roundValue_nonneg (V : Z) : 0 < V -> 0 <= roundValue V.
Proof.
  intros HV. unfold roundValue.
  destruct (quotient_bounds V HV) as (_ & _ & P).
  pose proof (roundShift_bounds V (shiftOf V)).
  apply Z.mul_nonneg_nonneg; [lia|]. apply Z.pow_nonneg. lia.
Qed.

(** A value of at least the least positive number does not round to
    zero. *)
Lemma roundValue_positive (V : Z) : 2 ^ 1074 <= V -> 0 < roundValue V.
Proof.
  intros HV. unfold roundValue.
  pose proof (shiftOf_min V) as Hs.
  assert (Hp : 0 < 2 ^ shiftOf V) by (apply Z.pow_pos_nonneg; lia).
  assert (HV0 : 0 < V).
  { eapply Z.lt_le_trans; [|exact HV]. apply Z.pow_pos_nonneg; lia. }
  destruct (quotient_bounds V HV0) as (_ & L & _).
  pose proof (roundShift_bounds V (shiftOf V)) as B.
  apply Z.mul_pos_pos; [|exact Hp].
  destruct (Z.eq_dec (shiftOf V) 1074) as [E|NE].
  - rewrite E in *.
    assert (1 <= V / 2 ^ 1074); [|lia].
    apply Z.div_le_lower_bound; lia.
  - specialize (L ltac:(lia)). lia.
Qed.

Lemma shr_fexp_round (m e : Z) :
  0 < m ->
  0 <= fexp prec emax (Zdigits2 m + e) - e ->
  exists r,
    shr_fexp prec emax m e loc_Exact = (r, fexp prec emax (Zdigits2 m + e))
    /\ round_nearest_even (shr_m r) (loc_of_shr_record r)
       = roundShift m (fexp prec emax (Zdigits2 m + e) - e).
Proof.
  intros Hm Hn. unfold shr_fexp. cbn [shr_record_of_loc].
  destruct (shr_round m e (fexp prec emax (Zdigits2 m + e) - e)) as [R S];
    [lia|lia|].
  destruct (shr _ e _) as [r e'] eqn:E. cbn [fst snd] in *.
  exists r. split; [f_equal; lia|exact R].
Qed.

Lemma shiftOf_scaled (mz : positive) (ez : Z) :
  -2148 <= ez ->
  shiftOf (Zpos mz * 2 ^ (ez + 2148))
  = fexp prec emax (Zdigits2 (Zpos mz) + ez) + 2148.
Proof.
  intros He. unfold shiftOf.
  rewrite Z.log2_mul_pow2, fexp64 by lia. cbn [Zdigits2].
  rewrite digits2_log2. lia.
Qed.

(** What [binary_round_aux] gives for a positive mantissa that needs no
    shift to the left: the value rounded, at the exponent of that
    value. *)
Lemma binary_round_aux_value (mz : positive) (ez : Z) :
  -2148 <= ez ->
  ez <= fexp prec emax (Zdigits2 (Zpos mz) + ez) ->
  (roundValue (Zpos mz * 2 ^ (ez + 2148)) = 0
   /\ binary_round_aux prec emax false (Zpos mz) ez loc_Exact
      = S754_zero false)
  \/ exists m2 e2,
       Zpos m2 * 2 ^ (e2 + 2148) = roundValue (Zpos mz * 2 ^ (ez + 2148))
       /\ e2 + 2148 = shiftOf (roundValue (Zpos mz * 2 ^ (ez + 2148)))
       /\ binary_round_aux prec emax false (Zpos mz) ez loc_Exact
          = if e2 <=? 971 then S754_finite false m2 e2
            else S754_infinity false.
Proof.
  intros Hmin HT.
  set (V := Zpos mz * 2 ^ (ez + 2148)).
  assert (HV : 0 < V).
  { unfold V. apply Z.mul_pos_pos; [lia|]. apply Z.pow_pos_nonneg; lia. }
  pose proof (shiftOf_scaled mz ez Hmin) as Hs. fold V in Hs.
  set (T := fexp prec emax (Zdigits2 (Zpos mz) + ez)) in *.
  assert (Hm1 : roundShift (Zpos mz) (T - ez) = roundShift V (shiftOf V)).
  { rewrite Hs. unfold V.
    replace (T + 2148) with ((T - ez) + (ez + 2148)) by lia.
    rewrite roundShift_scale by lia. reflexivity. }
  destruct (quotient_bounds V HV) as (U & L & P).
  pose proof (roundShift_bounds V (shiftOf V)) as B.
  set (m1 := roundShift V (shiftOf V)) in *.
  assert (HR : roundValue V = m1 * 2 ^ (T + 2148)).
  { unfold roundValue. fold m1. now rewrite Hs. }
  unfold binary_round_aux.
  destruct (shr_fexp_round (Zpos mz) ez) as (r1 & E1 & M1); [lia|fold T; lia|].
  fold T in E1, M1. rewrite E1, M1, Hm1.
  assert (Hm1pos : 0 <= m1) by lia.
  assert (Hl1 : Z.log2 m1 <= 53).
  { replace 53 with (Z.log2 (2 ^ 53)) by reflexivity.
    apply Z.log2_le_mono. lia. }
  assert (Hl1' : -1074 < T -> 52 <= Z.log2 m1).
  { intros HTpos. replace 52 with (Z.log2 (2 ^ 52)) by reflexivity.
    apply Z.log2_le_mono. specialize (L ltac:(lia)). lia. }
  assert (HTmin : -1074 <= T) by (unfold T; rewrite fexp64; lia).
  destruct (Z.eq_dec m1 0) as [E0|N0].
  { (* the value is below half of the least positive number *)
    left. split; [rewrite HR, E0; reflexivity|].
    assert (ET : T = -1074).
    { destruct (Z.eq_dec T (-1074)) as [E|NT]; [exact E|].
      specialize (Hl1' ltac:(lia)). rewrite E0 in Hl1'. simpl in Hl1'. lia. }
    rewrite E0, ET. reflexivity. }
  right.
  destruct (Z.eq_dec m1 (2 ^ 53)) as [E53|N53].
  - (* the mantissa was rounded up to the next power of two *)
    assert (E2 : shr_fexp prec emax m1 T loc_Exact
                 = (Build_shr_record (2 ^ 52) false false, T + 1)).
    { rewrite E53. unfold shr_fexp, shr. rewrite fexp64.
      change (Zdigits2 (2 ^ 53)) with 54.
      replace (Z.max (54 + T - 53) (-1074) - T) with 1 by lia.
      reflexivity. }
    rewrite E2. cbn [shr_m].
    change (2 ^ 52) with (Zpos (2 ^ 52)%positive).
    exists (2 ^ 52)%positive, (T + 1).
    assert (EV : Zpos (2 ^ 52)%positive * 2 ^ (T + 1 + 2148) = roundValue V).
    { rewrite HR, E53.
      replace (T + 1 + 2148) with (1 + (T + 2148)) by lia.
      rewrite Z.pow_add_r by lia. rewrite Z.mul_assoc. reflexivity. }
    split; [exact EV|]. split; [|reflexivity].
    rewrite <- EV. unfold shiftOf.
    rewrite Z.log2_mul_pow2 by lia.
    change (Z.log2 (Zpos (2 ^ 52)%positive)) with 52. lia.
  - assert (Hlt : m1 < 2 ^ 53) by lia.
    assert (Hl2 : Z.log2 m1 < 53) by (apply Z.log2_lt_pow2; lia).
    assert (E2 : shr_fexp prec emax m1 T loc_Exact
                 = (Build_shr_record m1 false false, T)).
    { unfold shr_fexp, shr. rewrite fexp64, Zdigits2_log2 by lia.
      replace (Z.max (Z.log2 m1 + 1 + T - 53) (-1074) - T) with 0.
      - reflexivity.
      - destruct (Z.eq_dec T (-1074)) as [->|NT]; [lia|].
        specialize (Hl1' ltac:(lia)). lia. }
    rewrite E2. cbn [shr_m].
    destruct m1 as [|p1|p1] eqn:Em1; try lia.
    exists p1, T. split; [now rewrite HR|]. split; [|reflexivity].
    rewrite HR. unfold shiftOf. rewrite Z.log2_mul_pow2 by lia.
    destruct (Z.eq_dec T (-1074)) as [->|NT]; [lia|].
    specialize (Hl1' ltac:(lia)). lia.
Qed.

(** The same for [binary_round], which first shifts to the left when the
    mantissa is short; its exponent is not below the least one, so the
    result is not zero. *)
Lemma binary_round_value (m : positive) (e : Z) :
  -1074 <= e ->
  exists m2 e2,
    Zpos m2 * 2 ^ (e2 + 2148) = roundValue (Zpos m * 2 ^ (e + 2148))
    /\ e2 + 2148 = shiftOf (roundValue (Zpos m * 2 ^ (e + 2148)))
    /\ binary_round prec emax false m e
       = if e2 <=? 971 then S754_finite false m2 e2
         else S754_infinity false.
Proof.
  intros Hmin.
  assert (HP : 0 < roundValue (Zpos m * 2 ^ (e + 2148))).
  { apply roundValue_positive.
    transitivity (1 * 2 ^ (e + 2148)).
    - rewrite Z.mul_1_l. apply Z.pow_le_mono_r; lia.
    - apply Z.mul_le_mono_nonneg_r; [apply Z.pow_nonneg|]; lia. }
  assert (K : forall mz ez,
             Zpos mz * 2 ^ (ez + 2148) = Zpos m * 2 ^ (e + 2148) ->
             -2148 <= ez ->
             ez <= fexp prec emax (Zdigits2 (Zpos mz) + ez) ->
             exists m2 e2,
               Zpos m2 * 2 ^ (e2 + 2148)
               = roundValue (Zpos m * 2 ^ (e + 2148))
               /\ e2 + 2148 = shiftOf (roundValue (Zpos m * 2 ^ (e + 2148)))
               /\ binary_round_aux prec emax false (Zpos mz) ez loc_Exact
                  = if e2 <=? 971 then S754_finite false m2 e2
                    else S754_infinity false).
  { intros mz ez EV H1 H2.
    destruct (binary_round_aux_value mz ez H1 H2) as [[Z0 _]|H];
      rewrite EV in *; [lia|exact H]. }
  unfold binary_round, shl_align.
  destruct (fexp prec emax (Zpos (digits2_pos m) + e) - e) as [|d|d] eqn:Ed.
  - apply K; [reflexivity|lia|]. cbn [Zdigits2]. lia.
  - apply K; [reflexivity|lia|]. cbn [Zdigits2]. lia.
  - assert (Hf : -1074 <= fexp prec emax (Zpos (digits2_pos m) + e))
      by (rewrite fexp64; lia).
    apply K; [|lia|].
    + rewrite iter_xO, <- Z.mul_assoc, <- Z.pow_add_r by lia.
      f_equal. f_equal. lia.
    + rewrite Zdigits2_log2 by lia. rewrite iter_xO.
      rewrite Z.log2_mul_pow2 by lia.
      rewrite digits2_log2 in *. rewrite !fexp64 in *. lia.
Qed.

(** ** Sums, quotients and products of values *)

Lemma valueOf_finite_pos (s : bool) (m : positive) (e : Z) :
  -1074 <= e -> 0 < valueOf (S754_finite s m e).
Proof.
  intros He. cbn [valueOf]. apply Z.mul_pos_pos; [lia|].
  apply Z.pow_pos_nonneg; lia.
Qed.

Lemma valueOf_nonneg (X : spec_float) : 0 <= valueOf X.
Proof.
  destruct X as [s|s| |s m e]; cbn [valueOf]; try reflexivity.
  apply Z.mul_nonneg_nonneg; [lia|]. apply Z.pow_nonneg. lia.
Qed.

Lemma value_order (m1 m2 : positive) (e1 e2 : Z) :
  valid_binary (S754_finite false m1 e1) = true ->
  valid_binary (S754_finite false m2 e2) = true ->
  SFltb (S754_finite false m1 e1) (S754_finite false m2 e2) = true
  <-> valueOf (S754_finite false m1 e1) < valueOf (S754_finite false m2 e2).
Proof.
  intros V1 V2. rewrite SFltb_finite.
  rewrite <- (valid_order false false m1 m2 e1 e2 V1 V2).
  destruct (valid_mantissa _ _ _ V1) as (_ & E1 & _).
  destruct (valid_mantissa _ _ _ V2) as (_ & E2 & _).
  cbn [valueOf].
  set (mn := Z.min e1 e2).
  assert (Hmn : -1074 <= mn /\ mn <= e1 /\ mn <= e2) by (unfold mn; lia).
  replace (e1 + 2148) with ((e1 - mn) + (mn + 2148)) by lia.
  replace (e2 + 2148) with ((e2 - mn) + (mn + 2148)) by lia.
  rewrite (Z.pow_add_r 2 (e1 - mn) (mn + 2148)) by lia.
  rewrite (Z.pow_add_r 2 (e2 - mn) (mn + 2148)) by lia.
  assert (0 < 2 ^ (mn + 2148)) by (apply Z.pow_pos_nonneg; lia).
  rewrite !Z.mul_assoc. now apply Z.mul_lt_mono_pos_r.
Qed.

Lemma roundValue_fixed (s : bool) (m : positive) (e : Z) :
  valid_binary (S754_finite s m e) = true ->
  roundValue (valueOf (S754_finite s m e)) = valueOf (S754_finite s m e)
  /\ shiftOf (valueOf (S754_finite s m e)) = e + 2148.
Proof.
  intros V. destruct (valid_canonical _ _ _ V) as [C Hmin].
  cbn [valueOf].
  assert (S : shiftOf (Zpos m * 2 ^ (e + 2148)) = e + 2148).
  { rewrite shiftOf_scaled by lia. cbn [Zdigits2]. lia. }
  split; [|exact S]. unfold roundValue. rewrite S. f_equal.
  replace (e + 2148) with (0 + (e + 2148)) at 2 by lia.
  rewrite roundShift_scale by lia.
  rewrite roundShift_exact by (try lia; apply Z.mod_1_r).
  change (2 ^ 0) with 1. apply Z.div_1_r.
Qed.

Lemma valid_exponent (s : bool) (m : positive) (e : Z) :
  valid_binary (S754_finite s m e) = true -> e <= 971.
Proof.
  simpl. unfold bounded. intros H. apply andb_true_iff in H.
  destruct H as [_ H]. apply Z.leb_le in H. exact H.
Qed.

(** The sum of a number that is neither negative nor infinite and a
    positive finite one is the rounded sum of the values. *)
Lemma SFadd_value (X A : spec_float) :
  valid_binary X = true -> valid_binary A = true ->
  SFnonneg X -> X <> S754_infinity false ->
  (exists ma ea, A = S754_finite false ma ea) ->
  exists m2 e2,
    Zpos m2 * 2 ^ (e2 + 2148) = roundValue (valueOf X + valueOf A)
    /\ e2 + 2148 = shiftOf (roundValue (valueOf X + valueOf A))
    /\ SF64add X A
       = if e2 <=? 971 then S754_finite false m2 e2
         else S754_infinity false.
Proof.
  intros VX VA HX NX (ma & ea & ->).
  destruct (roundValue_fixed _ _ _ VA) as [FA SA].
  destruct X as [sx|[|]| |[|] mx ex]; try contradiction; try congruence.
  - (* a zero *)
    exists ma, ea. cbn [valueOf] in *. rewrite Z.add_0_l, FA, SA.
    split; [reflexivity|]. split; [reflexivity|].
    rewrite (proj2 (Z.leb_le _ _) (valid_exponent _ _ _ VA)). reflexivity.
  - destruct (valid_canonical _ _ _ VX) as [_ MX].
    destruct (valid_canonical _ _ _ VA) as [_ MA].
    unfold SF64add, SFadd. cbn [cond_Zopp].
    pose proof (shl_align_fst mx ex (Z.min ex ea) (Z.le_min_l _ _)) as Ex.
    pose proof (shl_align_fst ma ea (Z.min ex ea) (Z.le_min_r _ _)) as Ea.
    set (px := fst (shl_align mx ex (Z.min ex ea))) in *.
    set (pa := fst (shl_align ma ea (Z.min ex ea))) in *.
    change (Zpos px + Zpos pa) with (Zpos (px + pa)).
    cbn [binary_normalize].
    assert (EV : Zpos (px + pa) * 2 ^ (Z.min ex ea + 2148)
                 = valueOf (S754_finite false mx ex)
                   + valueOf (S754_finite false ma ea)).
    { cbn [valueOf]. rewrite Pos2Z.inj_add, Ex, Ea.
      rewrite Z.mul_add_distr_r, <- !Z.mul_assoc, <- !Z.pow_add_r by lia.
      f_equal; f_equal; f_equal; lia. }
    rewrite <- EV. apply binary_round_value. lia.
Qed.

Lemma SFnonneg_cases (X : spec_float) :
  SFnonneg X -> X = S754_infinity false \/ X <> S754_infinity false.
Proof.
  intros _. destruct X as [sx|[|]| |[|] mx ex];
    try (right; discriminate). now left.
Qed.

Lemma SFltb_pair (m1 m2 : positive) (e1 e2 : Z) :
  -1074 <= e1 -> e1 <= e2 ->
  Zpos m1 * 2 ^ (e1 + 2148) <= Zpos m2 * 2 ^ (e2 + 2148) ->
  SFltb (S754_finite false m2 e2) (S754_finite false m1 e1) = false.
Proof.
  intros Hmin He Hv.
  destruct (SFltb _ _) eqn:F; [|reflexivity].
  exfalso. apply SFltb_finite in F. destruct F as [F|[-> F]]; [lia|].
  pose proof (Z.pow_pos_nonneg 2 (e1 + 2148) ltac:(lia) ltac:(lia)). nia.
Qed.

Lemma SFltb_infinity_l (X : spec_float) :
  SFltb (S754_infinity false) X = false.
Proof. sf_destruct X; reflexivity. Qed.

(** Adding the same positive number to two numbers keeps their order. *)
Lemma SFadd_monotone (X Y A : spec_float) :
  valid_binary X = true -> valid_binary Y = true -> valid_binary A = true ->
  SFnonneg X -> SFnonneg Y -> SFpositive A ->
  SFltb Y X = false ->
  SFltb (SF64add Y A) (SF64add X A) = false.
Proof.
  intros VX VY VA HX HY HA Hle.
  destruct A as [sa|[|]| |[|] ma ea]; try contradiction.
  { (* the number added is infinite *)
    destruct X as [sx|[|]| |[|] mx ex]; try contradiction;
      destruct Y as [sy|[|]| |[|] my ey]; try contradiction; reflexivity. }
  destruct (SFnonneg_cases Y HY) as [->|NY].
  { apply SFltb_infinity_l. }
  destruct (SFnonneg_cases X HX) as [->|NX].
  { destruct Y as [sy|[|]| |[|] my ey]; try contradiction; try congruence;
      discriminate. }
  destruct (SFadd_value X _ VX VA HX NX ltac:(eauto))
    as (m2 & e2 & R2 & S2 & ->).
  destruct (SFadd_value Y _ VY VA HY NY ltac:(eauto))
    as (m3 & e3 & R3 & S3 & ->).
  assert (Hv : valueOf X <= valueOf Y).
  { destruct X as [sx|[|]| |[|] mx ex]; try contradiction; try congruence.
    - apply valueOf_nonneg.
    - destruct Y as [sy|[|]| |[|] my ey]; try contradiction; try congruence.
      + discriminate.
      + destruct (Z.le_gt_cases (valueOf (S754_finite false mx ex))
                    (valueOf (S754_finite false my ey))) as [L|G];
          [exact L|].
        apply (value_order my mx ey ex VY VX) in G. congruence. }
  destruct (valid_canonical _ _ _ VA) as [_ MA].
  pose proof (valueOf_finite_pos false ma ea MA) as PA.
  pose proof (valueOf_nonneg X) as PX.
  pose proof (roundValue_mono (valueOf X + valueOf (S754_finite false ma ea))
                (valueOf Y + valueOf (S754_finite false ma ea))
                ltac:(lia) ltac:(lia)) as Hr.
  pose proof (shiftOf_mono _ _ Hr) as Hs.
  destruct (Z.leb_spec e3 971) as [L3|L3]; [|now destruct (e2 <=? 971)].
  rewrite (proj2 (Z.leb_le e2 971)) by lia.
  pose proof (shiftOf_min
                (roundValue (valueOf X + valueOf (S754_finite false ma ea)))).
  apply SFltb_pair; lia.
Qed.

Lemma Zdigits2_nonneg_bound (q b : Z) :
  0 <= q -> 0 <= b -> q <= 2 ^ b -> Zdigits2 q <= b + 1.
Proof.
  intros Hq Hb Hlt. destruct (Z.eq_dec q 0) as [->|N]; [simpl; lia|].
  rewrite Zdigits2_log2 by lia.
  assert (Z.log2 q <= Z.log2 (2 ^ b)) by (apply Z.log2_le_mono; lia).
  rewrite Z.log2_pow2 in H by lia. lia.
Qed.

Lemma Zdigits2_lt_bound (q b : Z) :
  0 <= q -> 0 <= b -> q < 2 ^ b -> Zdigits2 q <= b.
Proof.
  intros Hq Hb Hlt. destruct (Z.eq_dec q 0) as [->|N]; [simpl; lia|].
  rewrite Zdigits2_log2 by lia.
  assert (Z.log2 q < b) by (apply Z.log2_lt_pow2; lia). lia.
Qed.

(** The mantissa [shr] leaves, whatever the location it starts from. *)
Lemma shr_mantissa (q e n : Z) (l : location) :
  0 <= q ->
  shr_m (fst (shr (shr_record_of_loc q l) e n)) = q / 2 ^ Z.max n 0
  /\ snd (shr (shr_record_of_loc q l) e n) = e + Z.max n 0.
Proof.
  intros Hq. unfold shr. destruct n as [|p|p]; cbn [fst snd].
  - change (2 ^ Z.max 0 0) with 1. rewrite Z.div_1_r.
    split; [now destruct l as [|[| |]]|lia].
  - rewrite iter_pos_nat.
    destruct (Pos2Nat.is_succ p) as (k & Ek). rewrite Ek.
    assert (Ep : Z.max (Zpos p) 0 = Z.of_nat k + 1) by lia.
    rewrite Ep. split; [|lia].
    destruct l as [|[| |]]; cbn [shr_record_of_loc];
      rewrite iter_shr_1_spec by exact Hq; reflexivity.
  - change (2 ^ Z.max (Z.neg p) 0) with 1. rewrite Z.div_1_r.
    split; [now destruct l as [|[| |]]|lia].
Qed.

(** A value below one, given by a mantissa, an exponent and a location,
    is rounded to at most one. *)
Lemma binary_round_aux_below_one (q e : Z) (l : location) :
  0 <= q -> e <= 0 -> q < 2 ^ (- e) ->
  binary_round_aux prec emax false q e l = S754_zero false
  \/ exists m2 e2,
       binary_round_aux prec emax false q e l = S754_finite false m2 e2
       /\ e2 <= 0 /\ Zpos m2 <= 2 ^ (- e2).
Proof.
  intros Hq He Hlt. unfold binary_round_aux, shr_fexp.
  set (n1 := fexp prec emax (Zdigits2 q + e) - e).
  destruct (shr_mantissa q e n1 l Hq) as [M1 T1].
  destruct (shr (shr_record_of_loc q l) e n1) as [r1 e1].
  cbn [fst snd] in M1, T1.
  assert (Hd : Zdigits2 q <= - e) by (apply Zdigits2_lt_bound; lia).
  assert (Hn1 : e1 <= 0).
  { rewrite T1. unfold n1. rewrite fexp64. lia. }
  assert (Hm1 : 0 <= shr_m r1 < 2 ^ (- e1)).
  { rewrite M1.
    assert (Hp : 0 < 2 ^ Z.max n1 0) by (apply Z.pow_pos_nonneg; lia).
    split; [apply Z.div_pos; lia|].
    apply Z.div_lt_upper_bound; [lia|].
    rewrite <- Z.pow_add_r by lia.
    replace (Z.max n1 0 + - e1) with (- e) by lia. exact Hlt. }
  pose proof (round_nearest_even_bounds (shr_m r1) (loc_of_shr_record r1))
    as Hr.
  set (m1 := round_nearest_even (shr_m r1) (loc_of_shr_record r1)) in *.
  assert (Hm1' : 0 <= m1 <= 2 ^ (- e1)) by lia.
  set (n2 := fexp prec emax (Zdigits2 m1 + e1) - e1).
  destruct (shr_mantissa m1 e1 n2 loc_Exact ltac:(lia)) as [M2 T2].
  destruct (shr (shr_record_of_loc m1 loc_Exact) e1 n2) as [r2 e2].
  cbn [fst snd] in M2, T2.
  assert (Hd2 : Zdigits2 m1 <= - e1 + 1)
    by (apply Zdigits2_nonneg_bound; lia).
  assert (Hn2 : e2 <= 0).
  { rewrite T2. unfold n2. rewrite fexp64. lia. }
  assert (Hm2 : 0 <= shr_m r2 <= 2 ^ (- e2)).
  { rewrite M2.
    assert (Hp : 0 < 2 ^ Z.max n2 0) by (apply Z.pow_pos_nonneg; lia).
    split; [apply Z.div_pos; lia|].
    apply Z.div_le_upper_bound; [lia|].
    rewrite <- Z.pow_add_r by lia.
    replace (Z.max n2 0 + - e2) with (- e1) by lia. lia. }
  destruct (shr_m r2) as [|m2|m2]; [now left| |lia].
  right. exists m2, e2.
  rewrite (proj2 (Z.leb_le e2 (emax - prec))) by (simpl; lia).
  split; [reflexivity|split; [exact Hn2|lia]].
Qed.

Lemma new_location_zero (n : Z) : new_location n 0 = loc_Exact.
Proof.
  unfold new_location, new_location_even, new_location_odd.
  destruct (Z.even n); reflexivity.
Qed.

Lemma roundValue_one : roundValue (2 ^ 2148) = 2 ^ 2148
                       /\ shiftOf (2 ^ 2148) = 2096.
Proof.
  assert (S : shiftOf (2 ^ 2148) = 2096).
  { unfold shiftOf. rewrite Z.log2_pow2 by lia. reflexivity. }
  split; [|exact S]. unfold roundValue. rewrite S.
  rewrite roundShift_exact; [|lia|].
  - change 2148 with (52 + 2096) at 1. rewrite Z.pow_add_r by lia.
    rewrite Z.div_mul by lia.
    change 2148 with (52 + 2096). rewrite Z.pow_add_r by lia. reflexivity.
  - change 2148 with (52 + 2096). rewrite Z.pow_add_r by lia.
    apply Z.mod_mul. lia.
Qed.

(** The quotient of a positive number by one that is not smaller is at
    most one. *)
Lemma SFdiv_at_most_one (ma mg : positive) (ea eg : Z) :
  valid_binary (S754_finite false ma ea) = true ->
  valid_binary (S754_finite false mg eg) = true ->
  SFltb (S754_finite false mg eg) (S754_finite false ma ea) = false ->
  atMostOne (SFdiv prec emax (S754_finite false ma ea)
               (S754_finite false mg eg)).
Proof.
  intros VA VG Hle.
  assert (Hv : Zpos ma * 2 ^ (ea + 2148) <= Zpos mg * 2 ^ (eg + 2148)).
  { pose proof (value_order mg ma eg ea VG VA) as O. cbn [valueOf] in O.
    destruct (Z.le_gt_cases (Zpos ma * 2 ^ (ea + 2148))
                (Zpos mg * 2 ^ (eg + 2148))) as [L|G]; [exact L|].
    apply O in G. congruence. }
  destruct (valid_canonical _ _ _ VA) as [_ MA].
  destruct (valid_canonical _ _ _ VG) as [_ MG].
  pose proof (valid_exponent _ _ _ VG) as XG.
  unfold SFdiv. cbn [xorb]. unfold SFdiv_core_binary.
  set (e' := Z.min (fexp prec emax (Zdigits2 (Zpos ma) + ea
                                    - (Zdigits2 (Zpos mg) + eg))) (ea - eg)).
  assert (Hd : Zdigits2 (Zpos ma) + ea <= Zdigits2 (Zpos mg) + eg).
  { rewrite !Zdigits2_log2 by lia.
    assert (L : Z.log2 (Zpos ma * 2 ^ (ea + 2148))
                <= Z.log2 (Zpos mg * 2 ^ (eg + 2148)))
      by (apply Z.log2_le_mono; exact Hv).
    rewrite !Z.log2_mul_pow2 in L by lia. lia. }
  assert (He' : e' <= -53 /\ e' <= ea - eg /\ -2148 <= e' + eg
                /\ -2148 <= e').
  { unfold e'. rewrite fexp64. lia. }
  destruct He' as (He1 & He2 & He3 & He4).
  set (s := ea - eg - e').
  assert (Hs : 0 <= s) by (unfold s; lia).
  set (m' := match s with
             | 0 => Zpos ma
             | Zpos _ => Z.shiftl (Zpos ma) s
             | Zneg _ => 0
             end).
  assert (Hm' : m' = Zpos ma * 2 ^ s).
  { unfold m'. destruct s as [|p|p] eqn:Es; try lia.
    rewrite Z.shiftl_mul_pow2 by lia. reflexivity. }
  change (IntDef.Z.div_eucl m' (Zpos mg)) with (Z.div_eucl m' (Zpos mg)).
  pose proof (Z.div_eucl_eq m' (Zpos mg) ltac:(lia)) as Hdiv.
  pose proof (Z.mod_pos_bound m' (Zpos mg) ltac:(lia)) as Hmod.
  unfold Z.modulo in Hmod.
  destruct (Z.div_eucl m' (Zpos mg)) as [q r].
  assert (Hq : 0 <= q) by nia.
  assert (Hbound : m' <= Zpos mg * 2 ^ (- e')).
  { rewrite Hm'.
    pose proof (Z.pow_pos_nonneg 2 (e' + eg + 2148) ltac:(lia) ltac:(lia))
      as HP.
    apply (Z.mul_le_mono_pos_r _ _ (2 ^ (e' + eg + 2148)) HP).
    rewrite <- !Z.mul_assoc, <- !Z.pow_add_r by lia.
    replace (s + (e' + eg + 2148)) with (ea + 2148) by (unfold s; lia).
    replace (- e' + (e' + eg + 2148)) with (eg + 2148) by lia.
    exact Hv. }
  assert (Hqle : q <= 2 ^ (- e')) by nia.
  destruct (Z.eq_dec q (2 ^ (- e'))) as [Eq|Nq].
  - (* the quotient is one *)
    assert (Er : r = 0) by nia. subst r. rewrite new_location_zero.
    pose proof (Z.pow_pos_nonneg 2 (- e') ltac:(lia) ltac:(lia)) as Hpos.
    destruct q as [|mq|mq]; try lia.
    destruct (binary_round_aux_value mq e') as [[Z0 _]|(m2 & e2 & V2 & S2 & R2)].
    + lia.
    + rewrite Eq, Zdigits2_log2, Z.log2_pow2, fexp64 by lia. lia.
    + exfalso. revert Z0. rewrite Eq, <- Z.pow_add_r by lia.
      replace (- e' + (e' + 2148)) with 2148 by lia.
      rewrite (proj1 roundValue_one). lia.
    + revert V2 S2 R2. rewrite Eq, <- Z.pow_add_r by lia.
      replace (- e' + (e' + 2148)) with 2148 by lia.
      rewrite (proj1 roundValue_one), (proj2 roundValue_one).
      intros V2 S2 R2. assert (E2 : e2 = -52) by lia. subst e2.
      rewrite R2. right. exists m2, (-52). split; [reflexivity|].
      split; [lia|].
      change (-52 + 2148) with 2096 in V2.
      change 2148 with (52 + 2096) in V2.
      rewrite Z.pow_add_r in V2 by lia.
      pose proof (Z.pow_pos_nonneg 2 2096 ltac:(lia) ltac:(lia)).
      change (- -52) with 52. nia.
  - destruct (binary_round_aux_below_one q e' (new_location (Zpos mg) r))
      as [E|E]; try lia; [left|right]; exact E.
Qed.

(** The product of a number that is at most one and a normal number is
    at most that number. *)
Lemma SFmul_at_most (Q : spec_float) (mh : positive) (eh : Z) :
  valid_binary Q = true ->
  valid_binary (S754_finite false mh eh) = true ->
  2 ^ 52 <= Zpos mh ->
  atMostOne Q ->
  SFnonneg (SFmul prec emax Q (S754_finite false mh eh))
  /\ SFltb (S754_finite false mh eh)
       (SFmul prec emax Q (S754_finite false mh eh)) = false.
Proof.
  intros VQ VH Hn [->|(mq & eq & -> & Hq0 & Hq1)].
  { split; [exact I|reflexivity]. }
  destruct (valid_canonical _ _ _ VQ) as [_ MQ].
  destruct (valid_canonical _ _ _ VH) as [_ MH].
  pose proof (valid_exponent _ _ _ VH) as XH.
  destruct (roundValue_fixed _ _ _ VH) as [FH SH]. cbn [valueOf] in FH, SH.
  unfold SFmul. cbn [xorb].
  assert (HV : Zpos (mq * mh) * 2 ^ (eq + eh + 2148)
               <= Zpos mh * 2 ^ (eh + 2148)).
  { rewrite Pos2Z.inj_mul.
    assert (E : 2 ^ (eh + 2148) = 2 ^ (- eq) * 2 ^ (eq + eh + 2148))
      by (rewrite <- Z.pow_add_r by lia; f_equal; lia).
    rewrite E.
    pose proof (Z.pow_pos_nonneg 2 (eq + eh + 2148) ltac:(lia) ltac:(lia)).
    nia. }
  assert (HP : 0 < Zpos (mq * mh) * 2 ^ (eq + eh + 2148)).
  { apply Z.mul_pos_pos; [lia|]. apply Z.pow_pos_nonneg; lia. }
  pose proof (roundValue_mono _ _ HP HV) as HR. rewrite FH in HR.
  pose proof (roundValue_nonneg _ HP) as HR0.
  assert (HS : shiftOf (roundValue (Zpos (mq * mh) * 2 ^ (eq + eh + 2148)))
               <= eh + 2148).
  { rewrite <- SH. apply shiftOf_mono. exact HR. }
  destruct (binary_round_aux_value (mq * mh) (eq + eh))
    as [[_ ->]|(m2 & e2 & V2 & S2 & ->)].
  - lia.
  - rewrite fexp64, Zdigits2_log2 by lia.
    assert (52 <= Z.log2 (Zpos (mq * mh))).
    { change 52 with (Z.log2 (2 ^ 52)). apply Z.log2_le_mono.
      rewrite Pos2Z.inj_mul. nia. }
    lia.
  - split; [exact I|reflexivity].
  - pose proof (shiftOf_min
                  (roundValue (Zpos (mq * mh) * 2 ^ (eq + eh + 2148)))).
    rewrite (proj2 (Z.leb_le e2 971)) by lia.
    split; [exact I|]. apply SFltb_pair; lia.
Qed.

Lemma SFpositive_le_finite (A G : spec_float) :
  SFpositive A -> SFltb G A = false -> SFltb G (S754_infinity false) = true ->
  exists ma ea mg eg,
    A = S754_finite false ma ea /\ G = S754_finite false mg eg.
Proof.
  sf_destruct A; sf_destruct G; simpl; try contradiction;
    intros _ H1 H2; try discriminate.
  eauto 6.
Qed.

(** The percentage of a positive amount in a finite total that is not
    below it lies between 0 and 100. *)
Lemma float_percentage (a g : float) :
  greater a zero = true -> greater a g = false ->
  PrimFloat.ltb g infinity = true ->
  nonNegative (PrimFloat.mul (PrimFloat.div a g) 100)
  /\ greater (PrimFloat.mul (PrimFloat.div a g) 100) 100%float = false.
Proof.
  intros Pa Hle Hfin. apply positive_float in Pa.
  simpl in Hle. rewrite ltb_spec in Hle. rewrite ltb_spec in Hfin.
  change (Prim2SF infinity) with (S754_infinity false) in Hfin.
  destruct (SFpositive_le_finite _ _ Pa Hle Hfin)
    as (ma & ea & mg & eg & EA & EG).
  pose proof (Prim2SF_valid a) as VA. pose proof (Prim2SF_valid g) as VG.
  pose proof (Prim2SF_valid (PrimFloat.div a g)) as VQ.
  rewrite EA in VA, Hle. rewrite EG in VG, Hle.
  pose proof (SFdiv_at_most_one ma mg ea eg VA VG Hle) as Q.
  assert (EQ : Prim2SF (PrimFloat.div a g)
               = SFdiv prec emax (S754_finite false ma ea)
                   (S754_finite false mg eg)).
  { rewrite div_spec, EA, EG. reflexivity. }
  rewrite <- EQ in Q.
  pose proof (Prim2SF_valid 100) as VH.
  assert (EH : Prim2SF 100 = S754_finite false 7036874417766400 (-46))
    by reflexivity.
  rewrite EH in VH.
  destruct (SFmul_at_most _ _ _ VQ VH ltac:(lia) Q) as [N L].
  split.
  - apply nonNegative_float. rewrite mul_spec, EH. exact N.
  - simpl. rewrite ltb_spec, mul_spec, EH. exact L.
Qed.

(** Adding the same positive number to two numbers keeps their order. *)
Lemma float_add_monotone (x y a : float) :
  nonNegative x -> nonNegative y -> greater x y = false ->
  greater a zero = true ->
  greater (add x a) (add y a) = false.
Proof.
  intros Nx Ny Hle Pa.
  apply nonNegative_float in Nx, Ny. apply positive_float in Pa.
  simpl in *. rewrite ltb_spec in *. rewrite !add_spec.
  apply SFadd_monotone; auto using Prim2SF_valid.
Qed.

(** ** Category totals within the total *)

Lemma float_addMonotone : addMonotone float.
Proof. intros x y a. apply float_add_monotone. Qed.

Section ShareFacts.
Context {N : Type} {num : Number N} {ord : OrderedNumber N}.
Hypothesis add_mono : addMonotone N.
Set Default Proof Using "Type + ord".

Lemma scanStep_within (acc : Scan) (e : Expense N) :
  nonNegativeTotals acc -> positiveAmount e ->
  (forall c, greater (scanSummary acc c) (scanGrandTotal acc) = false) ->
  forall c,
    greater (scanSummary (scanStep acc e) c)
      (scanGrandTotal (scanStep acc e)) = false.
Proof using ord add_mono.
  intros [Ns Ng] Pe W c. unfold scanStep. cbn [scanSummary scanGrandTotal].
  destruct (add_positive _ _ Ng Pe) as [Pg Lg].
  destruct (category_eq_dec c (category e)) as [->|D].
  - rewrite setTotal_same.
    destruct (orElse_nonNegative _ (Ns (category e))) as [No Ho].
    apply add_mono; [exact No|exact Ng| |exact Pe].
    rewrite <- Ho by exact Ng. apply W.
  - rewrite setTotal_other by exact D.
    apply (notGreater_trans _ (scanGrandTotal acc) _);
      [apply Ns|exact Ng|now apply positive_nonNegative|apply W|exact Lg].
Qed.

Lemma scan_within (l : list (Expense N)) (acc : Scan) :
  Forall positiveAmount l -> nonNegativeTotals acc ->
  (forall c, greater (scanSummary acc c) (scanGrandTotal acc) = false) ->
  forall c,
    greater (scanSummary (fold_left scanStep l acc) c)
      (scanGrandTotal (fold_left scanStep l acc)) = false.
Proof using ord add_mono.
  intros Pl. revert acc. induction Pl as [|e l Pe Pl IH]; intros acc Nacc W.
  - exact W.
  - simpl. apply IH.
    + now apply scanStep_nonNegativeTotals.
    + now apply scanStep_within.
Qed.

(** With positive amounts no category total of a month is above the
    month's total. *)
Lemma scanExpenses_within (l : list (Expense N)) (c : ExpenseCategory) :
  Forall positiveAmount l ->
  greater (scanSummary (scanExpenses l) c) (scanGrandTotal (scanExpenses l))
  = false.
Proof using ord add_mono.
  intros Pl. apply scan_within; [exact Pl|apply nonNegativeTotals_init|].
  intros c'. apply greater_irrefl.
Qed.

End ShareFacts.
Set Default Proof Using "Type".

(** X23: with positive amounts, no category total of a summary is greater
    than its [grandTotal], in any arithmetic whose addition keeps the
    order, as that of binary64 does with its rounding. *)
Theorem category_total_within_grand_total
  (N : Type) (num : Number N) (ord : OrderedNumber N)
  (formatMonthYear : string -> string)
  (expenses : list (Expense N)) (selectedMonth : string)
  (s : MonthlySummaryData N) (c : ExpenseCategory) :
  addMonotone N ->
  Forall positiveAmount expenses ->
  monthlySummaryData formatMonthYear expenses selectedMonth = Some s ->
  greater (categoryTotals s c) (grandTotal s) = false.
Proof.
  intros Hadd Pl Hs.
  assert (Pm := Forall_expensesOfMonth _ _ selectedMonth Pl).
  unfold monthlySummaryData in Hs.
  destruct (_ && _) in Hs; [discriminate|].
  injection Hs as <-. cbn [categoryTotals grandTotal].
  now apply scanExpenses_within.
Qed.

Lemma category_total_within_grand_total_witness :
  exists s,
    monthlySummaryData (fun m => m) roundingExpenses "2024-05" = Some s
    /\ greater (categoryTotals s ALIMENTACAO) (grandTotal s) = false.
Proof.
  eexists. split; [reflexivity|].
  apply (category_total_within_grand_total float Number_float
           OrderedNumber_float (fun m => m) roundingExpenses "2024-05" _
           ALIMENTACAO float_addMonotone
           ltac:(repeat constructor; vm_compute; reflexivity) eq_refl).
Defined.

(** X24: in binary64, with positive amounts and a [grandTotal] that has
    not overflowed to [Infinity], the percentage of every bar of the chart
    is a number from 0 to 100. *)
Theorem bar_percentages_within_hundred
  (formatMonthYear : string -> string)
  (expenses : list (Expense float)) (selectedMonth : string)
  (s : MonthlySummaryData float) (bars : list (Bar float)) :
  Forall positiveAmount expenses ->
  monthlySummaryData formatMonthYear expenses selectedMonth = Some s ->
  greater infinity (grandTotal s) = true ->
  MonthlyBarChart PrimFloat.sub PrimFloat.div PrimFloat.mul 100%float (Some s)
  = Some bars ->
  Forall (fun b => nonNegative (barPercentage b)
                   /\ greater (barPercentage b) 100%float = false) bars.
Proof.
  intros Pl Hs Hfin Hbars.
  assert (Pm := Forall_expensesOfMonth _ _ selectedMonth Pl).
  unfold monthlySummaryData in Hs.
  destruct (_ && _) in Hs; [discriminate|].
  injection Hs as <-.
  destruct (sortedCategories_spec PrimFloat.sub float_signOfDifference _
              (formatMonthYear selectedMonth) Pm) as (_ & _ & Hall & _).
  set (s := mkSummary _ _ _ _) in *.
  unfold MonthlyBarChart in Hbars.
  destruct (strictEq (grandTotal s) zero); [discriminate|].
  injection Hbars as <-.
  apply Forall_forall. intros b Hb. apply in_map_iff in Hb.
  destruct Hb as (x & <- & Hx). cbn [barPercentage].
  rewrite Forall_forall in Hall. destruct (Hall x Hx) as [E P].
  apply float_percentage; [exact P| |exact Hfin].
  rewrite E. apply (scanExpenses_within float_addMonotone). exact Pm.
Qed.

Lemma bar_percentages_within_hundred_witness :
  exists s bars,
    monthlySummaryData (fun m => m) roundingExpenses "2024-05" = Some s
    /\ MonthlyBarChart PrimFloat.sub PrimFloat.div PrimFloat.mul 100%float
         (Some s) = Some bars
    /\ Forall (fun b => nonNegative (barPercentage b)
                        /\ greater (barPercentage b) 100%float = false) bars.
Proof.
  eexists. eexists. split; [reflexivity|]. split; [reflexivity|].
  apply (bar_percentages_within_hundred (fun m => m) roundingExpenses
           "2024-05" _ _
           ltac:(repeat constructor; vm_compute; reflexivity) eq_refl
           eq_refl eq_refl).
Defined.

(** * Sums that do not round

    Amounts that are whole numbers of one unit [2 ^ u] are added without
    rounding while the sums stay within [2 ^ 53] units: up to there every
    whole number of units is a binary64 number. *)

(** 500 reais are 500 units of 1 and 12.25 reais 49 quarters; 0.1 is a
    whole number of units of [2 ^ -56], in which the three amounts of
    [roundingExpenses] add up to more than [2 ^ 53]. *)
Example unitsOf_of_amounts :
  unitsOf 0 500 = Some 500
  /\ unitsOf (-2) 12.25 = Some 49
  /\ unitsOf 0 12.25 = None
  /\ unitsOf (-56) 0.1 = Some 7205759403792794
  /\ match totalUnits (-56) roundingExpenses with
     | Some T => 2 ^ 53 < T
     | None => False
     end.
Proof. vm_compute. repeat split. Qed.














Section UnitFacts.
Variable u : Z.
Hypothesis u_range : -1074 <= u <= 970.






End UnitFacts.


